(** * LocalEmbeddingsController (vscode/src/local-context/local-embeddings.ts)

    A shallow embedding of the controller that supervises the cody-engine
    worker: the fields of the class, its methods, and the cooperative
    scheduling of their [async] bodies.

    - The fields of [this] are the record [Controller].
    - Every [async] method is cut at its [await]s.  The code between two
      suspension points is a function in the state monad [M] over [World];
      the suspension points themselves are the constructors of [frame].
    - Promises live in a store indexed by [pid]; a suspended call is a
      [task]: the promise it awaits, the frame to resume, and the promise
      the call returned to its own caller.
    - The host and the worker are the environment: they call the public
      methods, settle the promises of [spawnBfg] and of [request], push
      [embeddings/progress] notifications, and the scheduler resumes any
      task whose awaited promise has settled ([label], [step]). *)

From Stdlib Require Import ZArith String List Bool Lia.
From stdpp Require Import base list.
Import ListNotations.

Local Open Scope string_scope.
Local Open Scope list_scope.

(** ** Values, promises, events *)

Abbreviation pid := nat.

(** The matches returned by the worker are opaque to the controller. *)
Definition EmbeddingsSearchResult := string.

(** The four request methods of the embeddings protocol:
    'embeddings/set-token', 'embeddings/index', 'embeddings/load',
    'embeddings/query'. *)
Inductive method := SetToken | Index | Load | Query.

Inductive value :=
| VUndefined
| VBool (b : bool)
| VString (s : string)
| VIndexParams (path model : string) (dimension : Z)
| VResultSet (results : list EmbeddingsSearchResult)  (* { results: [...] } *)
| VArray (results : list EmbeddingsSearchResult)
| VService.                                           (* the MessageHandler *)

Inductive error :=
| Error (msg : string)
| TypeError.

Inductive result :=
| Fulfilled (v : value)
| Rejected (e : error).

Inductive pstate :=
| Pending
| Settled (r : result).

(** The [async] functions and closures of the class. *)
Inductive fn :=
| f_start
| f_setAccessToken
| f_spawnAndBindService
| f_done            (* the closure of lines 131-135 *)
| f_index
| f_load
| f_load_closure    (* the closure of lines 274-280 *)
| f_eagerlyLoad
| f_query
| f_getContext.

(** Who settles a promise: the process spawner, the worker answering a
    request, or the call of an [async] function that returned it. *)
Inductive origin :=
| FromSpawn
| FromRequest (m : method) (param : value)
| FromAsync (f : fn).

Record cell := { made_by : origin; settled : pstate }.

(** ** The fields of the class (lines 19-28) *)

Record Repo := { path : string; loadResult : bool }.

Inductive BarText :=
| BarLoading (numItems totalItems : Z)  (* $(loading~spin) Cody Embeddings (..%) *)
| BarWarning                            (* $(warning) Cody Embeddings *)
| BarSparkle                            (* $(sparkle) Cody Embeddings *)
| BarEmpty.

Record StatusBarItem :=
  { text : BarText; warningBackground : bool; visible : bool }.

Record Controller := {
  service : option pid;
  serviceStarted : bool;
  accessToken : option string;
  endpointIsDotcom : bool;
  statusBar : option StatusBarItem;
  lastRepo : option Repo;
  pathBeingIndexed : option string
}.

Definition set_service (p : option pid) (c : Controller) : Controller :=
  {| service := p; serviceStarted := serviceStarted c;
     accessToken := accessToken c; endpointIsDotcom := endpointIsDotcom c;
     statusBar := statusBar c; lastRepo := lastRepo c;
     pathBeingIndexed := pathBeingIndexed c |}.

Definition set_serviceStarted (b : bool) (c : Controller) : Controller :=
  {| service := service c; serviceStarted := b;
     accessToken := accessToken c; endpointIsDotcom := endpointIsDotcom c;
     statusBar := statusBar c; lastRepo := lastRepo c;
     pathBeingIndexed := pathBeingIndexed c |}.

Definition set_accessToken (t : option string) (c : Controller) : Controller :=
  {| service := service c; serviceStarted := serviceStarted c;
     accessToken := t; endpointIsDotcom := endpointIsDotcom c;
     statusBar := statusBar c; lastRepo := lastRepo c;
     pathBeingIndexed := pathBeingIndexed c |}.

Definition set_endpointIsDotcom (b : bool) (c : Controller) : Controller :=
  {| service := service c; serviceStarted := serviceStarted c;
     accessToken := accessToken c; endpointIsDotcom := b;
     statusBar := statusBar c; lastRepo := lastRepo c;
     pathBeingIndexed := pathBeingIndexed c |}.

Definition set_statusBar (s : option StatusBarItem) (c : Controller) : Controller :=
  {| service := service c; serviceStarted := serviceStarted c;
     accessToken := accessToken c; endpointIsDotcom := endpointIsDotcom c;
     statusBar := s; lastRepo := lastRepo c;
     pathBeingIndexed := pathBeingIndexed c |}.

Definition set_lastRepo (r : option Repo) (c : Controller) : Controller :=
  {| service := service c; serviceStarted := serviceStarted c;
     accessToken := accessToken c; endpointIsDotcom := endpointIsDotcom c;
     statusBar := statusBar c; lastRepo := r;
     pathBeingIndexed := pathBeingIndexed c |}.

Definition set_pathBeingIndexed (p : option string) (c : Controller) : Controller :=
  {| service := service c; serviceStarted := serviceStarted c;
     accessToken := accessToken c; endpointIsDotcom := endpointIsDotcom c;
     statusBar := statusBar c; lastRepo := lastRepo c;
     pathBeingIndexed := p |}.

(** The controller as the constructor leaves it. *)
Definition new_controller : Controller :=
  {| service := None; serviceStarted := false; accessToken := None;
     endpointIsDotcom := false; statusBar := None; lastRepo := None;
     pathBeingIndexed := None |}.

(** What the outside can observe.  The two emitters hand [this] to their
    listeners, so a fired event records the fields a listener reads. *)
Inductive event :=
| EvSpawnBfg                                       (* spawnBfg(context, reject) *)
| EvRegisterNotification                           (* 'embeddings/progress' *)
| EvRequest (m : method) (param : value) (reply : pid)
| EvStatusFired (seen : Controller)                (* statusEmitter.fire(this) *)
| EvChangeFired (seen : Controller)                (* changeEmitter.fire(this) *)
| EvLog (what : string)                            (* logDebug *)
| EvCapture (e : error)                            (* captureException *)
| EvBarDisposed                                    (* statusBar.dispose() *)
| EvHideAfter (item : StatusBarItem) (ms : Z)      (* setTimeout(hide, 30_000) *)
| EvInfoMessage (json : string).                   (* showInformationMessage *)

(** The payload of an 'embeddings/progress' notification. *)
Inductive notification :=
| NProgress (numItems totalItems : Z)   (* { Progress: { numItems, totalItems } } *)
| NError (detail : string)              (* { Error: ... } *)
| NObject                               (* an object with neither key *)
| NDone                                 (* the string 'Done' *)
| NOther (json : string).               (* anything that is not an object *)

(** ** Suspension points

    One constructor for every [await] (and every [return] of a promise
    from an [async] function, which also waits for it), with the local
    variables that are live across it. *)
Inductive frame :=
| start_service                          (* line 55 *)
| start_load                             (* line 58 *)
| setAccessToken_service (token : string) (* line 81 *)
| spawnAndBindService_spawn              (* line 93 *)
| done_load (path : string)              (* line 132 *)
| index_service (repoPath : string)      (* line 243, inner await *)
| index_request (repoPath : string)      (* line 243, outer await *)
| load_service                           (* line 276 *)
| load_return                            (* line 283 *)
| eagerlyLoad_service (repoPath : string) (* line 289, inner await *)
| eagerlyLoad_request (repoPath : string) (* line 289, outer await *)
| query_service (query : string)         (* line 299, await *)
| query_return                           (* line 299, return *)
| getContext_query.                      (* line 305 *)

Record task := { awaits : pid; resumes : frame; owner : pid }.

(** [vscode.workspace.workspaceFolders], as far as lines 56 and 178 look
    at it: undefined when no workspace is open, an empty list when the
    workspace has no folder, or a list whose first folder has the path
    [fsPath]. *)
Inductive WorkspaceFolders :=
| NoWorkspace
| NoFolders
| FirstFolder (fsPath : string).

Record World := {
  ctrl : Controller;
  workspace : WorkspaceFolders;  (* vscode.workspace.workspaceFolders *)
  promises : list cell;
  tasks : list task;
  registered : bool;          (* the progress handler is installed *)
  trace : list event
}.

Definition init : World :=
  {| ctrl := new_controller; workspace := NoWorkspace; promises := [];
     tasks := []; registered := false; trace := [] |}.

(** ** The state monad of the synchronous segments *)

Definition M (A : Type) : Type := World -> A * World.

Definition ret {A} (a : A) : M A := fun w => (a, w).

Definition bind {A B} (m : M A) (k : A -> M B) : M B :=
  fun w => let (a, w') := m w in k a w'.

Notation "x <- m ;; k" := (bind m (fun x => k))
  (at level 100, m at next level, k at level 200, right associativity).
Notation "m ;; k" := (bind m (fun _ => k))
  (at level 100, k at level 200, right associativity).

Definition this : M Controller := fun w => (ctrl w, w).

Definition assign (f : Controller -> Controller) : M unit := fun w =>
  (tt, {| ctrl := f (ctrl w); workspace := workspace w;
          promises := promises w; tasks := tasks w;
          registered := registered w; trace := trace w |}).

Definition emit (e : event) : M unit := fun w =>
  (tt, {| ctrl := ctrl w; workspace := workspace w;
          promises := promises w; tasks := tasks w;
          registered := registered w; trace := trace w ++ [e] |}).

Definition logDebug (what : string) : M unit := emit (EvLog what).
Definition captureException (e : error) : M unit := emit (EvCapture e).

Definition fire_status : M unit := fun w => emit (EvStatusFired (ctrl w)) w.
Definition fire_change : M unit := fun w => emit (EvChangeFired (ctrl w)) w.

Definition workspaceFolder : M WorkspaceFolders := fun w => (workspace w, w).

Definition new_promise (o : origin) : M pid := fun w =>
  (length (promises w),
   {| ctrl := ctrl w; workspace := workspace w;
      promises := promises w ++ [{| made_by := o; settled := Pending |}];
      tasks := tasks w; registered := registered w; trace := trace w |}).

(** A promise settles once: settling a settled promise changes nothing. *)
Definition settle_cell (r : result) (c : cell) : cell :=
  match settled c with
  | Pending => {| made_by := made_by c; settled := Settled r |}
  | Settled _ => c
  end.

Definition settle (p : pid) (r : result) : M unit := fun w =>
  (tt, {| ctrl := ctrl w; workspace := workspace w;
          promises := match promises w !! p with
                      | Some c => <[p := settle_cell r c]> (promises w)
                      | None => promises w
                      end;
          tasks := tasks w; registered := registered w; trace := trace w |}).

Definition park (t : task) : M unit := fun w =>
  (tt, {| ctrl := ctrl w; workspace := workspace w;
          promises := promises w; tasks := tasks w ++ [t];
          registered := registered w; trace := trace w |}).

Definition registerNotification : M unit := fun w =>
  (tt, {| ctrl := ctrl w; workspace := workspace w;
          promises := promises w; tasks := tasks w;
          registered := true; trace := trace w ++ [EvRegisterNotification] |}).

(** How a segment ends: the function returns, throws, or awaits. *)
Inductive outcome :=
| Return (v : value)
| Throw (e : error)
| Await (p : pid) (k : frame).

Definition finish (own : pid) (o : outcome) : M unit :=
  match o with
  | Return v => settle own (Fulfilled v)
  | Throw e => settle own (Rejected e)
  | Await p k => park {| awaits := p; resumes := k; owner := own |}
  end.

(** Calling an [async] function: its promise is created, its body runs
    up to the first [await], and the caller gets the promise. *)
Definition async (f : fn) (body : M outcome) : M pid :=
  own <- new_promise (FromAsync f) ;;
  o <- body ;;
  finish own o ;;
  ret own.

(** [service.request(method, param)]: the worker will settle the reply. *)
Definition request (m : method) (param : value) : M pid :=
  reply <- new_promise (FromRequest m param) ;;
  emit (EvRequest m param reply) ;;
  ret reply.

(** JavaScript truthiness of a string. *)
Definition truthy (s : string) : bool := negb (String.eqb s "").

Definition or_else (a : option string) (b : string) : string :=
  match a with
  | Some s => if truthy s then s else b
  | None => b
  end.

(** [token === this.accessToken], for [token : string | null] and
    [accessToken : string | undefined]: [null] is never [undefined]. *)
Definition same_token (token accessToken : option string) : bool :=
  match token, accessToken with
  | Some a, Some b => String.eqb a b
  | _, _ => false
  end.

(** [token || undefined] *)
Definition token_or_undefined (token : option string) : option string :=
  match token with
  | Some t => if truthy t then Some t else None
  | None => None
  end.

(** The boolean the worker answers 'embeddings/load' with. *)
Definition as_bool (v : value) : bool :=
  match v with
  | VBool b => b
  | _ => false
  end.

(** ** ContextStatusProvider: the [status] getter (lines 171-227) *)

Inductive ProviderState := indeterminate | indexing | ready | unconsented.

Record ContextProvider :=
  { kind : string; type_ : string; state : ProviderState }.

Record ContextGroup := { name : string; providers : list ContextProvider }.

Definition local_embeddings (s : ProviderState) : ContextProvider :=
  {| kind := "embeddings"; type_ := "local"; state := s |}.

Definition option_string_eqb (a : option string) (b : string) : bool :=
  match a with
  | Some s => String.eqb s b
  | None => false
  end.

(** What reading a getter gives: its value, or the exception raised. *)
Inductive getter (A : Type) :=
| Got (a : A)
| Raised (e : error).

Arguments Got {A} a.
Arguments Raised {A} e.

(** [workspaceFolders?.[0].uri.fsPath]: the optional chain stops at an
    undefined [workspaceFolders]; on an empty list [[0]] is undefined
    and [.uri] raises a TypeError. *)
Definition first_folder_path (ws : WorkspaceFolders) : getter (option string) :=
  match ws with
  | NoWorkspace => Got None
  | NoFolders => Raised TypeError
  | FirstFolder fsPath => Got (Some fsPath)
  end.

(** The path of line 178: the operands of [||] are evaluated from the
    left, each only if the ones before it were falsy. *)
Definition displayed_path (c : Controller) (ws : WorkspaceFolders)
  : getter string :=
  let fallback :=
    match first_folder_path ws with
    | Got f => Got (or_else f "(No workspace loaded)")
    | Raised e => Raised e
    end in
  match lastRepo c with
  | Some repo => if truthy (path repo) then Got (path repo) else fallback
  | None => fallback
  end.

Definition status (c : Controller) (ws : WorkspaceFolders)
  : getter (list ContextGroup) :=
  if negb (endpointIsDotcom c) then Got []
  else
    match displayed_path c ws with
    | Raised e => Raised e
    | Got path =>
        match lastRepo c with
        | None =>
            Got [ {| name := path;
                     providers := [local_embeddings indeterminate] |} ]
        | Some repo =>
            if option_string_eqb (pathBeingIndexed c) path then
              Got [ {| name := path;
                       providers := [local_embeddings indexing] |} ]
            else if loadResult repo then
              Got [ {| name := path;
                       providers := [local_embeddings ready] |} ]
            else
              Got [ {| name := path;
                       providers := [local_embeddings unconsented] |} ]
        end
    end.

(** [DOTCOM_URL.toString()] is a constant of cody-shared; the controller
    is parameterized by it. *)
Class Dotcom := DOTCOM_URL : string.

Section LocalEmbeddingsController.

Context {dotcom : Dotcom}.

(** ** The session (lines 85-161) *)

(** [spawnBfg(context, reject)] wrapped in [new Promise] (lines 93-101):
    one promise that the spawner fulfils with the message handler, or
    rejects. *)
Definition spawnBfg : M pid :=
  emit EvSpawnBfg ;;
  new_promise FromSpawn.

Definition spawnAndBindService : M pid :=
  async f_spawnAndBindService
        (inner <- spawnBfg ;;
         ret (Await inner spawnAndBindService_spawn)).

Definition getService : M pid :=
  c <- this ;;
  match service c with
  | None =>
      p <- spawnAndBindService ;;
      assign (set_service (Some p)) ;;
      ret p
  | Some p => ret p
  end.

(** ** Interactions with cody-engine: the segments up to the first await *)

Definition eagerlyLoad (repoPath : string) : M pid :=
  async f_eagerlyLoad
        (p <- getService ;;
         ret (Await p (eagerlyLoad_service repoPath))).

Definition start : M pid :=
  async f_start
        (logDebug "start" ;;
         p <- getService ;;
         ret (Await p start_service)).

Definition setAccessToken (serverEndpoint : string) (token : option string)
  : M pid :=
  async f_setAccessToken (
    let isDotcom := String.eqb serverEndpoint DOTCOM_URL in
    logDebug (if isDotcom then "setAccessToken is dotcom"
              else "setAccessToken not dotcom") ;;
    c <- this ;;
    (if negb (Bool.eqb isDotcom (endpointIsDotcom c)) then
       fire_status ;;
       c <- this ;;
       if serviceStarted c then fire_change else ret tt
     else ret tt) ;;
    assign (set_endpointIsDotcom isDotcom) ;;
    c <- this ;;
    if same_token token (accessToken c) then ret (Return VUndefined)
    else
      assign (set_accessToken (token_or_undefined token)) ;;
      c <- this ;;
      match token with
      | Some t =>
          if truthy t && serviceStarted c then
            p <- getService ;;
            ret (Await p (setAccessToken_service t))
          else ret (Return VUndefined)
      | None => ret (Return VUndefined)
      end).

(** The guard of [index] (line 232). *)
Definition can_index (c : Controller) : option string :=
  match lastRepo c with
  | Some repo =>
      if endpointIsDotcom c && truthy (path repo) && negb (loadResult repo)
      then Some (path repo) else None
  | None => None
  end.

Definition index : M pid :=
  async f_index (
    c <- this ;;
    match can_index c with
    | None =>
        logDebug "index: No repository to index/already indexed" ;;
        ret (Return VUndefined)
    | Some repoPath =>
        logDebug "index: Starting repository" ;;
        p <- getService ;;
        ret (Await p (index_service repoPath))
    end).

(** The single-slot cache (line 267): the cached result for [repoPath]. *)
Definition cached (c : Controller) (repoPath : string) : option bool :=
  match lastRepo c with
  | Some repo =>
      if String.eqb repoPath (path repo) then Some (loadResult repo) else None
  | None => None
  end.

Definition load (repoUri : option string) : M pid :=
  async f_load (
    c <- this ;;
    if negb (endpointIsDotcom c) then ret (Return (VBool false))
    else
      match repoUri with
      | None => ret (Return (VBool false))
      | Some repoPath =>
          if negb (truthy repoPath) then ret (Return (VBool false))
          else
            match cached c repoPath with
            | Some loadResult => ret (Return (VBool loadResult))
            | None =>
                if negb (serviceStarted c) then
                  async f_load_closure
                        (p <- getService ;; ret (Await p load_service)) ;;
                  ret (Return (VBool false))
                else
                  q <- eagerlyLoad repoPath ;;
                  ret (Await q load_return)
            end
      end).

Definition query (q : string) : M pid :=
  async f_query (
    c <- this ;;
    if negb (endpointIsDotcom c) then ret (Return (VResultSet []))
    else
      p <- getService ;;
      ret (Await p (query_service q))).

Definition getContext (q : string) (_numResults : Z) : M pid :=
  async f_getContext
        (p <- query q ;;
         ret (Await p getContext_query)).

(** ** The handler of 'embeddings/progress' (lines 103-145) *)

Definition sparkle : StatusBarItem :=
  {| text := BarSparkle; warningBackground := false; visible := true |}.

(** The condition of line 129. *)
Definition reload_after_done (c : Controller) : option string :=
  match pathBeingIndexed c with
  | Some p =>
      if truthy p &&
         match lastRepo c with
         | None => true
         | Some repo => String.eqb (path repo) p
         end
      then Some p else None
  | None => None
  end.

Definition onProgress (obj : notification) : M unit :=
  c <- this ;;
  match statusBar c with
  | None => ret tt
  | Some _ =>
      match obj with
      | NProgress numItems totalItems =>
          assign (set_statusBar
                    (Some {| text := BarLoading numItems totalItems;
                             warningBackground := false; visible := true |}))
      | NError _ =>
          assign (set_statusBar
                    (Some {| text := BarWarning;
                             warningBackground := true; visible := true |}))
      | NObject => ret tt
      | NDone =>
          assign (set_statusBar (Some sparkle)) ;;
          assign (set_statusBar None) ;;
          emit (EvHideAfter sparkle 30000) ;;
          c <- this ;;
          match reload_after_done c with
          | Some path =>
              async f_done
                    (q <- eagerlyLoad path ;;
                     ret (Await q (done_load path))) ;;
              ret tt
          | None => ret tt
          end ;;
          assign (set_pathBeingIndexed None) ;;
          fire_status
      | NOther json =>
          logDebug json ;;
          emit (EvInfoMessage json)
      end
  end.

(** ** The segments after each await *)

Definition model : string := "openai/text-embedding-ada-002".

Definition resume (k : frame) (r : result) : M outcome :=
  match k, r with
  (* spawnAndBindService, lines 102-160 *)
  | spawnAndBindService_spawn, Fulfilled service =>
      registerNotification ;;
      logDebug "spawnAndBindService service started" ;;
      c <- this ;;
      match accessToken c with
      | Some t =>
          if truthy t then request SetToken (VString t) ;; ret tt
          else ret tt
      | None => ret tt
      end ;;
      assign (set_serviceStarted true) ;;
      fire_change ;;
      ret (Return service)
  | spawnAndBindService_spawn, Rejected e => ret (Throw e)
  (* start, lines 56-59 *)
  | start_service, Fulfilled _ =>
      folders <- workspaceFolder ;;
      match folders with
      | FirstFolder fsPath =>
          q <- eagerlyLoad fsPath ;;
          ret (Await q start_load)
      | NoWorkspace => ret (Return VUndefined)
      | NoFolders => ret (Throw TypeError)   (* [.uri] of undefined, line 56 *)
      end
  | start_service, Rejected e => ret (Throw e)
  | start_load, Fulfilled _ => ret (Return VUndefined)
  | start_load, Rejected e => ret (Throw e)
  (* setAccessToken, line 81 *)
  | setAccessToken_service token, Fulfilled _ =>
      request SetToken (VString token) ;;
      ret (Return VUndefined)
  | setAccessToken_service _, Rejected e => ret (Throw e)
  (* the closure started on 'Done', lines 132-134 *)
  | done_load _, Fulfilled _ =>
      logDebug "load after indexing done" ;;
      fire_change ;;
      ret (Return VUndefined)
  | done_load _, Rejected e => ret (Throw e)
  (* index, lines 243-254: both awaits are inside the try *)
  | index_service repoPath, Fulfilled _ =>
      reply <- request Index (VIndexParams repoPath model 1536) ;;
      ret (Await reply (index_request repoPath))
  | index_request repoPath, Fulfilled _ =>
      assign (set_pathBeingIndexed (Some repoPath)) ;;
      c <- this ;;
      match statusBar c with
      | Some _ => emit EvBarDisposed
      | None => ret tt
      end ;;
      assign (set_statusBar
                (Some {| text := BarEmpty; warningBackground := false;
                         visible := false |})) ;;
      fire_status ;;
      ret (Return VUndefined)
  | index_service _, Rejected e
  | index_request _, Rejected e =>
      captureException e ;;
      logDebug "index failed" ;;
      ret (Return VUndefined)
  (* load, lines 275-279: the closure that starts the service *)
  | load_service, Fulfilled _ => ret (Return VUndefined)
  | load_service, Rejected e =>
      captureException e ;;
      logDebug "load" ;;
      ret (Return VUndefined)
  (* load, line 283 *)
  | load_return, Fulfilled v => ret (Return v)
  | load_return, Rejected e => ret (Throw e)
  (* eagerlyLoad, lines 287-292 *)
  | eagerlyLoad_service repoPath, Fulfilled _ =>
      reply <- request Load (VString repoPath) ;;
      ret (Await reply (eagerlyLoad_request repoPath))
  | eagerlyLoad_service _, Rejected e => ret (Throw e)
  | eagerlyLoad_request repoPath, Fulfilled v =>
      assign (set_lastRepo
                (Some {| path := repoPath; loadResult := as_bool v |})) ;;
      fire_status ;;
      c <- this ;;
      match lastRepo c with
      | Some repo => ret (Return (VBool (loadResult repo)))
      | None => ret (Throw TypeError)
      end
  | eagerlyLoad_request _, Rejected e => ret (Throw e)
  (* query, line 299 *)
  | query_service q, Fulfilled _ =>
      reply <- request Query (VString q) ;;
      ret (Await reply query_return)
  | query_service _, Rejected e => ret (Throw e)
  | query_return, Fulfilled v => ret (Return v)
  | query_return, Rejected e => ret (Throw e)
  (* getContext, lines 305-311: the await is inside the try *)
  | getContext_query, Fulfilled (VResultSet results) =>
      logDebug "returning results" ;;
      ret (Return (VArray results))
  | getContext_query, Fulfilled _ =>
      captureException TypeError ;;
      logDebug "getContext failed" ;;
      ret (Return (VArray []))
  | getContext_query, Rejected e =>
      captureException e ;;
      logDebug "getContext failed" ;;
      ret (Return (VArray []))
  end.

(** ** The environment and the scheduler *)

Inductive label :=
| L_start
| L_setAccessToken (serverEndpoint : string) (token : option string)
| L_index
| L_load (repoUri : option string)
| L_query (q : string)
| L_getContext (q : string) (numResults : Z)
| L_workspace (folders : WorkspaceFolders)  (* the host changes the workspace *)
| L_settle (p : pid) (r : result)       (* the spawner or the worker answers *)
| L_spawn_failed (p : pid) (e : error)  (* spawnBfg itself rejects (lines 96-99) *)
| L_notify (obj : notification)         (* the worker pushes a notification *)
| L_resume (i : nat).                   (* the i-th suspended task runs on *)

(** What the environment may answer: the spawner hands over the message
    handler, 'embeddings/load' answers a boolean (the type of
    [loadResult]); any promise may be rejected. *)
Definition answers (o : origin) (r : result) : bool :=
  match o, r with
  | FromAsync _, _ => false
  | _, Rejected _ => true
  | FromSpawn, Fulfilled VService => true
  | FromSpawn, Fulfilled _ => false
  | FromRequest Load _, Fulfilled (VBool _) => true
  | FromRequest Load _, Fulfilled _ => false
  | FromRequest _ _, Fulfilled _ => true
  end.

Definition is_spawn (o : origin) : bool :=
  match o with
  | FromSpawn => true
  | _ => false
  end.

Definition remove_task (i : nat) : M unit := fun w =>
  (tt, {| ctrl := ctrl w; workspace := workspace w;
          promises := promises w; tasks := delete i (tasks w);
          registered := registered w; trace := trace w |}).

Definition set_workspace (folders : WorkspaceFolders) : M unit := fun w =>
  (tt, {| ctrl := ctrl w; workspace := folders;
          promises := promises w; tasks := tasks w;
          registered := registered w; trace := trace w |}).

Definition run {A} (m : M A) (w : World) : World := snd (m w).

Definition step (l : label) (w : World) : option World :=
  match l with
  | L_start => Some (run start w)
  | L_setAccessToken serverEndpoint token =>
      Some (run (setAccessToken serverEndpoint token) w)
  | L_index => Some (run index w)
  | L_load repoUri => Some (run (load repoUri) w)
  | L_query q => Some (run (query q) w)
  | L_getContext q n => Some (run (getContext q n) w)
  | L_workspace folders => Some (run (set_workspace folders) w)
  | L_settle p r =>
      match promises w !! p with
      | Some {| made_by := o; settled := Pending |} =>
          if answers o r then Some (run (settle p r) w) else None
      | _ => None
      end
  | L_spawn_failed p e =>
      match promises w !! p with
      | Some {| made_by := o; settled := Pending |} =>
          if is_spawn o then
            Some (run (captureException e ;; settle p (Rejected e)) w)
          else None
      | _ => None
      end
  | L_notify obj =>
      if registered w then Some (run (onProgress obj) w) else None
  | L_resume i =>
      match tasks w !! i with
      | Some t =>
          match promises w !! awaits t with
          | Some {| settled := Settled r |} =>
              Some (run (remove_task i ;;
                         o <- resume (resumes t) r ;;
                         finish (owner t) o) w)
          | _ => None
          end
      | None => None
      end
  end.

Fixpoint exec (ls : list label) (w : World) : option World :=
  match ls with
  | [] => Some w
  | l :: ls' =>
      match step l w with
      | Some w' => exec ls' w'
      | None => None
      end
  end.

(** The worlds the controller can be in. *)
Inductive reachable : World -> Prop :=
| reachable_init : reachable init
| reachable_step l w w' :
    reachable w -> step l w = Some w' -> reachable w'.





(** ** Observations on worlds *)

Definition promise (w : World) (p : pid) : option pstate :=
  settled <$> promises w !! p.

Definition is_spawn_event (e : event) : bool :=
  match e with
  | EvSpawnBfg => true
  | _ => false
  end.

Definition spawns (w : World) : nat :=
  length (List.filter is_spawn_event (trace w)).

Definition is_request (m : method) (e : event) : bool :=
  match e, m with
  | EvRequest SetToken _ _, SetToken
  | EvRequest Index _ _, Index
  | EvRequest Load _ _, Load
  | EvRequest Query _ _, Query => true
  | _, _ => false
  end.

(** How many requests of method [m] went to the worker. *)
Definition requests (m : method) (tr : list event) : nat :=
  length (List.filter (is_request m) tr).

Definition is_status_fired (e : event) : bool :=
  match e with
  | EvStatusFired _ => true
  | _ => false
  end.

Definition status_fired (tr : list event) : nat :=
  length (List.filter is_status_fired tr).

(** The world after an [async] call that returned [v] at once. *)
Definition returned (f : fn) (v : value) (log : list event) (w : World)
  : World :=
  {| ctrl := ctrl w; workspace := workspace w;
     promises := promises w ++
                 [{| made_by := FromAsync f; settled := Settled (Fulfilled v) |}];
     tasks := tasks w; registered := registered w;
     trace := trace w ++ log |}.

(** ** Well-formed worlds

    Every suspended task resumes a frame of the function whose call
    returned the promise the task owns; at most one spawn attempt is
    waiting for the worker, and while it waits the memoized promise is
    pending and the service is not started; the memoized service promise
    is the one of [spawnAndBindService], and it is fulfilled exactly when
    the service is started; the cache and the path being indexed are set
    only after that; and the functions whose awaits all sit inside
    [try]/[catch] never reject. *)

Definition fn_of (k : frame) : fn :=
  match k with
  | start_service | start_load => f_start
  | setAccessToken_service _ => f_setAccessToken
  | spawnAndBindService_spawn => f_spawnAndBindService
  | done_load _ => f_done
  | index_service _ | index_request _ => f_index
  | load_service => f_load_closure
  | load_return => f_load
  | eagerlyLoad_service _ | eagerlyLoad_request _ => f_eagerlyLoad
  | query_service _ | query_return => f_query
  | getContext_query => f_getContext
  end.

(** Can a call of [f] reject?  Not when every await is inside a try whose
    catch returns. *)
Definition throws (f : fn) : bool :=
  match f with
  | f_index | f_load_closure | f_getContext => false
  | _ => true
  end.

Definition maker (w : World) (p : pid) : option origin :=
  made_by <$> promises w !! p.

Definition is_spawn_frame (k : frame) : bool :=
  match k with
  | spawnAndBindService_spawn => true
  | _ => false
  end.

(** How many suspended tasks are spawn attempts waiting for the worker. *)
Definition spawning (ts : list task) : nat :=
  length (List.filter (fun t => is_spawn_frame (resumes t)) ts).

Definition frame_ok (w : World) (t : task) : Prop :=
  match resumes t with
  | spawnAndBindService_spawn =>
      service (ctrl w) = Some (owner t) /\
      promise w (owner t) = Some Pending /\
      serviceStarted (ctrl w) = false
  | eagerlyLoad_service _ | index_service _ =>
      service (ctrl w) = Some (awaits t)
  | eagerlyLoad_request _ | index_request _ =>
      serviceStarted (ctrl w) = true
  | _ => True
  end.

Definition task_ok (w : World) (t : task) : Prop :=
  maker w (owner t) = Some (FromAsync (fn_of (resumes t))) /\ frame_ok w t.

Record wf (w : World) : Prop := {
  wf_tasks : Forall (task_ok w) (tasks w);
  wf_one_spawn : spawning (tasks w) <= 1;
  wf_service : forall sp, service (ctrl w) = Some sp ->
    maker w sp = Some (FromAsync f_spawnAndBindService) /\
    (forall v, promise w sp = Some (Settled (Fulfilled v)) ->
               serviceStarted (ctrl w) = true);
  wf_started : serviceStarted (ctrl w) = true ->
    exists sp v, service (ctrl w) = Some sp /\
                 promise w sp = Some (Settled (Fulfilled v));
  wf_lastRepo : lastRepo (ctrl w) <> None -> serviceStarted (ctrl w) = true;
  wf_indexing : pathBeingIndexed (ctrl w) <> None ->
                serviceStarted (ctrl w) = true;
  wf_caught : forall p f e, maker w p = Some (FromAsync f) ->
    promise w p = Some (Settled (Rejected e)) -> throws f = true
}.

(** Facts that, once true, stay true whatever runs next. *)
Inductive fact :=
| Made (p : pid) (o : origin)
| ServiceIs (p : pid)
| Started.

Definition holds (w : World) (f : fact) : Prop :=
  match f with
  | Made p o => maker w p = Some o
  | ServiceIs p => service (ctrl w) = Some p
  | Started => serviceStarted (ctrl w) = true
  end.

Definition Inv (fs : list fact) (w : World) : Prop :=
  wf w /\ Forall (holds w) fs.

(** Going from [w] to [w'] keeps what was made, the session fields, and
    the state of every promise of [spawnAndBindService]. *)
Definition grows (w w' : World) : Prop :=
  (forall p o, maker w p = Some o -> maker w' p = Some o) /\
  service (ctrl w') = service (ctrl w) /\
  serviceStarted (ctrl w') = serviceStarted (ctrl w) /\
  (forall p, maker w p = Some (FromAsync f_spawnAndBindService) ->
             promise w' p = promise w p).

(** Hoare triples for the segments. *)
Definition triple {A} (P : World -> Prop) (m : M A) (Q : A -> World -> Prop)
  : Prop :=
  forall w, P w -> Q (fst (m w)) (snd (m w)).

(** What a segment of function [f] may end with, given the facts [fs]
    ([spawnAndBindService] is treated apart). *)
Definition outcome_ok (f : fn) (fs : list fact) (o : outcome) : Prop :=
  f <> f_spawnAndBindService /\
  match o with
  | Return _ => True
  | Throw _ => throws f = true
  | Await q k =>
      fn_of k = f /\
      match k with
      | eagerlyLoad_service _ | index_service _ => In (ServiceIs q) fs
      | eagerlyLoad_request _ | index_request _ => In Started fs
      | _ => True
      end
  end.

(** An assignment that leaves the session fields and the cache alone and
    does not start an indexing. *)
Definition benign (f : Controller -> Controller) : Prop :=
  forall c, service (f c) = service c /\
            serviceStarted (f c) = serviceStarted c /\
            lastRepo (f c) = lastRepo c /\
            (pathBeingIndexed (f c) = pathBeingIndexed c \/
             pathBeingIndexed (f c) = None).

(** Which facts a frame needs when it is resumed with [r]. *)
Definition needs_started (k : frame) (r : result) : bool :=
  match k, r with
  | eagerlyLoad_request _, Fulfilled _
  | eagerlyLoad_service _, Fulfilled _
  | index_request _, Fulfilled _
  | index_service _, Fulfilled _ => true
  | _, _ => false
  end.

(** ** Invariants of the indexing state *)

Definition indexes_real_path (t : task) : Prop :=
  match resumes t with
  | index_service p | index_request p => truthy p = true
  | _ => True
  end.

(** The progress indicator exists exactly while a path is being indexed,
    that path is never the empty string, and the progress handler is
    installed exactly when the service is started. *)
Definition tidy (w : World) : Prop :=
  (statusBar (ctrl w) = None <-> pathBeingIndexed (ctrl w) = None) /\
  registered w = serviceStarted (ctrl w) /\
  (forall p, pathBeingIndexed (ctrl w) = Some p -> truthy p = true) /\
  Forall indexes_real_path (tasks w).

(** ** Invariants of the session *)

(** One spawn exactly when an attempt is memoized. *)
Definition spawned_once (w : World) : Prop :=
  spawns w = match service (ctrl w) with
             | Some _ => 1
             | None => 0
             end.

(** [w'] is a later world than [w]: settled promises, the memoized
    attempt, the started flag and the trace so far are kept. *)
Definition later (w w' : World) : Prop :=
  (forall p o, maker w p = Some o -> maker w' p = Some o) /\
  (forall p r, promise w p = Some (Settled r) ->
               promise w' p = Some (Settled r)) /\
  (forall p, service (ctrl w) = Some p -> service (ctrl w') = Some p) /\
  (serviceStarted (ctrl w) = true -> serviceStarted (ctrl w') = true) /\
  (exists evs, trace w' = trace w ++ evs).

(** The session is bound: the memoized attempt has been fulfilled and
    the service is marked started. *)
Definition bound (w : World) (sp : pid) : Prop :=
  service (ctrl w) = Some sp /\
  serviceStarted (ctrl w) = true /\
  exists v, promises w !! sp =
    Some {| made_by := FromAsync f_spawnAndBindService;
            settled := Settled (Fulfilled v) |}.

(** The world after [load repoPath] went to the worker and was answered
    [b]: three promises were settled with [b] (the one of [load], the one
    of [eagerlyLoad], the reply), the cache holds the answer, and one
    request and one status event were added. *)
Definition loaded (repoPath : string) (b : bool) (w : World) : World :=
  let c := set_lastRepo (Some {| path := repoPath; loadResult := b |}) (ctrl w) in
  {| ctrl := c;
     workspace := workspace w;
     promises := promises w ++
       [{| made_by := FromAsync f_load;
           settled := Settled (Fulfilled (VBool b)) |};
        {| made_by := FromAsync f_eagerlyLoad;
           settled := Settled (Fulfilled (VBool b)) |};
        {| made_by := FromRequest Load (VString repoPath);
           settled := Settled (Fulfilled (VBool b)) |}];
     tasks := tasks w;
     registered := registered w;
     trace := trace w ++
       [EvRequest Load (VString repoPath) (length (promises w) + 2);
        EvStatusFired c] |}.

(** Does [setAccessToken serverEndpoint _] change the dotcom flag? *)
Definition flag_changes (serverEndpoint : string) (c : Controller) : bool :=
  negb (Bool.eqb (String.eqb serverEndpoint DOTCOM_URL) (endpointIsDotcom c)).

(** What [setAccessToken] logs and fires before it looks at the token. *)
Definition flag_events (serverEndpoint : string) (c : Controller)
  : list event :=
  [EvLog (if String.eqb serverEndpoint DOTCOM_URL
          then "setAccessToken is dotcom" else "setAccessToken not dotcom")]
  ++ (if flag_changes serverEndpoint c then
        EvStatusFired c ::
        (if serviceStarted c then [EvChangeFired c] else [])
      else []).

(** The world after [setAccessToken serverEndpoint t] stored a new token
    [t] and, the session being bound, sent it to the worker. *)
Definition token_forwarded (serverEndpoint t : string) (w : World) : World :=
  {| ctrl := set_accessToken (Some t)
               (set_endpointIsDotcom (String.eqb serverEndpoint DOTCOM_URL)
                                     (ctrl w));
     workspace := workspace w;
     promises := promises w ++
       [{| made_by := FromAsync f_setAccessToken;
           settled := Settled (Fulfilled VUndefined) |};
        {| made_by := FromRequest SetToken (VString t); settled := Pending |}];
     tasks := tasks w;
     registered := registered w;
     trace := trace w ++ flag_events serverEndpoint (ctrl w) ++
              [EvRequest SetToken (VString t) (length (promises w) + 1)] |}.

(** ** The worlds around a 'Done' notification *)

(** The indicator is gone and no indexing is outstanding. *)
Definition cleared (c : Controller) : Controller :=
  set_pathBeingIndexed None (set_statusBar None c).

(** What the handler itself adds to the trace on 'Done'. *)
Definition done_events (c : Controller) : list event :=
  [EvHideAfter sparkle 30000; EvStatusFired (cleared c)].

(** After 'Done' when line 129 does not ask for a reload. *)
Definition done_only (w : World) : World :=
  {| ctrl := cleared (ctrl w);
     workspace := workspace w;
     promises := promises w;
     tasks := tasks w;
     registered := registered w;
     trace := trace w ++ done_events (ctrl w) |}.

(** Right after the handler ran on 'Done' when line 129 asks for a reload
    of [p]: the closure and its [eagerlyLoad] are suspended. *)
Definition done_reloading (p : string) (sp : pid) (w : World) : World :=
  {| ctrl := cleared (ctrl w);
     workspace := workspace w;
     promises := promises w ++
       [{| made_by := FromAsync f_done; settled := Pending |};
        {| made_by := FromAsync f_eagerlyLoad; settled := Pending |}];
     tasks := tasks w ++
       [{| awaits := sp; resumes := eagerlyLoad_service p;
           owner := length (promises w) + 1 |};
        {| awaits := length (promises w) + 1; resumes := done_load p;
           owner := length (promises w) |}];
     registered := registered w;
     trace := trace w ++ done_events (ctrl w) |}.

(** After the reload of [p] was answered [b] and the closure ran on. *)
Definition done_reloaded (p : string) (b : bool) (w : World) : World :=
  let c := set_lastRepo (Some {| path := p; loadResult := b |})
                        (cleared (ctrl w)) in
  {| ctrl := c;
     workspace := workspace w;
     promises := promises w ++
       [{| made_by := FromAsync f_done;
           settled := Settled (Fulfilled VUndefined) |};
        {| made_by := FromAsync f_eagerlyLoad;
           settled := Settled (Fulfilled (VBool b)) |};
        {| made_by := FromRequest Load (VString p);
           settled := Settled (Fulfilled (VBool b)) |}];
     tasks := tasks w;
     registered := registered w;
     trace := trace w ++ done_events (ctrl w) ++
       [EvRequest Load (VString p) (length (promises w) + 2);
        EvStatusFired c;
        EvLog "load after indexing done";
        EvChangeFired c] |}.

(** ** Between 'Done' and the change event *)




(** ** Further worlds: starts, failures, queries and indexing runs *)

(** The world after an [async] call of [f] that ended by throwing [e]. *)
Definition threw (f : fn) (e : error) (log : list event) (w : World)
  : World :=
  {| ctrl := ctrl w; workspace := workspace w;
     promises := promises w ++
                 [{| made_by := FromAsync f; settled := Settled (Rejected e) |}];
     tasks := tasks w; registered := registered w;
     trace := trace w ++ log |}.

(** The world after the first [start] whose spawn failed with [e]: the
    attempt is memoized and rejected, and so is the promise of [start].
    [captured] tells which of the two ways of lines 94-99 reported the
    failure: the promise of [spawnBfg] rejecting (captured), or the
    [reject] callback handed to it (not captured). *)
Definition start_failed (e : error) (captured : bool) (w : World) : World :=
  {| ctrl := set_service (Some (length (promises w) + 1)) (ctrl w);
     workspace := workspace w;
     promises := promises w ++
       [{| made_by := FromAsync f_start; settled := Settled (Rejected e) |};
        {| made_by := FromAsync f_spawnAndBindService;
           settled := Settled (Rejected e) |};
        {| made_by := FromSpawn; settled := Settled (Rejected e) |}];
     tasks := tasks w;
     registered := registered w;
     trace := trace w ++ [EvLog "start"; EvSpawnBfg] ++
              (if captured then [EvCapture e] else []) |}.

(** What the segment that binds the service (lines 102-160) adds to the
    trace, the controller being [c] when it starts and [reply] the next
    free promise. *)
Definition bind_events (c : Controller) (reply : pid) : list event :=
  [EvRegisterNotification; EvLog "spawnAndBindService service started"] ++
  match token_or_undefined (accessToken c) with
  | Some t => [EvRequest SetToken (VString t) reply]
  | None => []
  end ++
  [EvChangeFired (set_serviceStarted true c)].

(** The world after [start] on a bound session loaded the workspace
    folder [f] and the worker answered [b]. *)
Definition workspace_loaded (f : string) (b : bool) (w : World) : World :=
  let c := set_lastRepo (Some {| path := f; loadResult := b |}) (ctrl w) in
  {| ctrl := c;
     workspace := workspace w;
     promises := promises w ++
       [{| made_by := FromAsync f_start;
           settled := Settled (Fulfilled VUndefined) |};
        {| made_by := FromAsync f_eagerlyLoad;
           settled := Settled (Fulfilled (VBool b)) |};
        {| made_by := FromRequest Load (VString f);
           settled := Settled (Fulfilled (VBool b)) |}];
     tasks := tasks w;
     registered := registered w;
     trace := trace w ++
       [EvLog "start";
        EvRequest Load (VString f) (length (promises w) + 2);
        EvStatusFired c] |}.

(** The status bar item of lines 246-250, as created. *)
Definition fresh_indicator : StatusBarItem :=
  {| text := BarEmpty; warningBackground := false; visible := false |}.

(** The parameter of 'embeddings/index' (line 243). *)
Definition index_params (p : string) : value := VIndexParams p model 1536.

(** The world after [index] sent its request for [p] and the worker
    acknowledged with [v]. *)
Definition index_started (p : string) (v : value) (w : World) : World :=
  let c := set_statusBar (Some fresh_indicator)
             (set_pathBeingIndexed (Some p) (ctrl w)) in
  {| ctrl := c;
     workspace := workspace w;
     promises := promises w ++
       [{| made_by := FromAsync f_index;
           settled := Settled (Fulfilled VUndefined) |};
        {| made_by := FromRequest Index (index_params p);
           settled := Settled (Fulfilled v) |}];
     tasks := tasks w;
     registered := registered w;
     trace := trace w ++
       [EvLog "index: Starting repository";
        EvRequest Index (index_params p) (length (promises w) + 1)] ++
       match statusBar (ctrl w) with
       | Some _ => [EvBarDisposed]
       | None => []
       end ++
       [EvStatusFired c] |}.

(** The world after [index] sent its request for [p] and the worker
    rejected it with [e]. *)
Definition index_failed (p : string) (e : error) (w : World) : World :=
  {| ctrl := ctrl w;
     workspace := workspace w;
     promises := promises w ++
       [{| made_by := FromAsync f_index;
           settled := Settled (Fulfilled VUndefined) |};
        {| made_by := FromRequest Index (index_params p);
           settled := Settled (Rejected e) |}];
     tasks := tasks w;
     registered := registered w;
     trace := trace w ++
       [EvLog "index: Starting repository";
        EvRequest Index (index_params p) (length (promises w) + 1);
        EvCapture e; EvLog "index failed"] |}.

(** The world after [getContext q _] on dotcom, the worker having
    answered the query with [r]: [got] is what [getContext] returned and
    [log] what it added to the trace after the request. *)
Definition context_answered (q : string) (r : result)
           (got : list EmbeddingsSearchResult) (log : list event) (w : World)
  : World :=
  {| ctrl := ctrl w;
     workspace := workspace w;
     promises := promises w ++
       [{| made_by := FromAsync f_getContext;
           settled := Settled (Fulfilled (VArray got)) |};
        {| made_by := FromAsync f_query; settled := Settled r |};
        {| made_by := FromRequest Query (VString q); settled := Settled r |}];
     tasks := tasks w;
     registered := registered w;
     trace := trace w ++
       [EvRequest Query (VString q) (length (promises w) + 2)] ++ log |}.

(** The worker answered the matches [results]. *)
Definition context_found (q : string) (results : list EmbeddingsSearchResult)
  : World -> World :=
  context_answered q (Fulfilled (VResultSet results)) results
                   [EvLog "returning results"].

(** The worker rejected the query with [e]. *)
Definition context_failed (q : string) (e : error) : World -> World :=
  context_answered q (Rejected e) []
                   [EvCapture e; EvLog "getContext failed"].

(** ** Speaking to the worker *)

Definition is_any_request (e : event) : bool :=
  match e with
  | EvRequest _ _ _ => true
  | _ => false
  end.

(** How many requests, of any method, went to the worker. *)
Definition contacted (tr : list event) : nat :=
  length (List.filter is_any_request tr).

(** The frames that send a request as soon as the service they wait for
    is there (lines 81, 243, 289 and 299). *)
Definition asks_service (k : frame) : bool :=
  match k with
  | setAccessToken_service _ | index_service _
  | eagerlyLoad_service _ | query_service _ => true
  | _ => false
  end.

(** Every task suspended at such a frame waits for the memoized attempt
    (and [sv], when given, is that attempt). *)
Definition waits_for_service (sv : option pid) (w : World) : Prop :=
  Forall (fun t => asks_service (resumes t) = true ->
                   service (ctrl w) = Some (awaits t)) (tasks w) /\
  match sv with
  | Some p => service (ctrl w) = Some p
  | None => True
  end.

(** Does the segment that resumes [k] with [r] send a request? *)
Definition sends (k : frame) (r : result) : bool :=
  match k, r with
  | spawnAndBindService_spawn, Fulfilled _ => true
  | _, Fulfilled _ => asks_service k
  | _, Rejected _ => false
  end.

(** ** Runs of one operation, scheduled to its end *)

(** [load p], its tasks resumed, the worker answering [b]. *)
Definition load_run (p : string) (b : bool) (w : World) : list label :=
  let n := length (promises w) in
  let k := length (tasks w) in
  [L_load (Some p); L_resume k;
   L_settle (n + 2) (Fulfilled (VBool b));
   L_resume (k + 1); L_resume k].

(** [index], its task resumed, the worker acknowledging with [v]. *)
Definition index_run (v : value) (w : World) : list label :=
  let n := length (promises w) in
  let k := length (tasks w) in
  [L_index; L_resume k; L_settle (n + 1) (Fulfilled v); L_resume k].

(** 'Done', the reload it starts, the worker answering [b]. *)
Definition done_run (b : bool) (w : World) : list label :=
  let n := length (promises w) in
  let k := length (tasks w) in
  [L_notify NDone; L_resume k;
   L_settle (n + 2) (Fulfilled (VBool b));
   L_resume (k + 1); L_resume k].

(** The one-group answer of the status getter. *)
Definition reports (p : string) (s : ProviderState)
  : getter (list ContextGroup) :=
  Got [ {| name := p; providers := [local_embeddings s] |} ].

(** ** Two overlapping loads *)

(** The world after two calls of [load p] were made before the worker
    answered either, the first being answered [b1] and then the second
    [b2]. *)
Definition loaded_twice (p : string) (b1 b2 : bool) (w : World) : World :=
  let c1 := set_lastRepo (Some {| path := p; loadResult := b1 |}) (ctrl w) in
  let c2 := set_lastRepo (Some {| path := p; loadResult := b2 |}) (ctrl w) in
  {| ctrl := c2;
     workspace := workspace w;
     promises := promises w ++
       [{| made_by := FromAsync f_load;
           settled := Settled (Fulfilled (VBool b1)) |};
        {| made_by := FromAsync f_eagerlyLoad;
           settled := Settled (Fulfilled (VBool b1)) |};
        {| made_by := FromAsync f_load;
           settled := Settled (Fulfilled (VBool b2)) |};
        {| made_by := FromAsync f_eagerlyLoad;
           settled := Settled (Fulfilled (VBool b2)) |};
        {| made_by := FromRequest Load (VString p);
           settled := Settled (Fulfilled (VBool b1)) |};
        {| made_by := FromRequest Load (VString p);
           settled := Settled (Fulfilled (VBool b2)) |}];
     tasks := tasks w;
     registered := registered w;
     trace := trace w ++
       [EvRequest Load (VString p) (length (promises w) + 4);
        EvRequest Load (VString p) (length (promises w) + 5);
        EvStatusFired c1;
        EvStatusFired c2] |}.

(** The two calls, both requests sent, then the answers in order. *)
Definition overlapping_loads (p : string) (b1 b2 : bool) (w : World)
  : list label :=
  let n := length (promises w) in
  let k := length (tasks w) in
  [L_load (Some p); L_load (Some p); L_resume k; L_resume (k + 1);
   L_settle (n + 4) (Fulfilled (VBool b1)); L_resume (k + 2); L_resume k;
   L_settle (n + 5) (Fulfilled (VBool b2)); L_resume (k + 1); L_resume k].

(** ** Notifications during an indexing *)

(** The indicator after a notification that is not 'Done' (lines
    109-118): a progress text without warning, or the warning. *)
Definition indicator_after (obj : notification) (bar : StatusBarItem)
  : StatusBarItem :=
  match obj with
  | NProgress numItems totalItems =>
      {| text := BarLoading numItems totalItems;
         warningBackground := false; visible := true |}
  | NError _ =>
      {| text := BarWarning; warningBackground := true; visible := true |}
  | _ => bar
  end.

(** What such a notification adds to the trace (lines 142-143). *)
Definition notification_log (obj : notification) : list event :=
  match obj with
  | NOther json => [EvLog json; EvInfoMessage json]
  | _ => []
  end.

(** The world with another indicator and more trace, all else equal. *)
Definition with_indicator (bar : StatusBarItem) (log : list event) (w : World)
  : World :=
  {| ctrl := set_statusBar (Some bar) (ctrl w);
     workspace := workspace w;
     promises := promises w;
     tasks := tasks w;
     registered := registered w;
     trace := trace w ++ log |}.

(** ** When the worker rejects a load *)

(** The world after [load p] went to the worker and was rejected with
    [e]: the cache is as before. *)
Definition load_failed (p : string) (e : error) (w : World) : World :=
  {| ctrl := ctrl w;
     workspace := workspace w;
     promises := promises w ++
       [{| made_by := FromAsync f_load; settled := Settled (Rejected e) |};
        {| made_by := FromAsync f_eagerlyLoad;
           settled := Settled (Rejected e) |};
        {| made_by := FromRequest Load (VString p);
           settled := Settled (Rejected e) |}];
     tasks := tasks w;
     registered := registered w;
     trace := trace w ++
       [EvRequest Load (VString p) (length (promises w) + 2)] |}.

(** [load p], its tasks resumed, the worker rejecting with [e]. *)
Definition failing_load_run (p : string) (e : error) (w : World)
  : list label :=
  let n := length (promises w) in
  let k := length (tasks w) in
  [L_load (Some p); L_resume k;
   L_settle (n + 2) (Rejected e);
   L_resume (k + 1); L_resume k].

(** The world after 'Done' asked for a reload of [p] and the worker
    rejected it with [e]. *)
Definition done_reload_failed (p : string) (e : error) (w : World) : World :=
  {| ctrl := cleared (ctrl w);
     workspace := workspace w;
     promises := promises w ++
       [{| made_by := FromAsync f_done; settled := Settled (Rejected e) |};
        {| made_by := FromAsync f_eagerlyLoad;
           settled := Settled (Rejected e) |};
        {| made_by := FromRequest Load (VString p);
           settled := Settled (Rejected e) |}];
     tasks := tasks w;
     registered := registered w;
     trace := trace w ++ done_events (ctrl w) ++
       [EvRequest Load (VString p) (length (promises w) + 2)] |}.

(** 'Done', the reload it starts, the worker rejecting with [e]. *)
Definition failing_done_run (e : error) (w : World) : list label :=
  let n := length (promises w) in
  let k := length (tasks w) in
  [L_notify NDone; L_resume k;
   L_settle (n + 2) (Rejected e);
   L_resume (k + 1); L_resume k].

Definition is_change_fired (e : event) : bool :=
  match e with
  | EvChangeFired _ => true
  | _ => false
  end.

(** How many change events were fired. *)
Definition change_fired (tr : list event) : nat :=
  length (List.filter is_change_fired tr).

(** ** The first query of a session *)

(** [query q] when no worker was asked for yet: the spawner hands over
    the worker, the session is bound, the query is sent and answered. *)
Definition first_query_run (q : string) (results : list EmbeddingsSearchResult)
           (w : World) : list label :=
  let n := length (promises w) in
  let k := length (tasks w) in
  [L_query q; L_settle (n + 2) (Fulfilled VService); L_resume k; L_resume k;
   L_settle (n + 4) (Fulfilled (VResultSet results)); L_resume k].

(** The world after that run, [t] being the held token. *)
Definition first_query_done (q t : string)
           (results : list EmbeddingsSearchResult) (w : World) : World :=
  let n := length (promises w) in
  let c := set_serviceStarted true (set_service (Some (n + 1)) (ctrl w)) in
  {| ctrl := c;
     workspace := workspace w;
     promises := promises w ++
       [{| made_by := FromAsync f_query;
           settled := Settled (Fulfilled (VResultSet results)) |};
        {| made_by := FromAsync f_spawnAndBindService;
           settled := Settled (Fulfilled VService) |};
        {| made_by := FromSpawn; settled := Settled (Fulfilled VService) |};
        {| made_by := FromRequest SetToken (VString t); settled := Pending |};
        {| made_by := FromRequest Query (VString q);
           settled := Settled (Fulfilled (VResultSet results)) |}];
     tasks := tasks w;
     registered := true;
     trace := trace w ++
       [EvSpawnBfg; EvRegisterNotification;
        EvLog "spawnAndBindService service started";
        EvRequest SetToken (VString t) (n + 3);
        EvChangeFired c;
        EvRequest Query (VString q) (n + 4)] |}.

(** ** Who hears the change event *)

(** Every change event fired so far was fired with the service
    started. *)
Definition heard (w : World) : Prop :=
  forall c, In (EvChangeFired c) (trace w) -> serviceStarted c = true.

(** The same, in a segment that runs with the service started ([b]). *)
Definition hears (b : bool) (w : World) : Prop :=
  (b = true -> serviceStarted (ctrl w) = true) /\ heard w.

Definition is_done_load (k : frame) : bool :=
  match k with
  | done_load _ => true
  | _ => false
  end.

(** The closures started on 'Done' only exist once the service is
    started. *)
Definition reload_waits (b : bool) (w : World) : Prop :=
  (b = true -> serviceStarted (ctrl w) = true) /\
  Forall (fun t => is_done_load (resumes t) = true ->
                   serviceStarted (ctrl w) = true) (tasks w).

(** ** Off dotcom *)

(** The world after [getContext] ran to its end off dotcom. *)
Definition context_off_dotcom (w : World) : World :=
  {| ctrl := ctrl w;
     workspace := workspace w;
     promises := promises w ++
       [{| made_by := FromAsync f_getContext;
           settled := Settled (Fulfilled (VArray [])) |};
        {| made_by := FromAsync f_query;
           settled := Settled (Fulfilled (VResultSet [])) |}];
     tasks := tasks w;
     registered := registered w;
     trace := trace w ++ [EvLog "returning results"] |}.

End LocalEmbeddingsController.
(** ** Concrete runs on sourcegraph.com *)

Definition sourcegraph : Dotcom := "https://sourcegraph.com/".

(** The world a run from [init] ends in. *)
Definition after (ls : list label) : World :=
  match exec (dotcom := sourcegraph) ls init with
  | Some w => w
  | None => init
  end.

(** Signing in on dotcom with token "abc". *)
Definition sign_in : list label :=
  [L_setAccessToken sourcegraph (Some "abc")].

(** Signing in, then [start] with no workspace open: the spawner hands
    over the worker (promise 3) and the two suspended tasks run on. *)
Definition boot : list label :=
  sign_in ++
  [L_start; L_settle 3 (Fulfilled VService); L_resume 0; L_resume 0].

(** [load "/repo"], answered [b] by the worker (promise 7). *)
Definition load_repo (b : bool) : list label :=
  [L_load (Some "/repo"); L_resume 0; L_settle 7 (Fulfilled (VBool b));
   L_resume 1; L_resume 0].

(** [index], acknowledged by the worker (promise 9). *)
Definition index_repo : list label :=
  [L_index; L_resume 0; L_settle 9 (Fulfilled VUndefined); L_resume 0].

(** 'Done' arrives and the reload is sent (promise 12); before it is
    answered the user starts indexing again and the worker acknowledges
    (promise 14); then the reload is answered true and the closure of the
    first completion fires its change event. *)
Definition reindex_during_reload : list label :=
  [L_notify NDone; L_resume 0;
   L_index; L_resume 2; L_settle 14 (Fulfilled VUndefined); L_resume 2;
   L_settle 12 (Fulfilled (VBool true)); L_resume 1].


Definition signed_in : World := Eval vm_compute in after sign_in.

Definition booted : World := Eval vm_compute in after boot.

Definition not_indexed : World :=
  Eval vm_compute in after (boot ++ load_repo false).

Definition ready_repo : World :=
  Eval vm_compute in after (boot ++ load_repo true).

Definition indexing_repo : World :=
  Eval vm_compute in after (boot ++ load_repo false ++ index_repo).

Definition reloaded_while_indexing : World :=
  Eval vm_compute in
    after (boot ++ load_repo false ++ index_repo ++ reindex_during_reload).








(** ** Further runs on sourcegraph.com *)

Definition spawn_failure : error := Error "spawn cody-engine ENOENT".

(** Signing in, then [start]; the spawner is about to answer. *)
Definition spawning_worker : list label := sign_in ++ [L_start].

(** The spawn fails and the two suspended tasks run on. *)
Definition failed_boot : list label :=
  spawning_worker ++
  [L_spawn_failed 3 spawn_failure; L_resume 0; L_resume 0].

Definition spawn_failed : World := Eval vm_compute in after failed_boot.

(** The spawner has handed over the worker; the binding segment has not
    run yet. *)
Definition worker_there : World :=
  Eval vm_compute in
    after (spawning_worker ++ [L_settle 3 (Fulfilled VService)]).

(** The session is bound and the host has opened the folder "/ws". *)
Definition in_workspace : World :=
  Eval vm_compute in after (boot ++ [L_workspace (FirstFolder "/ws")]).

(** The session is bound and the workspace has an empty list of
    folders. *)
Definition without_folders : World :=
  Eval vm_compute in after (boot ++ [L_workspace NoFolders]).

(** * Verification *)

Section Verification.

Context {dotcom : Dotcom}.

(** ** The promise store *)

Lemma settle_last (l : list cell) (c : cell) (r : result) :
  match (l ++ [c]) !! length l with
  | Some c0 => <[length l := settle_cell r c0]> (l ++ [c])
  | None => l ++ [c]
  end = l ++ [settle_cell r c].
Proof.
  rewrite list_lookup_middle by reflexivity.
  rewrite insert_app_r_alt by lia.
  now rewrite Nat.sub_diag.
Qed.

Lemma truthy_nonempty (s : string) : truthy s = true <-> s <> "".
Proof.
  unfold truthy. rewrite negb_true_iff. apply String.eqb_neq.
Qed.

Lemma or_else_truthy (s b : string) : s <> "" -> or_else (Some s) b = s.
Proof.
  intros H. unfold or_else. apply truthy_nonempty in H. now rewrite H.
Qed.

Ltac unfold_ops :=
  unfold async, request, finish, settle, park, new_promise, fire_status,
    fire_change, logDebug, captureException, emit, assign, this,
    workspaceFolder, registerNotification, bind, ret, run in *.

(** ** C5: the status getter *)


(** ** C6: the guard of [index] *)

Lemma can_index_None (c : Controller) :
  endpointIsDotcom c = false \/ lastRepo c = None \/
  (exists repo, lastRepo c = Some repo /\ loadResult repo = true) ->
  can_index c = None.
Proof.
  unfold can_index. intros [H | [H | [repo [H1 H2]]]].
  - rewrite H. now destruct (lastRepo c).
  - now rewrite H.
  - rewrite H1, H2. cbn. now rewrite andb_false_r.
Qed.

(** C6. Unless the backend is dotcom, a repository is cached and its
    cached load result is false, [index] only logs and returns: the
    controller is unchanged, nothing is suspended and no request is sent.
    In particular nothing is sent when the cached load result is true. *)
Theorem index_is_noop_unless_unindexed (w : World) :
  endpointIsDotcom (ctrl w) = false \/ lastRepo (ctrl w) = None \/
  (exists repo, lastRepo (ctrl w) = Some repo /\ loadResult repo = true) ->
  index w =
    (length (promises w),
     returned f_index VUndefined
       [EvLog "index: No repository to index/already indexed"] w) /\
  requests Index (trace (run index w)) = requests Index (trace w).
Proof.
  intros H. apply can_index_None in H.
  assert (E : index w =
    (length (promises w),
     returned f_index VUndefined
       [EvLog "index: No repository to index/already indexed"] w)).
  { unfold index. unfold_ops. cbn. rewrite H. cbn.
    rewrite settle_last. reflexivity. }
  split; [exact E|].
  unfold run. rewrite E. cbn. unfold requests.
  rewrite List.filter_app, length_app. cbn. lia.
Qed.

(** ** C10: [query] off dotcom *)

(** C10. When the backend is not dotcom, [query] returns the empty result
    set at once: no request is sent, no process is spawned, nothing is
    suspended and the controller is unchanged. *)
Theorem query_not_dotcom (q : string) (w : World) :
  endpointIsDotcom (ctrl w) = false ->
  query q w = (length (promises w), returned f_query (VResultSet []) [] w).
Proof.
  intros H. unfold query, returned. unfold_ops. cbn. rewrite H. cbn.
  rewrite settle_last, app_nil_r. reflexivity.
Qed.

(** ** Store lemmas: how the primitives change what is observed *)

Lemma lookup_snoc_cases (l : list cell) (c : cell) (p : nat) :
  (l ++ [c]) !! p = if decide (p = length l) then Some c else l !! p.
Proof.
  destruct (decide (p = length l)) as [->|Hne].
  - now apply list_lookup_middle.
  - destruct (Nat.lt_ge_cases p (length l)) as [Hlt|Hge].
    + now apply lookup_app_l.
    + rewrite (lookup_ge_None_2 l p) by lia.
      apply lookup_ge_None_2. rewrite length_app. cbn. lia.
Qed.

Lemma lookup_settle (l : list cell) (q p : nat) (r : result) :
  match l !! q with
  | Some c => <[q := settle_cell r c]> l
  | None => l
  end !! p
  = if decide (p = q) then settle_cell r <$> l !! p else l !! p.
Proof.
  destruct (decide (p = q)) as [->|Hne].
  - destruct (l !! q) as [c|] eqn:E.
    + rewrite list_lookup_insert_eq; [reflexivity|].
      now apply lookup_lt_Some in E.
    + now rewrite E.
  - destruct (l !! q); [|reflexivity].
    apply list_lookup_insert_ne. congruence.
Qed.

Lemma maker_new_promise o w p :
  maker (snd (new_promise o w)) p =
  if decide (p = length (promises w)) then Some o else maker w p.
Proof.
  unfold maker, new_promise. cbn. rewrite lookup_snoc_cases.
  now destruct (decide _).
Qed.

Lemma promise_new_promise o w p :
  promise (snd (new_promise o w)) p =
  if decide (p = length (promises w)) then Some Pending else promise w p.
Proof.
  unfold promise, new_promise. cbn. rewrite lookup_snoc_cases.
  now destruct (decide _).
Qed.

Lemma maker_fresh w p o : maker w p = Some o -> p <> length (promises w).
Proof.
  unfold maker. intros H ->.
  rewrite (lookup_ge_None_2 (promises w)) in H by lia. discriminate.
Qed.

Lemma promise_fresh w p s : promise w p = Some s -> p <> length (promises w).
Proof.
  unfold promise. intros H ->.
  rewrite (lookup_ge_None_2 (promises w)) in H by lia. discriminate.
Qed.

Lemma maker_settle q r w p : maker (snd (settle q r w)) p = maker w p.
Proof.
  unfold maker, settle. cbn. rewrite lookup_settle.
  destruct (decide _); [|reflexivity].
  destruct (promises w !! p) as [c|]; [|reflexivity].
  cbn. unfold settle_cell. now destruct (settled c).
Qed.

Lemma promise_settle q r w p :
  promise (snd (settle q r w)) p =
  if decide (p = q) then
    match promise w p with
    | Some Pending => Some (Settled r)
    | s => s
    end
  else promise w p.
Proof.
  unfold promise, settle. cbn. rewrite lookup_settle.
  destruct (decide _); [|reflexivity].
  destruct (promises w !! p) as [c|]; [|reflexivity].
  cbn. unfold settle_cell. destruct c as [o [|r0]]; reflexivity.
Qed.

Lemma lookup_past (l rest : list cell) (i : nat) :
  (l ++ rest) !! (length l + i) = rest !! i.
Proof.
  rewrite lookup_app_r by lia. f_equal. lia.
Qed.

Lemma lookup_here (l rest : list cell) : (l ++ rest) !! length l = rest !! 0.
Proof. rewrite <- (Nat.add_0_r (length l)) at 1. apply lookup_past. Qed.

Lemma lookup_before (l rest : list cell) (p : nat) (c : cell) :
  l !! p = Some c -> (l ++ rest) !! p = Some c.
Proof. intros H. rewrite lookup_app_l; [exact H|]. now apply lookup_lt_Some in H. Qed.

Lemma insert_past (l rest : list cell) (i : nat) (x : cell) :
  <[length l + i := x]> (l ++ rest) = l ++ <[i := x]> rest.
Proof. apply insert_app_r. Qed.

Lemma insert_here (l rest : list cell) (x : cell) :
  <[length l := x]> (l ++ rest) = l ++ <[0 := x]> rest.
Proof. rewrite <- (Nat.add_0_r (length l)) at 1. apply insert_past. Qed.

Lemma insert_before (l rest : list cell) (p : nat) (x : cell) :
  p < length l -> <[p := x]> (l ++ rest) = <[p := x]> l ++ rest.
Proof. intros H. now apply insert_app_l. Qed.

Lemma task_past (l rest : list task) (i : nat) :
  (l ++ rest) !! (length l + i) = rest !! i.
Proof. rewrite lookup_app_r by lia. f_equal. lia. Qed.

Lemma task_here (l rest : list task) : (l ++ rest) !! length l = rest !! 0.
Proof. rewrite <- (Nat.add_0_r (length l)) at 1. apply task_past. Qed.

Lemma delete_past (l rest : list task) (i : nat) :
  delete (length l + i) (l ++ rest) = l ++ delete i rest.
Proof.
  induction l as [|x l IH]; [reflexivity|].
  change (x :: delete (length l + i) (l ++ rest) = x :: l ++ delete i rest).
  now f_equal.
Qed.

Lemma delete_here (l rest : list task) :
  delete (length l) (l ++ rest) = l ++ delete 0 rest.
Proof. rewrite <- (Nat.add_0_r (length l)) at 1. apply delete_past. Qed.

(** Bring an explicit world into normal form. *)
Ltac store :=
  repeat first
    [ progress (rewrite <- !app_assoc)
    | progress (rewrite !length_app)
    | progress (rewrite <- !Nat.add_assoc)
    | rewrite lookup_past
    | rewrite lookup_here
    | rewrite insert_past
    | rewrite insert_here
    | rewrite task_past
    | rewrite task_here
    | rewrite delete_past
    | rewrite delete_here
    | progress cbn ].

(** ** The rules of the triples *)

Lemma triple_bind {A B} (P : World -> Prop) (m : M A) (Q : A -> World -> Prop)
      (k : A -> M B) (R : B -> World -> Prop) :
  triple P m Q -> (forall a, triple (Q a) (k a) R) -> triple P (bind m k) R.
Proof.
  unfold triple, bind. intros Hm Hk w HP. specialize (Hm w HP).
  destruct (m w) as [a w1]. cbn in Hm. now apply Hk.
Qed.

Lemma triple_assoc {A B C} (P : World -> Prop) (m : M A) (f : A -> M B)
      (g : B -> M C) (R : C -> World -> Prop) :
  triple P (bind m (fun x => bind (f x) g)) R -> triple P (bind (bind m f) g) R.
Proof.
  unfold triple, bind. intros H w HP. specialize (H w HP).
  destruct (m w) as [a w1]. destruct (f a w1) as [b w2]. exact H.
Qed.

Lemma triple_ret_bind {A B} (P : World -> Prop) (a : A) (k : A -> M B)
      (R : B -> World -> Prop) :
  triple P (k a) R -> triple P (bind (ret a) k) R.
Proof. unfold triple, bind, ret. intros H w HP. now apply H. Qed.

Lemma triple_ret {A} (P : World -> Prop) (a : A) (Q : A -> World -> Prop) :
  (forall w, P w -> Q a w) -> triple P (ret a) Q.
Proof. unfold triple, ret. intros H w HP. now apply H. Qed.

Lemma triple_this {B} (P : World -> Prop) (k : Controller -> M B)
      (R : B -> World -> Prop) :
  (forall c, triple (fun w => P w /\ ctrl w = c) (k c) R) ->
  triple P (bind this k) R.
Proof.
  unfold triple, bind, this. intros H w HP. now apply (H (ctrl w)).
Qed.

Lemma triple_pre {A} (P P' : World -> Prop) (m : M A) (Q : A -> World -> Prop) :
  (forall w, P w -> P' w) -> triple P' m Q -> triple P m Q.
Proof. unfold triple. intros HPP H w HP. apply H. now apply HPP. Qed.

(** ** Well-formedness is kept by every primitive *)

Lemma Inv_weaken fs fs' w : (forall x, In x fs -> In x fs') -> Inv fs' w -> Inv fs w.
Proof.
  intros Hin [Hwf Hfs]. split; [exact Hwf|].
  rewrite Forall_forall in *. intros x Hx. apply Hfs.
  apply list_elem_of_In. apply Hin. now apply list_elem_of_In.
Qed.

Lemma Inv_holds fs w x : Inv fs w -> In x fs -> holds w x.
Proof.
  intros [_ Hfs] Hin. rewrite Forall_forall in Hfs. apply Hfs.
  now apply list_elem_of_In.
Qed.

Lemma holds_grows w w' x : grows w w' -> holds w x -> holds w' x.
Proof.
  intros (Hm & Hs & Hst & _). destruct x; cbn; auto; congruence.
Qed.

Lemma facts_grow w w' fs :
  grows w w' -> Forall (holds w) fs -> Forall (holds w') fs.
Proof.
  intros Hg H. eapply Forall_impl; [exact H|].
  intros x. now apply holds_grows.
Qed.

Lemma task_ok_grows w w' t : grows w w' -> task_ok w t -> task_ok w' t.
Proof.
  intros (Hm & Hs & Hst & Hp) [H1 H2]. split; [now apply Hm|].
  unfold frame_ok in *. destruct (resumes t); cbn in *; auto; try congruence.
  destruct H2 as (A & B & C). repeat split; try congruence.
  now rewrite (Hp _ H1).
Qed.

Arguments spawning : simpl never.

(** One lemma for all primitives: what is left to check once the world
    has grown. *)
Lemma Inv_step fs w w' :
  grows w w' ->
  spawning (tasks w') <= spawning (tasks w) ->
  (Forall (task_ok w') (tasks w) -> Forall (task_ok w') (tasks w')) ->
  (lastRepo (ctrl w') <> None ->
   lastRepo (ctrl w) <> None \/ serviceStarted (ctrl w') = true) ->
  (pathBeingIndexed (ctrl w') <> None ->
   pathBeingIndexed (ctrl w) <> None \/ serviceStarted (ctrl w') = true) ->
  (forall p f e, maker w' p = Some (FromAsync f) ->
     promise w' p = Some (Settled (Rejected e)) ->
     (maker w p = Some (FromAsync f) /\
      promise w p = Some (Settled (Rejected e))) \/ throws f = true) ->
  Inv fs w -> Inv fs w'.
Proof.
  intros Hg Hsp Ht Hl Hi Hc [Hwf Hfs].
  split; [|now apply (facts_grow w)].
  pose proof Hg as (Hm & Hs & Hst & Hp).
  destruct Hwf as [W1 W1' W2 W2' W3 W3' W4]. split.
  - apply Ht. eapply Forall_impl; [exact W1|].
    intros t. now apply task_ok_grows.
  - lia.
  - intros sp Hsp'. rewrite Hs in Hsp'. destruct (W2 sp Hsp') as [Ha Hb].
    split; [now apply Hm|].
    intros v Hv. rewrite Hst. apply (Hb v). now rewrite <- (Hp _ Ha).
  - rewrite Hst. intros H. destruct (W2' H) as (sp & v & A & B).
    exists sp, v. rewrite Hs. split; [exact A|].
    destruct (W2 sp A) as [Ha _]. now rewrite (Hp _ Ha).
  - intros Hne. destruct (Hl Hne) as [H|H]; [|exact H].
    rewrite Hst. auto.
  - intros Hne. destruct (Hi Hne) as [H|H]; [|exact H].
    rewrite Hst. auto.
  - intros p f e Hmk Hpr. destruct (Hc p f e Hmk Hpr) as [[A B]|A];
      [now apply (W4 p f e)|exact A].
Qed.

Lemma grows_same_store w w' :
  promises w' = promises w ->
  service (ctrl w') = service (ctrl w) ->
  serviceStarted (ctrl w') = serviceStarted (ctrl w) ->
  grows w w'.
Proof.
  intros Hp Hs Hst. unfold grows, maker, promise. rewrite Hp.
  repeat split; auto.
Qed.

(** A step that leaves the store alone. *)
Lemma Inv_ctrl fs w w' :
  promises w' = promises w ->
  spawning (tasks w') <= spawning (tasks w) ->
  (Forall (task_ok w') (tasks w) -> Forall (task_ok w') (tasks w')) ->
  service (ctrl w') = service (ctrl w) ->
  serviceStarted (ctrl w') = serviceStarted (ctrl w) ->
  (lastRepo (ctrl w') <> None ->
   lastRepo (ctrl w) <> None \/ serviceStarted (ctrl w') = true) ->
  (pathBeingIndexed (ctrl w') <> None ->
   pathBeingIndexed (ctrl w) <> None \/ serviceStarted (ctrl w') = true) ->
  Inv fs w -> Inv fs w'.
Proof.
  intros Hp Hsp Ht Hs Hst Hl Hi.
  apply Inv_step; auto using grows_same_store.
  intros p f e. unfold maker, promise. rewrite Hp. auto.
Qed.

Lemma triple_emit fs e : triple (Inv fs) (emit e) (fun _ => Inv fs).
Proof. intros w H. apply (Inv_ctrl fs w); auto. Qed.

Lemma triple_logDebug fs s : triple (Inv fs) (logDebug s) (fun _ => Inv fs).
Proof. apply triple_emit. Qed.

Lemma triple_captureException fs e :
  triple (Inv fs) (captureException e) (fun _ => Inv fs).
Proof. apply triple_emit. Qed.

Lemma triple_fire_status fs : triple (Inv fs) fire_status (fun _ => Inv fs).
Proof. intros w H. apply (Inv_ctrl fs w); auto. Qed.

Lemma triple_fire_change fs : triple (Inv fs) fire_change (fun _ => Inv fs).
Proof. intros w H. apply (Inv_ctrl fs w); auto. Qed.

Lemma triple_registerNotification fs :
  triple (Inv fs) registerNotification (fun _ => Inv fs).
Proof. intros w H. apply (Inv_ctrl fs w); auto. Qed.

Lemma triple_set_workspace fs ws :
  triple (Inv fs) (set_workspace ws) (fun _ => Inv fs).
Proof. intros w H. apply (Inv_ctrl fs w); auto. Qed.

Lemma spawning_delete i ts : spawning (delete i ts) <= spawning ts.
Proof.
  unfold spawning. revert i. induction ts as [|t ts IH]; intros i.
  - destruct i; cbn; lia.
  - destruct i as [|i].
    + change (delete 0 (t :: ts)) with ts. cbn.
      destruct (is_spawn_frame (resumes t)); cbn; lia.
    + change (delete (S i) (t :: ts)) with (t :: delete i ts). cbn.
      specialize (IH i).
      destruct (is_spawn_frame (resumes t)); cbn; lia.
Qed.

Lemma spawning_snoc ts t :
  spawning (ts ++ [t]) =
  spawning ts + if is_spawn_frame (resumes t) then 1 else 0.
Proof.
  unfold spawning. rewrite List.filter_app, length_app. cbn.
  now destruct (is_spawn_frame (resumes t)).
Qed.

Lemma triple_remove_task fs i : triple (Inv fs) (remove_task i) (fun _ => Inv fs).
Proof.
  intros w H. apply (Inv_ctrl fs w); auto.
  - apply spawning_delete.
  - cbn. apply Forall_delete.
Qed.

Lemma triple_assign fs f : benign f -> triple (Inv fs) (assign f) (fun _ => Inv fs).
Proof.
  intros Hf w H. destruct (Hf (ctrl w)) as (H1 & H2 & H3 & H4).
  apply (Inv_ctrl fs w); cbn; auto.
  - rewrite H3. auto.
  - destruct H4 as [-> | ->]; [auto|congruence].
Qed.

Lemma triple_assign_lastRepo fs r :
  In Started fs -> triple (Inv fs) (assign (set_lastRepo r)) (fun _ => Inv fs).
Proof.
  intros Hin w H. pose proof (Inv_holds _ _ _ H Hin) as Hst. cbn in Hst.
  apply (Inv_ctrl fs w); cbn; auto.
Qed.

Lemma triple_assign_indexing fs p :
  In Started fs ->
  triple (Inv fs) (assign (set_pathBeingIndexed p)) (fun _ => Inv fs).
Proof.
  intros Hin w H. pose proof (Inv_holds _ _ _ H Hin) as Hst. cbn in Hst.
  apply (Inv_ctrl fs w); cbn; auto.
Qed.

Lemma grows_new_promise o w : grows w (snd (new_promise o w)).
Proof.
  repeat split; auto.
  - intros p o' Hp. rewrite maker_new_promise.
    destruct (decide _) as [->|]; [|exact Hp].
    now apply maker_fresh in Hp.
  - intros p Hp. rewrite promise_new_promise.
    destruct (decide _) as [->|]; [|reflexivity].
    now apply maker_fresh in Hp.
Qed.

Lemma triple_new_promise fs o :
  triple (Inv fs) (new_promise o) (fun q => Inv (Made q o :: fs)).
Proof.
  intros w H.
  assert (H' : Inv fs (snd (new_promise o w))).
  { apply (Inv_step fs w); auto using grows_new_promise.
    intros p f e. rewrite maker_new_promise, promise_new_promise.
    destruct (decide _); [discriminate|]. auto. }
  destruct H' as [Hwf Hfs]. split; [exact Hwf|].
  constructor; [|exact Hfs].
  cbn [holds fst]. rewrite maker_new_promise. cbn. now destruct (decide _).
Qed.

Lemma grows_settle p r w :
  maker w p <> Some (FromAsync f_spawnAndBindService) ->
  grows w (snd (settle p r w)).
Proof.
  intros Hp. repeat split; auto.
  - intros q o. now rewrite maker_settle.
  - intros q Hq. rewrite promise_settle.
    destruct (decide _) as [->|]; [congruence|reflexivity].
Qed.

(** Settling the promise of a call of [f] (not [spawnAndBindService]): a
    rejection needs [f] to be a function that can throw. *)
Lemma triple_settle fs p f r :
  In (Made p (FromAsync f)) fs ->
  f <> f_spawnAndBindService ->
  match r with
  | Fulfilled _ => True
  | Rejected _ => throws f = true
  end ->
  triple (Inv fs) (settle p r) (fun _ => Inv fs).
Proof.
  intros Hin Hf Hr w H. pose proof (Inv_holds _ _ _ H Hin) as Hp. cbn in Hp.
  apply (Inv_step fs w); auto.
  - apply grows_settle. congruence.
  - intros q g e. rewrite maker_settle, promise_settle.
    destruct (decide _) as [->|]; [|auto].
    destruct (promise w p) as [[|r0]|] eqn:E; try discriminate.
    + intros Hq [= ->]. right. congruence.
    + auto.
Qed.

(** Settling what the environment owns. *)
Lemma triple_settle_external fs p r :
  triple (fun w => Inv fs w /\
                   forall f, maker w p <> Some (FromAsync f))
         (settle p r) (fun _ => Inv fs).
Proof.
  intros w [H Hp].
  apply (Inv_step fs w); auto.
  - apply grows_settle. apply Hp.
  - intros q g e. rewrite maker_settle, promise_settle.
    destruct (decide _) as [->|]; [|auto].
    intros Hq. now apply Hp in Hq.
Qed.

Lemma triple_park fs t :
  In (Made (owner t) (FromAsync (fn_of (resumes t)))) fs ->
  match resumes t with
  | spawnAndBindService_spawn => False
  | eagerlyLoad_service _ | index_service _ => In (ServiceIs (awaits t)) fs
  | eagerlyLoad_request _ | index_request _ => In Started fs
  | _ => True
  end ->
  triple (Inv fs) (park t) (fun _ => Inv fs).
Proof.
  intros Hin Hk w H. pose proof (Inv_holds _ _ _ H Hin) as Hp. cbn in Hp.
  assert (Hok : task_ok w t).
  { split; [exact Hp|]. unfold frame_ok.
    destruct (resumes t); auto; try contradiction;
      apply (Inv_holds fs w _ H Hk). }
  apply (Inv_ctrl fs w); auto.
  - cbn. rewrite spawning_snoc.
    destruct (resumes t); cbn; lia || contradiction.
  - cbn. intros Hall. apply Forall_app. split; [exact Hall|].
    constructor; [|constructor]. exact Hok.
Qed.

Lemma triple_finish fs own f o :
  In (Made own (FromAsync f)) fs ->
  outcome_ok f fs o ->
  triple (Inv fs) (finish own o) (fun _ => Inv fs).
Proof.
  intros Hin [Hf Ho]. destruct o as [v|e|q k]; cbn in *.
  - now apply (triple_settle fs own f).
  - now apply (triple_settle fs own f).
  - destruct Ho as [<- Hk]. apply triple_park; [exact Hin|].
    cbn. destruct k; auto.
Qed.

Lemma triple_workspaceFolder {B} fs (k : WorkspaceFolders -> M B) R :
  (forall ws, triple (Inv fs) (k ws) R) ->
  triple (Inv fs) (bind workspaceFolder k) R.
Proof.
  unfold triple, bind, workspaceFolder. intros H w HP. now apply H.
Qed.

Lemma triple_this_I {B} fs (k : Controller -> M B) R :
  (forall c, triple (Inv fs) (k c) R) -> triple (Inv fs) (bind this k) R.
Proof.
  unfold triple, bind, this. intros H w HP. now apply H.
Qed.

Lemma triple_eta {A} (P : World -> Prop) (m : M A) (Q : A -> World -> Prop) :
  triple P (bind m (fun a => ret a)) Q -> triple P m Q.
Proof.
  unfold triple, bind, ret. intros H w HP. specialize (H w HP).
  now destruct (m w).
Qed.

Ltac in_solver :=
  cbn; solve [repeat first [eassumption | left; reflexivity | right]].

Ltac outcome_solver :=
  cbn; split; [discriminate|];
  first [ exact Logic.I
        | reflexivity
        | solve [split; [reflexivity | first [exact Logic.I | in_solver]]] ].

Ltac weaken_solver := intros; cbn in *; tauto.

Ltac benign_solver := intros ?c; cbn; auto.

(** Symbolic execution of a segment under [Inv]. *)
Ltac exec_with spec_getService :=
  repeat lazymatch goal with
  | |- triple _ (bind (bind _ _) _) _ => apply triple_assoc
  | |- triple _ (bind (ret _) _) _ => apply triple_ret_bind
  | |- triple _ (bind this _) _ => apply triple_this_I; intros ?c
  | |- triple _ (bind workspaceFolder _) _ =>
      apply triple_workspaceFolder; intros ?ws
  | |- triple _ (bind (if ?c then _ else _) _) _ => destruct c eqn:?
  | |- triple _ (bind (match ?c with _ => _ end) _) _ => destruct c eqn:?
  | |- triple _ (if ?c then _ else _) _ => destruct c eqn:?
  | |- triple _ (match ?c with _ => _ end) _ => destruct c eqn:?
  | |- triple _ (bind (async _ _) _) _ => unfold async at 1
  | |- triple _ (bind (request _ _) _) _ => unfold request at 1
  | |- triple _ (bind (eagerlyLoad _) _) _ => unfold eagerlyLoad at 1
  | |- triple _ (bind (query _) _) _ => unfold query at 1
  | |- triple _ (bind getService _) _ =>
      eapply triple_bind; [spec_getService | intros ?p]
  | |- triple _ (bind (new_promise _) _) _ =>
      eapply triple_bind; [apply triple_new_promise | intros ?q]
  | |- triple _ (bind (emit _) _) _ =>
      eapply triple_bind; [apply triple_emit | intros ?u]
  | |- triple _ (bind (logDebug _) _) _ =>
      eapply triple_bind; [apply triple_logDebug | intros ?u]
  | |- triple _ (bind (captureException _) _) _ =>
      eapply triple_bind; [apply triple_captureException | intros ?u]
  | |- triple _ (bind fire_status _) _ =>
      eapply triple_bind; [apply triple_fire_status | intros ?u]
  | |- triple _ (bind fire_change _) _ =>
      eapply triple_bind; [apply triple_fire_change | intros ?u]
  | |- triple _ (bind registerNotification _) _ =>
      eapply triple_bind; [apply triple_registerNotification | intros ?u]
  | |- triple _ (bind (remove_task _) _) _ =>
      eapply triple_bind; [apply triple_remove_task | intros ?u]
  | |- triple _ (bind (assign (set_lastRepo _)) _) _ =>
      eapply triple_bind; [apply triple_assign_lastRepo; in_solver | intros ?u]
  | |- triple _ (bind (assign (set_pathBeingIndexed (Some _))) _) _ =>
      eapply triple_bind; [apply triple_assign_indexing; in_solver | intros ?u]
  | |- triple _ (bind (assign _) _) _ =>
      eapply triple_bind; [apply triple_assign; benign_solver | intros ?u]
  | |- triple _ (bind (finish _ _) _) _ =>
      eapply triple_bind;
        [eapply triple_finish; [in_solver | outcome_solver] | intros ?u]
  | |- triple _ (ret _) _ =>
      let w := fresh "w" in
      let Hw := fresh "Hw" in
      apply triple_ret; intros w Hw; eapply Inv_weaken; [|exact Hw];
      weaken_solver
  | |- triple _ (bind _ _) _ => fail
  | |- triple _ _ _ => apply triple_eta
  end.

(** [getService], when nothing is memoized: the attempt is started and
    memoized. *)
Lemma spawnAndBindService_fresh w :
  fst (spawnAndBindService w) = length (promises w) /\
  ctrl (snd (spawnAndBindService w)) = ctrl w /\
  promise (snd (spawnAndBindService w)) (length (promises w)) = Some Pending.
Proof.
  repeat split. unfold promise. cbn.
  rewrite lookup_snoc_cases. destruct (decide _) as [E|_].
  - rewrite length_app in E. cbn in E. lia.
  - rewrite lookup_snoc_cases. now destruct (decide _).
Qed.

Lemma no_spawning w :
  Forall (task_ok w) (tasks w) -> service (ctrl w) = None ->
  spawning (tasks w) = 0.
Proof.
  intros H Hs. unfold spawning.
  induction H as [|t ts [_ Ht] _ IH]; [reflexivity|].
  cbn. unfold frame_ok in Ht.
  destruct (resumes t); cbn; try exact IH.
  destruct Ht as [Ht _]. congruence.
Qed.

Lemma unstarted_without_service w :
  wf w -> service (ctrl w) = None -> serviceStarted (ctrl w) = false.
Proof.
  intros Hw Hs. destruct (serviceStarted (ctrl w)) eqn:E; [|reflexivity].
  destruct (wf_started w Hw E) as (sp & v & A & _). congruence.
Qed.

Lemma triple_getService fs :
  triple (Inv fs) getService (fun p => Inv (ServiceIs p :: fs)).
Proof.
  unfold getService. apply triple_this. intros c.
  destruct (service c) as [sp|] eqn:Hc.
  - apply triple_ret. intros w [[Hwf Hfs] <-]. split; [exact Hwf|].
    constructor; [exact Hc|exact Hfs].
  - intros w [[Hwf Hfs] <-].
    pose proof (no_spawning w (wf_tasks w Hwf) Hc) as Hno.
    pose proof (unstarted_without_service w Hwf Hc) as Hun.
    destruct Hwf as [W1 W1' W2 W2' W3 W3' W4].
    unfold spawnAndBindService, spawnBfg. unfold_ops. cbn.
    set (ps := promises w) in *.
    set (own := {| made_by := FromAsync f_spawnAndBindService;
                   settled := Pending |}).
    set (inner := {| made_by := FromSpawn; settled := Pending |}).
    assert (Lold : forall p c0, ps !! p = Some c0 ->
                   ((ps ++ [own]) ++ [inner]) !! p = Some c0).
    { intros p c0 H. rewrite <- app_assoc. now apply lookup_before. }
    assert (Lnew : forall p c0, ((ps ++ [own]) ++ [inner]) !! p = Some c0 ->
                   ps !! p = Some c0 \/ (p = length ps /\ c0 = own) \/
                   c0 = inner).
    { intros p c0. rewrite !lookup_snoc_cases.
      destruct (decide _); [intros [= <-]; auto|].
      destruct (decide _); [intros [= <-]; auto|auto]. }
    assert (Lown : ((ps ++ [own]) ++ [inner]) !! length ps = Some own).
    { rewrite <- app_assoc. now rewrite lookup_here. }
    assert (Mold : forall p o, maker w p = Some o ->
              made_by <$> ((ps ++ [own]) ++ [inner]) !! p = Some o).
    { unfold maker. intros p o H.
      destruct (promises w !! p) as [c0|] eqn:E; [|discriminate].
      fold ps in E. now rewrite (Lold p c0 E). }
    split; [split|]; cbn.
    + apply Forall_app. split.
      * eapply Forall_impl; [exact W1|]. intros t [Ht1 Ht2].
        split; [now apply Mold|].
        unfold frame_ok in *; cbn.
        destruct (resumes t); auto; try congruence.
        destruct Ht2 as [Ht2 _]. congruence.
      * constructor; [|constructor]. split; cbn.
        -- unfold maker. cbn. now rewrite Lown.
        -- unfold frame_ok, promise. cbn. rewrite Lown. auto.
    + rewrite spawning_snoc. rewrite Hno. cbn. lia.
    + intros sp [= <-]. unfold maker, promise. cbn. rewrite Lown. cbn.
      split; [reflexivity|discriminate].
    + rewrite Hun. discriminate.
    + exact W3.
    + exact W3'.
    + intros p f e. unfold maker, promise. cbn.
      destruct (((ps ++ [own]) ++ [inner]) !! p) as [c0|] eqn:E;
        [|discriminate].
      destruct (Lnew p c0 E) as [H|[[_ ->]| ->]]; try discriminate.
      intros A B. apply (W4 p f e); unfold maker, promise; fold ps;
        now rewrite H.
    + constructor; [reflexivity|].
      eapply Forall_impl; [exact Hfs|]. intros [q o|q|]; cbn.
      * apply Mold.
      * congruence.
      * congruence.
Qed.

Ltac exec := cbv zeta; exec_with ltac:(apply triple_getService).

(** ** Well-formedness is kept by every method and every segment *)

Lemma start_wf fs : triple (Inv fs) start (fun _ => Inv fs).
Proof. unfold start, async. exec. Qed.

Lemma setAccessToken_wf fs serverEndpoint token :
  triple (Inv fs) (setAccessToken serverEndpoint token) (fun _ => Inv fs).
Proof. unfold setAccessToken, async. exec. Qed.

Lemma index_wf fs : triple (Inv fs) index (fun _ => Inv fs).
Proof. unfold index, async. exec. Qed.

Lemma load_wf fs repoUri : triple (Inv fs) (load repoUri) (fun _ => Inv fs).
Proof. unfold load, async. exec. Qed.

Lemma query_wf fs q : triple (Inv fs) (query q) (fun _ => Inv fs).
Proof. unfold query, async. exec. Qed.

Lemma getContext_wf fs q n : triple (Inv fs) (getContext q n) (fun _ => Inv fs).
Proof. unfold getContext, async. exec. Qed.

Lemma onProgress_wf fs obj : triple (Inv fs) (onProgress obj) (fun _ => Inv fs).
Proof. unfold onProgress. exec. Qed.

Lemma resume_wf fs k r own :
  k <> spawnAndBindService_spawn ->
  In (Made own (FromAsync (fn_of k))) fs ->
  (needs_started k r = true -> In Started fs) ->
  triple (Inv fs) (o <- resume k r ;; finish own o) (fun _ => Inv fs).
Proof.
  intros Hk Hown Hst.
  destruct k, r; try congruence;
    cbn in Hown, Hst; try specialize (Hst eq_refl);
    unfold resume; exec.
Qed.

Lemma Inv_nil w : Inv [] w <-> wf w.
Proof. unfold Inv. split; [tauto|]. intros H. split; [exact H|constructor]. Qed.

Lemma run_wf {A} (m : M A) w :
  triple (Inv []) m (fun _ => Inv []) -> wf w -> wf (run m w).
Proof. intros H Hw. apply Inv_nil. apply H. now apply Inv_nil. Qed.

(** *** The segment that binds the service (lines 102-160) *)

Lemma spawning_none ts :
  spawning ts = 0 -> Forall (fun t => is_spawn_frame (resumes t) = false) ts.
Proof.
  unfold spawning. induction ts as [|t ts IH]; [constructor|].
  cbn. destruct (is_spawn_frame (resumes t)) eqn:E; cbn; [discriminate|].
  intros H. constructor; auto.
Qed.

Lemma spawning_delete_spawn i ts t :
  ts !! i = Some t -> is_spawn_frame (resumes t) = true ->
  S (spawning (delete i ts)) = spawning ts.
Proof.
  unfold spawning. revert i. induction ts as [|t0 ts IH]; intros i Hi Hs.
  - discriminate.
  - destruct i as [|i].
    + injection Hi as ->. change (delete 0 (t :: ts)) with ts.
      cbn. now rewrite Hs.
    + change (delete (S i) (t0 :: ts)) with (t0 :: delete i ts). cbn.
      cbn in Hi. specialize (IH i Hi Hs).
      destruct (is_spawn_frame (resumes t0)); cbn; lia.
Qed.

(** Settling the memoized promise [own], once no spawn attempt is left
    suspended: the service is marked started exactly when the promise is
    fulfilled.  [ps'] is the store, possibly with the promise of the
    'embeddings/set-token' request added. *)
Lemma bind_service_wf w0 own r c' ps' W R TR :
  wf w0 ->
  service (ctrl w0) = Some own ->
  promise w0 own = Some Pending ->
  spawning (tasks w0) = 0 ->
  serviceStarted (ctrl w0) = false ->
  (ps' = promises w0 \/
   exists o, ps' = promises w0 ++ [{| made_by := o; settled := Pending |}]) ->
  service c' = Some own ->
  serviceStarted c' = match r with Fulfilled _ => true | Rejected _ => false end ->
  lastRepo c' = lastRepo (ctrl w0) ->
  pathBeingIndexed c' = pathBeingIndexed (ctrl w0) ->
  wf {| ctrl := c'; workspace := W;
        promises := match ps' !! own with
                    | Some c => <[own := settle_cell r c]> ps'
                    | None => ps'
                    end;
        tasks := tasks w0; registered := R; trace := TR |}.
Proof.
  intros [W1 W1' W2 W2' W3 W3' W4] Hsv Hpend Hno Hun Hps Hsv' Hst' Hl' Hi'.
  destruct (W2 own Hsv) as [Hmk _].
  assert (Hold : forall p c, promises w0 !! p = Some c -> ps' !! p = Some c).
  { intros p c H. destruct Hps as [->|[o ->]]; [exact H|].
    now apply lookup_before. }
  assert (Hnew : forall p c, ps' !! p = Some c ->
            promises w0 !! p = Some c \/ settled c = Pending).
  { intros p c. destruct Hps as [->|[o ->]]; [auto|].
    rewrite lookup_snoc_cases. destruct (decide _); [|auto].
    intros [= <-]. auto. }
  assert (Hown : ps' !! own =
            Some {| made_by := FromAsync f_spawnAndBindService;
                    settled := Pending |}).
  { unfold maker, promise in *.
    destruct (promises w0 !! own) as [[o s]|] eqn:E; [|discriminate].
    cbn in *. apply Hold. congruence. }
  assert (Hmaker : forall p o, maker w0 p = Some o ->
            made_by <$> (match ps' !! own with
                         | Some c => <[own := settle_cell r c]> ps'
                         | None => ps'
                         end) !! p = Some o).
  { intros p o H. rewrite lookup_settle.
    unfold maker in H.
    destruct (promises w0 !! p) as [c|] eqn:E; [|discriminate].
    rewrite (Hold p c E). destruct (decide _); [|exact H].
    cbn. unfold settle_cell. now destruct (settled c). }
  pose proof (spawning_none _ Hno) as Hnone.
  rewrite Forall_forall in Hnone.
  split; cbn.
  - rewrite Forall_forall in *. intros t Ht.
    destruct (W1 t Ht) as [A B]. split.
    + unfold maker. cbn. now apply Hmaker.
    + specialize (Hnone t Ht). unfold frame_ok in *. cbn.
      destruct (resumes t); auto; try discriminate; congruence.
  - rewrite Hno. lia.
  - intros sp Hsp. rewrite Hsv' in Hsp. injection Hsp as <-.
    unfold maker, promise. cbn. rewrite lookup_settle, Hown.
    destruct (decide _); [|congruence]. cbn. split; [reflexivity|].
    intros v [= ->]. exact Hst'.
  - intros Hb. destruct r as [v|e]; [|congruence].
    exists own, v. split; [exact Hsv'|].
    unfold promise. cbn. rewrite lookup_settle, Hown.
    destruct (decide _); [reflexivity|congruence].
  - rewrite Hl'. intros H. apply W3 in H. congruence.
  - rewrite Hi'. intros H. apply W3' in H. congruence.
  - intros p f e. unfold maker, promise. cbn. rewrite lookup_settle.
    destruct (decide _) as [->|].
    + rewrite Hown. cbn. intros [= <-] _. reflexivity.
    + destruct (ps' !! p) as [c|] eqn:E; [|discriminate].
      destruct (Hnew p c E) as [H|H].
      * intros A B. apply (W4 p f e); unfold maker, promise; now rewrite H.
      * cbn. rewrite H. discriminate.
Qed.

Lemma spawn_segment_wf w i t r :
  wf w -> tasks w !! i = Some t ->
  resumes t = spawnAndBindService_spawn ->
  wf (run (remove_task i ;;
           o <- resume spawnAndBindService_spawn r ;;
           finish (owner t) o) w).
Proof.
  intros Hw Ht Hk.
  pose proof (wf_tasks w Hw) as Hts. rewrite Forall_lookup in Hts.
  destruct (Hts i t Ht) as [_ Hfr]. unfold frame_ok in Hfr.
  rewrite Hk in Hfr. destruct Hfr as (Hsv & Hpend & Hun).
  assert (Hw0 : wf (snd (remove_task i w))).
  { apply Inv_nil. apply (triple_remove_task [] i w). now apply Inv_nil. }
  assert (Hno : spawning (tasks (snd (remove_task i w))) = 0).
  { pose proof (spawning_delete_spawn i (tasks w) t Ht) as H.
    rewrite Hk in H. specialize (H eq_refl).
    pose proof (wf_one_spawn w Hw). cbn. lia. }
  destruct r as [v|e].
  - unfold run. unfold resume. unfold_ops. cbn.
    destruct (accessToken (ctrl w)) as [tok|]; [destruct (truthy tok)|]; cbn.
    + apply (bind_service_wf (snd (remove_task i w)) (owner t) (Fulfilled v));
        auto.
      right. eexists. reflexivity.
    + apply (bind_service_wf (snd (remove_task i w)) (owner t) (Fulfilled v));
        auto.
    + apply (bind_service_wf (snd (remove_task i w)) (owner t) (Fulfilled v));
        auto.
  - unfold run. unfold resume. unfold_ops. cbn.
    apply (bind_service_wf (snd (remove_task i w)) (owner t) (Rejected e));
      auto.
Qed.

Lemma answers_external o r : answers o r = true -> forall f, o <> FromAsync f.
Proof. intros H f ->. discriminate. Qed.

Lemma is_spawn_external o : is_spawn o = true -> forall f, o <> FromAsync f.
Proof. intros H f ->. discriminate. Qed.

Lemma frame_eq_dec (k : frame) :
  {k = spawnAndBindService_spawn} + {k <> spawnAndBindService_spawn}.
Proof. destruct k; (now left) || (right; discriminate). Qed.

(** Every step of the environment or of the scheduler keeps the world
    well-formed. *)
Lemma step_wf l w w' : wf w -> step l w = Some w' -> wf w'.
Proof.
  intros Hw. destruct l; cbn [step].
  - intros [= <-]. apply run_wf; [apply start_wf|exact Hw].
  - intros [= <-]. apply run_wf; [apply setAccessToken_wf|exact Hw].
  - intros [= <-]. apply run_wf; [apply index_wf|exact Hw].
  - intros [= <-]. apply run_wf; [apply load_wf|exact Hw].
  - intros [= <-]. apply run_wf; [apply query_wf|exact Hw].
  - intros [= <-]. apply run_wf; [apply getContext_wf|exact Hw].
  - intros [= <-]. apply run_wf; [apply triple_set_workspace|exact Hw].
  - destruct (promises w !! p) as [[o [|]]|] eqn:E; try discriminate.
    destruct (answers o r) eqn:Ha; [|discriminate].
    intros [= <-]. apply Inv_nil. apply (triple_settle_external [] p r w).
    split; [now apply Inv_nil|].
    intros f. unfold maker. rewrite E. cbn. intros [= ->]. discriminate.
  - destruct (promises w !! p) as [[o [|]]|] eqn:E; try discriminate.
    destruct (is_spawn o) eqn:Ha; [|discriminate].
    intros [= <-]. apply Inv_nil.
    apply (triple_bind
             (fun w1 => Inv [] w1 /\
                        forall f, maker w1 p <> Some (FromAsync f))
             (captureException e)
             (fun _ w1 => Inv [] w1 /\
                          forall f, maker w1 p <> Some (FromAsync f))
             (fun _ => settle p (Rejected e)) (fun _ => Inv [])).
    + intros w0 [H0 H1]. split.
      * now apply triple_captureException.
      * exact H1.
    + intros _. apply triple_settle_external.
    + split; [now apply Inv_nil|].
      intros f. unfold maker. rewrite E. cbn. intros [= ->]. discriminate.
  - destruct (registered w); [|discriminate].
    intros [= <-]. apply run_wf; [apply onProgress_wf|exact Hw].
  - destruct (tasks w !! i) as [t|] eqn:Et; [|discriminate].
    destruct (promises w !! awaits t) as [[o [|r]]|] eqn:Ep; try discriminate.
    intros [= <-].
    destruct (frame_eq_dec (resumes t)) as [Hk|Hk].
    { rewrite Hk. now apply spawn_segment_wf. }
    pose proof (wf_tasks w Hw) as Hts. rewrite Forall_lookup in Hts.
    destruct (Hts i t Et) as [Hmk Hfr].
    set (fs := Made (owner t) (FromAsync (fn_of (resumes t))) ::
               if needs_started (resumes t) r then [Started] else []).
    assert (HI : Inv fs w).
    { split; [exact Hw|]. constructor; [exact Hmk|].
      destruct (needs_started (resumes t) r) eqn:Hn; [|constructor].
      constructor; [|constructor]. cbn.
      unfold frame_ok in Hfr. unfold needs_started in Hn.
      destruct (resumes t), r; try discriminate; auto;
        destruct (wf_service w Hw _ Hfr) as [_ Hb]; apply (Hb v);
        unfold promise; now rewrite Ep. }
    unfold run.
    assert (HT : triple (Inv fs)
              (remove_task i ;; o0 <- resume (resumes t) r ;;
               finish (owner t) o0) (fun _ => Inv fs)).
    { eapply triple_bind; [apply triple_remove_task|]. intros ?u.
      apply resume_wf.
      - exact Hk.
      - subst fs. cbn. auto.
      - intros Hn. subst fs. rewrite Hn. cbn. auto. }
    exact (proj1 (HT w HI)).
Qed.

Lemma init_wf : wf init.
Proof.
  split; cbn.
  - constructor.
  - unfold spawning. cbn. lia.
  - discriminate.
  - discriminate.
  - congruence.
  - congruence.
  - intros p f e H. discriminate H.
Qed.

Lemma reachable_wf w : reachable w -> wf w.
Proof.
  induction 1 as [|l w w' _ IH Hstep]; [apply init_wf|].
  now apply (step_wf l w).
Qed.

Lemma exec_wf ls w w' : wf w -> exec ls w = Some w' -> wf w'.
Proof.
  revert w. induction ls as [|l ls IH]; cbn; intros w Hw.
  - now intros [= <-].
  - destruct (step l w) as [w1|] eqn:E; [|discriminate].
    apply IH. now apply (step_wf l w).
Qed.

Lemma exec_reachable ls w w' :
  reachable w -> exec ls w = Some w' -> reachable w'.
Proof.
  revert w. induction ls as [|l ls IH]; cbn; intros w Hw.
  - now intros [= <-].
  - destruct (step l w) as [w1|] eqn:E; [|discriminate].
    apply IH. now apply (reachable_step l w).
Qed.

(** In a reachable world, a started service is a bound session. *)
Lemma reachable_bound w :
  reachable w -> serviceStarted (ctrl w) = true ->
  exists sp, bound w sp.
Proof.
  intros Hr Hst. pose proof (reachable_wf w Hr) as Hw.
  destruct (wf_started w Hw Hst) as (sp & v & Hsv & Hp).
  exists sp. split; [exact Hsv|]. split; [exact Hst|].
  destruct (wf_service w Hw sp Hsv) as [Hmk _].
  unfold maker, promise in *.
  destruct (promises w !! sp) as [[o s]|]; [|discriminate].
  cbn in *. exists v. congruence.
Qed.

(** ** Walking through a segment with an arbitrary invariant *)

Lemma triple_this_any {B} (P : World -> Prop) (k : Controller -> M B) R :
  (forall c, triple P (k c) R) -> triple P (bind this k) R.
Proof. unfold triple, bind, this. intros H w HP. now apply H. Qed.

Lemma triple_workspaceFolder_any {B} (P : World -> Prop)
      (k : WorkspaceFolders -> M B) R :
  (forall ws, triple P (k ws) R) -> triple P (bind workspaceFolder k) R.
Proof. unfold triple, bind, workspaceFolder. intros H w HP. now apply H. Qed.

Lemma keep_bind {A B} (P : World -> Prop) (m : M A) (k : A -> M B)
      (R : B -> World -> Prop) :
  triple P m (fun _ => P) -> (forall a, triple P (k a) R) ->
  triple P (bind m k) R.
Proof. intros Hm Hk. now apply (triple_bind P m (fun _ => P)). Qed.

Lemma run_keep {A} (P : World -> Prop) (m : M A) w :
  triple P m (fun _ => P) -> P w -> P (run m w).
Proof. intros H Hw. now apply H. Qed.

Ltac walk prim :=
  cbv zeta;
  repeat lazymatch goal with
  | |- triple _ (bind (bind _ _) _) _ => apply triple_assoc
  | |- triple _ (bind (ret _) _) _ => apply triple_ret_bind
  | |- triple _ (bind this _) _ => apply triple_this_any; intros ?c
  | |- triple _ (bind workspaceFolder _) _ =>
      apply triple_workspaceFolder_any; intros ?ws
  | |- triple _ (bind (if ?c then _ else _) _) _ => destruct c eqn:?
  | |- triple _ (bind (match ?c with _ => _ end) _) _ => destruct c eqn:?
  | |- triple _ (if ?c then _ else _) _ => destruct c eqn:?
  | |- triple _ (match ?c with _ => _ end) _ => destruct c eqn:?
  | |- triple _ (bind (async _ _) _) _ => unfold async at 1
  | |- triple _ (bind (request _ _) _) _ => unfold request at 1
  | |- triple _ (bind (eagerlyLoad _) _) _ => unfold eagerlyLoad at 1
  | |- triple _ (bind (query _) _) _ => unfold query at 1
  | |- triple _ (bind (logDebug _) _) _ => unfold logDebug at 1
  | |- triple _ (bind (captureException _) _) _ =>
      unfold captureException at 1
  | |- triple _ (bind (finish _ (Return _)) _) _ => unfold finish at 1
  | |- triple _ (bind (finish _ (Throw _)) _) _ => unfold finish at 1
  | |- triple _ (bind (finish _ (Await _ _)) _) _ => unfold finish at 1
  | |- triple _ (bind _ _) _ =>
      apply keep_bind; [solve [prim] | intros ?u]
  | |- triple _ (ret _) _ => apply triple_ret; auto
  | |- triple _ _ _ => apply triple_eta
  end.

(** ** The indicator and the path being indexed go together *)

Lemma reload_set_statusBar s c :
  reload_after_done (set_statusBar s c) = reload_after_done c.
Proof. reflexivity. Qed.

Arguments reload_after_done : simpl never.

Lemma can_index_truthy c p : can_index c = Some p -> truthy p = true.
Proof.
  unfold can_index. destruct (lastRepo c) as [repo|]; [|discriminate].
  destruct (endpointIsDotcom c); cbn; [|discriminate].
  destruct (truthy (path repo)) eqn:E; cbn; [|discriminate].
  destruct (loadResult repo); cbn; [discriminate|].
  now intros [= <-].
Qed.

Ltac tidy_prim :=
  let w := fresh "w" in
  let T1 := fresh "T" in
  let T2 := fresh "T" in
  let T3 := fresh "T" in
  let T4 := fresh "T" in
  intros w (T1 & T2 & T3 & T4); unfold tidy; cbn;
  (split; [exact T1|]); (split; [exact T2|]); (split; [exact T3|]);
  first
    [ exact T4
    | apply Forall_delete; exact T4
    | apply Forall_app; split; [exact T4|];
      repeat constructor; cbn; eauto using can_index_truthy ].

Lemma tidy_getService : triple tidy getService (fun _ => tidy).
Proof.
  intros w (T1 & T2 & T3 & T4).
  unfold getService, spawnAndBindService, spawnBfg. unfold_ops. cbn.
  destruct (service (ctrl w)); unfold tidy; cbn; repeat split; auto;
    try apply T1.
  apply Forall_app. split; [exact T4|]. repeat constructor.
Qed.

Lemma resume_tidy k r own :
  indexes_real_path {| awaits := 0; resumes := k; owner := own |} ->
  (forall v, k = spawnAndBindService_spawn -> r <> Fulfilled v) ->
  (forall p v, k = index_request p -> r <> Fulfilled v) ->
  triple tidy (o <- resume k r ;; finish own o) (fun _ => tidy).
Proof.
  intros Hp Hs Hk. unfold indexes_real_path in Hp. cbn in Hp.
  destruct k, r;
    try (exfalso; eapply Hk; reflexivity);
    try (exfalso; eapply Hs; reflexivity);
    unfold resume; walk ltac:(first [apply tidy_getService | tidy_prim]).
Qed.

(** The two segments that change the indicator or the handler. *)
Lemma index_acknowledged_tidy p v own :
  truthy p = true ->
  triple tidy (o <- resume (index_request p) (Fulfilled v) ;; finish own o)
         (fun _ => tidy).
Proof.
  intros Hp w (T1 & T2 & T3 & T4). unfold resume. unfold_ops. cbn.
  destruct (statusBar (ctrl w)); unfold tidy; cbn;
    repeat split; auto; try discriminate.
  all: intros q [= <-]; exact Hp.
Qed.

Lemma service_bound_tidy v own :
  triple (fun w => tidy w /\ serviceStarted (ctrl w) = false)
         (o <- resume spawnAndBindService_spawn (Fulfilled v) ;;
          finish own o)
         (fun _ => tidy).
Proof.
  intros w [(T1 & T2 & T3 & T4) Hun]. unfold resume. unfold_ops. cbn.
  destruct (accessToken (ctrl w)) as [t|]; [destruct (truthy t)|];
    unfold tidy; cbn; repeat split; auto; apply T1.
Qed.

Lemma remove_task_tidy i : triple tidy (remove_task i) (fun _ => tidy).
Proof. tidy_prim. Qed.

Lemma onProgress_tidy obj : triple tidy (onProgress obj) (fun _ => tidy).
Proof.
  intros w Hw. pose proof Hw as (T1 & T2 & T3 & T4).
  unfold onProgress, eagerlyLoad, getService, spawnAndBindService, spawnBfg.
  unfold_ops. cbn.
  destruct (statusBar (ctrl w)) as [bar|] eqn:Eb; cbn; [|exact Hw].
  assert (Hidx : pathBeingIndexed (ctrl w) <> None).
  { intros H. apply T1 in H. congruence. }
  destruct obj; cbn; unfold tidy; cbn.
  - repeat split; auto; intros; congruence.
  - repeat split; auto; intros; congruence.
  - rewrite Eb. repeat split; auto; intros; congruence.
  - rewrite !reload_set_statusBar.
    destruct (reload_after_done (ctrl w));
      [destruct (service (ctrl w)) eqn:Es|];
      repeat (progress (cbn; rewrite ?Es));
      repeat split; auto; try discriminate.
    all: rewrite ?Forall_app; repeat split; auto.
    all: apply Forall_cons; split; [exact Logic.I | apply Forall_nil; exact Logic.I].
  - rewrite Eb. repeat split; auto; intros; congruence.
Qed.

Lemma step_tidy l w w' : wf w -> tidy w -> step l w = Some w' -> tidy w'.
Proof.
  intros Hwf Hw. destruct l; cbn [step].
  - intros [= <-]. apply run_keep; [|exact Hw].
    unfold start, async.
    walk ltac:(first [apply tidy_getService | tidy_prim]).
  - intros [= <-]. apply run_keep; [|exact Hw].
    unfold setAccessToken, async.
    walk ltac:(first [apply tidy_getService | tidy_prim]).
  - intros [= <-]. apply run_keep; [|exact Hw].
    unfold index, async.
    walk ltac:(first [apply tidy_getService | tidy_prim]).
  - intros [= <-]. apply run_keep; [|exact Hw].
    unfold load, async.
    walk ltac:(first [apply tidy_getService | tidy_prim]).
  - intros [= <-]. apply run_keep; [|exact Hw].
    unfold query, async.
    walk ltac:(first [apply tidy_getService | tidy_prim]).
  - intros [= <-]. apply run_keep; [|exact Hw].
    unfold getContext, async.
    walk ltac:(first [apply tidy_getService | tidy_prim]).
  - intros [= <-]. apply run_keep; [|exact Hw]. tidy_prim.
  - destruct (promises w !! p) as [[o [|]]|]; try discriminate.
    destruct (answers o r); [|discriminate].
    intros [= <-]. apply run_keep; [|exact Hw]. tidy_prim.
  - destruct (promises w !! p) as [[o [|]]|]; try discriminate.
    destruct (is_spawn o); [|discriminate].
    intros [= <-]. apply run_keep; [|exact Hw]. walk tidy_prim.
  - destruct (registered w); [|discriminate].
    intros [= <-]. apply run_keep; [|exact Hw]. apply onProgress_tidy.
  - destruct (tasks w !! i) as [t|] eqn:Et; [|discriminate].
    destruct (promises w !! awaits t) as [[o [|r]]|]; try discriminate.
    intros [= <-].
    assert (Hreal : indexes_real_path t).
    { destruct Hw as (_ & _ & _ & T4). rewrite Forall_lookup in T4.
      exact (T4 i t Et). }
    pose proof (wf_tasks w Hwf) as Hts. rewrite Forall_lookup in Hts.
    destruct (Hts i t Et) as [_ Hfr]. unfold frame_ok in Hfr.
    unfold indexes_real_path in Hreal.
    destruct (resumes t) as [| | | | |p|p| | | | | | |] eqn:Ek;
      destruct r as [v|e].
    all: try (apply run_keep; [|exact Hw];
              apply keep_bind; [apply remove_task_tidy|intros ?u];
              apply resume_tidy;
              [exact Hreal|intros; congruence|intros; congruence]).
    + refine (triple_bind
                (fun w1 => tidy w1 /\ serviceStarted (ctrl w1) = false)
                (remove_task i)
                (fun _ w1 => tidy w1 /\ serviceStarted (ctrl w1) = false)
                _ (fun _ => tidy) _ _ w (conj Hw _)).
      * intros w0 [H0 H1]. split; [now apply remove_task_tidy|exact H1].
      * intros ?u. apply service_bound_tidy.
      * apply Hfr.
    + apply run_keep; [|exact Hw].
      apply keep_bind; [apply remove_task_tidy|intros ?u].
      now apply index_acknowledged_tidy.
Qed.

Lemma init_tidy : tidy init.
Proof.
  unfold tidy. cbn. repeat split; auto; discriminate.
Qed.

Lemma reachable_tidy w : reachable w -> tidy w.
Proof.
  induction 1 as [|l w w' Hr IH Hstep]; [apply init_tidy|].
  apply (step_tidy l w); auto. now apply reachable_wf.
Qed.

(** While a path is being indexed the indicator exists, the progress
    handler is installed and the session is bound. *)
Lemma indexing_means_bound w :
  reachable w -> pathBeingIndexed (ctrl w) <> None ->
  registered w = true /\ statusBar (ctrl w) <> None /\ exists sp, bound w sp.
Proof.
  intros Hr Hidx.
  pose proof (reachable_wf w Hr) as Hwf.
  pose proof (reachable_tidy w Hr) as (T1 & T2 & _).
  pose proof (wf_indexing w Hwf Hidx) as Hst.
  split; [now rewrite T2|]. split; [|now apply reachable_bound].
  intros H. apply Hidx. now apply T1.
Qed.

(** ** C1: the worker is spawned once *)

Lemma spawned_once_same w w' :
  List.filter is_spawn_event (trace w') = List.filter is_spawn_event (trace w) ->
  service (ctrl w') = service (ctrl w) ->
  spawned_once w -> spawned_once w'.
Proof.
  unfold spawned_once, spawns. intros -> ->. auto.
Qed.

Lemma filter_snoc_false {A} (f : A -> bool) l x :
  f x = false -> List.filter f (l ++ [x]) = List.filter f l.
Proof. intros H. rewrite List.filter_app. cbn. rewrite H. apply app_nil_r. Qed.

Lemma filter_snoc_true {A} (f : A -> bool) l x :
  f x = true -> List.filter f (l ++ [x]) = List.filter f l ++ [x].
Proof. intros H. rewrite List.filter_app. cbn. now rewrite H. Qed.

Ltac same_spawns :=
  let w := fresh "w" in
  let H := fresh "H" in
  intros w H; apply (spawned_once_same w);
  [ cbn; try reflexivity; apply filter_snoc_false; reflexivity
  | cbn; reflexivity
  | exact H ].

Lemma getService_spawned_once :
  triple spawned_once getService (fun _ => spawned_once).
Proof.
  intros w H. unfold spawned_once, spawns in *. unfold getService.
  cbn. destruct (service (ctrl w)) eqn:E; cbn.
  - now rewrite E.
  - rewrite filter_snoc_true by reflexivity.
    rewrite length_app. cbn. lia.
Qed.

Ltac spawn_prim := first [apply getService_spawned_once | same_spawns].

Lemma resume_spawned_once k r own :
  triple spawned_once (o <- resume k r ;; finish own o) (fun _ => spawned_once).
Proof. destruct k, r; unfold resume; walk spawn_prim. Qed.


Lemma step_spawned_once l w w' :
  spawned_once w -> step l w = Some w' -> spawned_once w'.
Proof.
  intros Hw. destruct l; cbn [step].
  - intros [= <-]. apply run_keep; [|exact Hw].
    unfold start, async. walk spawn_prim.
  - intros [= <-]. apply run_keep; [|exact Hw].
    unfold setAccessToken, async. walk spawn_prim.
  - intros [= <-]. apply run_keep; [|exact Hw].
    unfold index, async. walk spawn_prim.
  - intros [= <-]. apply run_keep; [|exact Hw].
    unfold load, async. walk spawn_prim.
  - intros [= <-]. apply run_keep; [|exact Hw].
    unfold query, async. walk spawn_prim.
  - intros [= <-]. apply run_keep; [|exact Hw].
    unfold getContext, async. walk spawn_prim.
  - intros [= <-]. apply run_keep; [|exact Hw]. same_spawns.
  - destruct (promises w !! p) as [[o [|]]|]; try discriminate.
    destruct (answers o r); [|discriminate].
    intros [= <-]. apply run_keep; [|exact Hw]. same_spawns.
  - destruct (promises w !! p) as [[o [|]]|]; try discriminate.
    destruct (is_spawn o); [|discriminate].
    intros [= <-]. apply run_keep; [|exact Hw]. walk spawn_prim.
  - destruct (registered w); [|discriminate].
    intros [= <-]. apply run_keep; [|exact Hw].
    unfold onProgress. walk spawn_prim.
  - destruct (tasks w !! i) as [t|]; [|discriminate].
    destruct (promises w !! awaits t) as [[o [|r]]|]; try discriminate.
    intros [= <-]. apply run_keep; [|exact Hw].
    apply keep_bind; [same_spawns|]. intros ?u.
    apply resume_spawned_once.
Qed.

Lemma reachable_spawned_once w : reachable w -> spawned_once w.
Proof.
  induction 1 as [|l w w' _ IH Hstep]; [reflexivity|].
  now apply (step_spawned_once l w).
Qed.

(** ** Later worlds *)

Lemma later_refl w : later w w.
Proof.
  repeat split; auto. exists []. now rewrite app_nil_r.
Qed.

Lemma later_trans w1 w2 w3 : later w1 w2 -> later w2 w3 -> later w1 w3.
Proof.
  intros (A1 & A2 & A3 & A4 & [e1 A5]) (B1 & B2 & B3 & B4 & [e2 B5]).
  repeat split; auto.
  exists (e1 ++ e2). now rewrite B5, A5, app_assoc.
Qed.

Lemma later_keep {A} (m : M A) w0 :
  (forall w, later w (snd (m w))) ->
  triple (later w0) m (fun _ => later w0).
Proof. intros H w Hw. apply (later_trans w0 w); auto. Qed.

Lemma later_same_store w w' :
  promises w' = promises w ->
  (forall p, service (ctrl w) = Some p -> service (ctrl w') = Some p) ->
  (serviceStarted (ctrl w) = true -> serviceStarted (ctrl w') = true) ->
  (exists evs, trace w' = trace w ++ evs) ->
  later w w'.
Proof.
  intros Hp Hs Hst Ht. unfold later, maker, promise. rewrite Hp.
  repeat split; auto.
Qed.

Lemma later_new_promise o w : later w (snd (new_promise o w)).
Proof.
  repeat split; auto.
  - intros p o' H. rewrite maker_new_promise.
    destruct (decide _) as [->|]; [|exact H]. now apply maker_fresh in H.
  - intros p r H. rewrite promise_new_promise.
    destruct (decide _) as [->|]; [|exact H]. now apply promise_fresh in H.
  - exists []. cbn. now rewrite app_nil_r.
Qed.

Lemma later_settle q r w : later w (snd (settle q r w)).
Proof.
  repeat split; auto.
  - intros p o. now rewrite maker_settle.
  - intros p r0 H. rewrite promise_settle. rewrite H.
    now destruct (decide _).
  - exists []. cbn. now rewrite app_nil_r.
Qed.

Ltac trace_grows :=
  first [ exists []; cbn; now rewrite app_nil_r | eexists; reflexivity ].

Lemma later_getService w : later w (snd (getService w)).
Proof.
  unfold getService. unfold_ops. cbn.
  destruct (service (ctrl w)) eqn:E; cbn; [apply later_refl|].
  unfold spawnAndBindService, spawnBfg. unfold_ops. cbn.
  unfold later, maker, promise. cbn. rewrite E.
  repeat split; try discriminate; auto.
  - intros p o H. rewrite !lookup_snoc_cases.
    destruct (decide _) as [->|].
    { rewrite lookup_ge_None_2 in H; [discriminate|].
      rewrite length_app. cbn. lia. }
    destruct (decide _) as [->|]; [|exact H].
    rewrite lookup_ge_None_2 in H; [discriminate|lia].
  - intros p r H. rewrite !lookup_snoc_cases.
    destruct (decide _) as [->|].
    { rewrite lookup_ge_None_2 in H; [discriminate|].
      rewrite length_app. cbn. lia. }
    destruct (decide _) as [->|]; [|exact H].
    rewrite lookup_ge_None_2 in H; [discriminate|lia].
  - eexists. reflexivity.
Qed.

Ltac later_prim :=
  apply later_keep; intros ?w;
  first [ apply later_getService
        | apply later_new_promise
        | apply later_settle
        | apply later_same_store; cbn; [reflexivity | auto | auto | trace_grows] ].

Lemma resume_later k r own w0 :
  triple (later w0) (o <- resume k r ;; finish own o) (fun _ => later w0).
Proof. destruct k, r; unfold resume; walk later_prim. Qed.

(** Every step leads to a later world. *)
Lemma step_later l w w' : step l w = Some w' -> later w w'.
Proof.
  pose proof (later_refl w) as Hw. destruct l; cbn [step].
  - intros [= <-]. apply run_keep; [|exact Hw].
    unfold start, async. walk later_prim.
  - intros [= <-]. apply run_keep; [|exact Hw].
    unfold setAccessToken, async. walk later_prim.
  - intros [= <-]. apply run_keep; [|exact Hw].
    unfold index, async. walk later_prim.
  - intros [= <-]. apply run_keep; [|exact Hw].
    unfold load, async. walk later_prim.
  - intros [= <-]. apply run_keep; [|exact Hw].
    unfold query, async. walk later_prim.
  - intros [= <-]. apply run_keep; [|exact Hw].
    unfold getContext, async. walk later_prim.
  - intros [= <-]. apply run_keep; [|exact Hw]. later_prim.
  - destruct (promises w !! p) as [[o [|]]|]; try discriminate.
    destruct (answers o r); [|discriminate].
    intros [= <-]. apply run_keep; [|exact Hw]. later_prim.
  - destruct (promises w !! p) as [[o [|]]|]; try discriminate.
    destruct (is_spawn o); [|discriminate].
    intros [= <-]. apply run_keep; [|exact Hw]. walk later_prim.
  - destruct (registered w); [|discriminate].
    intros [= <-]. apply run_keep; [|exact Hw].
    unfold onProgress. walk later_prim.
  - destruct (tasks w !! i) as [t|]; [|discriminate].
    destruct (promises w !! awaits t) as [[o [|r]]|]; try discriminate.
    intros [= <-]. apply run_keep; [|exact Hw].
    apply keep_bind; [later_prim|]. intros ?u.
    apply resume_later.
Qed.

Lemma exec_later ls w w' : exec ls w = Some w' -> later w w'.
Proof.
  revert w. induction ls as [|l ls IH]; cbn; intros w.
  - intros [= <-]. apply later_refl.
  - destruct (step l w) as [w1|] eqn:E; [|discriminate].
    intros H. apply (later_trans w w1); [now apply (step_later l)|auto].
Qed.

Lemma exec_spawned_once ls w w' :
  spawned_once w -> exec ls w = Some w' -> spawned_once w'.
Proof.
  revert w. induction ls as [|l ls IH]; cbn; intros w Hw.
  - now intros [= <-].
  - destruct (step l w) as [w1|] eqn:E; [|discriminate].
    apply IH. now apply (step_spawned_once l w).
Qed.

(** C1. In every world the controller can reach, the worker has been
    spawned at most once.  While no attempt is memoized nothing has been
    spawned, and the first [getService] spawns once and memoizes the
    promise of that attempt while it is still pending; once an attempt is
    memoized, [getService] returns it and changes nothing, and whatever
    runs later (calls of start, load, index, query, getContext,
    setAccessToken, answers, notifications, resumed tasks, in any order)
    the same attempt stays memoized and the spawn count stays one. *)
Theorem getService_single_flight (w : World) :
  reachable w ->
  spawns w <= 1 /\
  (service (ctrl w) = None ->
   spawns w = 0 /\
   let (p, w1) := getService w in
   service (ctrl w1) = Some p /\ promise w1 p = Some Pending /\
   spawns w1 = 1) /\
  (forall p, service (ctrl w) = Some p ->
   getService w = (p, w) /\
   forall ls w', exec ls w = Some w' ->
     getService w' = (p, w') /\ spawns w' = 1).
Proof.
  intros Hr. pose proof (reachable_spawned_once w Hr) as Hs.
  unfold spawned_once in Hs. split; [|split].
  - destruct (service (ctrl w)); lia.
  - intros E. rewrite E in Hs. split; [exact Hs|].
    destruct (spawnAndBindService_fresh w) as (_ & _ & E3).
    unfold getService, spawnAndBindService, spawnBfg in *.
    unfold_ops. cbn in *. rewrite E. cbn.
    split; [reflexivity|]. split; [exact E3|].
    unfold spawns in *. cbn.
    rewrite filter_snoc_true by reflexivity.
    rewrite length_app. cbn. lia.
  - intros p E. rewrite E in Hs.
    assert (G : forall w0, service (ctrl w0) = Some p -> getService w0 = (p, w0)).
    { intros w0 E0. unfold getService, bind, this, ret. now rewrite E0. }
    split; [now apply G|]. intros ls w' Hx.
    pose proof (exec_later ls w w' Hx) as (_ & _ & L3 & _).
    specialize (L3 p E). split; [now apply G|].
    pose proof (exec_spawned_once ls w w' (reachable_spawned_once w Hr) Hx) as H'.
    unfold spawned_once in H'. now rewrite L3 in H'.
Qed.

(** ** C8: [getContext] never raises *)




(** ** C4: [load] fails closed *)


Lemma unstarted_uncached w path :
  wf w -> serviceStarted (ctrl w) = false -> cached (ctrl w) path = None.
Proof.
  intros Hw Hs. unfold cached.
  destruct (lastRepo (ctrl w)) eqn:E; [|reflexivity].
  rewrite (wf_lastRepo w Hw) in Hs; [discriminate|]. now rewrite E.
Qed.

Lemma requests_snoc_other m tr e :
  is_request m e = false -> requests m (tr ++ [e]) = requests m tr.
Proof. intros H. unfold requests. now rewrite filter_snoc_false. Qed.

(** C4. [load] fails closed.  Off dotcom, or without a path, it returns
    false at once and does nothing else: no request, no spawn, nothing
    suspended.  On dotcom with a path, before the service is started, it
    returns false at once as well; it has made sure the session is being
    created (an attempt is memoized and the worker was spawned once), it
    has sent no request, and whatever happens later (the spawn failing
    included) its result stays false and the closure that awaits the
    session never rejects. *)
Theorem load_fails_closed :
  (forall w repoUri,
     endpointIsDotcom (ctrl w) = false \/ repoUri = None \/ repoUri = Some "" ->
     load repoUri w = (length (promises w), returned f_load (VBool false) [] w))
  /\
  (forall w repoPath,
     reachable w ->
     endpointIsDotcom (ctrl w) = true -> repoPath <> "" ->
     serviceStarted (ctrl w) = false ->
     let (p, w1) := load (Some repoPath) w in
     promise w1 p = Some (Settled (Fulfilled (VBool false))) /\
     (exists sp, service (ctrl w1) = Some sp) /\ spawns w1 = 1 /\
     (forall m, requests m (trace w1) = requests m (trace w)) /\
     forall ls w2, exec ls w1 = Some w2 ->
       promise w2 p = Some (Settled (Fulfilled (VBool false))) /\
       forall e, promise w2 (p + 1) <> Some (Settled (Rejected e))).
Proof.
  split.
  - intros w repoUri H. unfold load, returned. unfold_ops. cbn.
    destruct (endpointIsDotcom (ctrl w)); cbn.
    + destruct H as [H | [-> | ->]]; [discriminate| |]; cbn;
        now rewrite settle_last, app_nil_r.
    + now rewrite settle_last, app_nil_r.
  - intros w repoPath Hr Hd Hp Hs.
    pose proof (reachable_wf w Hr) as Hw.
    pose proof (reachable_spawned_once w Hr) as Hsp.
    pose proof (load_wf [] (Some repoPath) w (proj2 (Inv_nil w) Hw)) as Hw1.
    apply Inv_nil in Hw1.
    pose proof (step_spawned_once (L_load (Some repoPath)) w _ Hsp eq_refl)
      as Hsp1.
    unfold run, spawned_once in *.
    apply truthy_nonempty in Hp.
    unfold load, getService, spawnAndBindService, spawnBfg in *.
    unfold_ops. cbn in *.
    rewrite Hd, Hp, Hs, (unstarted_uncached w repoPath Hw Hs) in *. cbn in *.
    assert (Hlater : forall w1 p v f,
      wf w1 -> promise w1 p = Some (Settled (Fulfilled v)) ->
      maker w1 (p + 1) = Some (FromAsync f) -> throws f = false ->
      forall ls w2, exec ls w1 = Some w2 ->
        promise w2 p = Some (Settled (Fulfilled v)) /\
        forall e, promise w2 (p + 1) <> Some (Settled (Rejected e))).
    { intros w1 p v f Hwf1 Hpr Hmk Hth ls w2 Hx.
      pose proof (exec_later ls w1 w2 Hx) as (L1 & L2 & _).
      split; [now apply L2|]. intros e He.
      pose proof (wf_caught w2 (exec_wf ls w1 w2 Hwf1 Hx) _ _ e
                    (L1 _ _ Hmk) He). congruence. }
    destruct (service (ctrl w)) as [sp|] eqn:Esv; cbn in *;
      revert Hw1 Hsp1; store; intros Hw1 Hsp1.
    + assert (Hpr : forall W T R TR,
        promise {| ctrl := ctrl w; workspace := W;
                   promises := promises w ++
                     [{| made_by := FromAsync f_load;
                         settled := Settled (Fulfilled (VBool false)) |};
                      {| made_by := FromAsync f_load_closure;
                         settled := Pending |}];
                   tasks := T; registered := R; trace := TR |}
                (length (promises w))
        = Some (Settled (Fulfilled (VBool false)))).
      { intros. unfold promise. now store. }
      split; [apply Hpr|]. split; [eauto|].
      split; [now rewrite Esv in Hsp1|].
      split; [reflexivity|].
      eapply Hlater;
        [exact Hw1|apply Hpr|unfold maker; now store|reflexivity].
    + assert (Hpr : forall C W T R TR,
        promise {| ctrl := C; workspace := W;
                   promises := promises w ++
                     [{| made_by := FromAsync f_load;
                         settled := Settled (Fulfilled (VBool false)) |};
                      {| made_by := FromAsync f_load_closure;
                         settled := Pending |};
                      {| made_by := FromAsync f_spawnAndBindService;
                         settled := Pending |};
                      {| made_by := FromSpawn; settled := Pending |}];
                   tasks := T; registered := R; trace := TR |}
                (length (promises w))
        = Some (Settled (Fulfilled (VBool false)))).
      { intros. unfold promise. now store. }
      split; [apply Hpr|]. split; [eauto|]. split; [exact Hsp1|].
      split; [intros m; apply requests_snoc_other; now destruct m|].
      eapply Hlater;
        [exact Hw1|apply Hpr|unfold maker; now store|reflexivity].
Qed.

(** ** C3: the single-slot cache *)



Lemma requests_snoc_same m tr p q :
  requests m (tr ++ [EvRequest m p q]) = requests m tr + 1.
Proof.
  unfold requests. rewrite filter_snoc_true by now destruct m.
  rewrite length_app. reflexivity.
Qed.


(** ** C7: the credential *)

Arguments same_token : simpl never.
Arguments truthy : simpl never.

Lemma same_token_false t a : a <> Some t -> same_token (Some t) a = false.
Proof.
  intros H. destruct a as [s|]; cbn; [|reflexivity].
  apply String.eqb_neq. congruence.
Qed.

Lemma same_token_None a : same_token None a = false.
Proof. reflexivity. Qed.

Lemma status_fired_app tr evs :
  status_fired (tr ++ evs) = status_fired tr + status_fired evs.
Proof. unfold status_fired. now rewrite List.filter_app, length_app. Qed.

Lemma requests_app m tr evs :
  requests m (tr ++ evs) = requests m tr + requests m evs.
Proof. unfold requests. now rewrite List.filter_app, length_app. Qed.

(** C7 (amended). [setAccessToken] keeps the credential in step with the
    worker as far as the code goes.  (1) With the session bound (a
    reachable world with the service started), a token
    that is a non-empty string different from the held one is stored and
    then sent to the worker with 'embeddings/set-token'.  (2) A null token
    clears the held token; nothing is sent and nothing is suspended.
    (3) For every call the flag becomes whether the endpoint is dotcom,
    and the status event fires once if the flag changed and not at all
    otherwise, whatever the token; when the token is the held one the
    call ends there. *)
Theorem setAccessToken_credential (w : World) (serverEndpoint : string) :
  (forall t,
     reachable w -> serviceStarted (ctrl w) = true ->
     t <> "" -> accessToken (ctrl w) <> Some t ->
     exec [L_setAccessToken serverEndpoint (Some t);
           L_resume (length (tasks w))] w
     = Some (token_forwarded serverEndpoint t w))
  /\
  (let w' := run (setAccessToken serverEndpoint None) w in
   accessToken (ctrl w') = None /\ tasks w' = tasks w /\
   trace w' = trace w ++ flag_events serverEndpoint (ctrl w))
  /\
  (forall token,
     let w' := run (setAccessToken serverEndpoint token) w in
     endpointIsDotcom (ctrl w') = String.eqb serverEndpoint DOTCOM_URL /\
     status_fired (trace w') =
       status_fired (trace w) +
       (if flag_changes serverEndpoint (ctrl w) then 1 else 0) /\
     (same_token token (accessToken (ctrl w)) = true ->
      tasks w' = tasks w /\ accessToken (ctrl w') = accessToken (ctrl w) /\
      trace w' = trace w ++ flag_events serverEndpoint (ctrl w))).
Proof.
  split; [|split].
  - intros t Hr Hst Hp Hne.
    destruct (reachable_bound w Hr Hst) as (sp & Hsv & _ & v & Hsp).
    apply truthy_nonempty in Hp. apply same_token_false in Hne.
    cbn [exec]. unfold step at 1. unfold setAccessToken, getService.
    unfold token_forwarded, flag_events, flag_changes. unfold_ops.
    destruct (Bool.eqb (serverEndpoint =? DOTCOM_URL)%string
                       (endpointIsDotcom (ctrl w))) eqn:Ef;
    repeat (progress (cbn; store;
      rewrite ?Ef, ?Hp, ?Hne, ?Hst, ?Hsv, ?(lookup_before _ _ _ _ Hsp)));
    now rewrite app_nil_r.
  - unfold setAccessToken, getService, flag_events, flag_changes.
    unfold_ops.
    destruct (Bool.eqb (serverEndpoint =? DOTCOM_URL)%string
                       (endpointIsDotcom (ctrl w))) eqn:Ef;
      destruct (serviceStarted (ctrl w)) eqn:Hst;
      repeat (progress (cbn; store; rewrite ?Ef, ?Hst, ?same_token_None));
      repeat split; reflexivity.
  - intros token.
    unfold setAccessToken, getService, spawnAndBindService, spawnBfg,
      flag_events, flag_changes.
    unfold_ops.
    assert (Hcount : forall tr e,
      is_status_fired e = false ->
      length (List.filter is_status_fired (tr ++ [e])) =
      length (List.filter is_status_fired tr)).
    { intros tr e He. now rewrite filter_snoc_false. }
    assert (Hcount1 : forall tr c,
      length (List.filter is_status_fired (tr ++ [EvStatusFired c])) =
      length (List.filter is_status_fired tr) + 1).
    { intros tr c. rewrite filter_snoc_true by reflexivity.
      now rewrite length_app. }
    destruct (Bool.eqb (serverEndpoint =? DOTCOM_URL)%string
                       (endpointIsDotcom (ctrl w))) eqn:Ef;
      destruct (serviceStarted (ctrl w)) eqn:Hst;
      destruct (same_token token (accessToken (ctrl w))) eqn:Hsame;
      repeat (progress (cbn; rewrite ?Ef, ?Hst, ?Hsame)).
    all: try (repeat split; try reflexivity; try discriminate;
              try (now rewrite <- ?app_assoc);
              unfold status_fired;
              repeat first [rewrite Hcount1 | rewrite Hcount by reflexivity];
              lia).
    all: destruct token as [t|]; [destruct (truthy t) eqn:Ht|];
      repeat (progress (cbn; rewrite ?Hst)).
    all: try (repeat split; try reflexivity; try discriminate;
              unfold status_fired;
              repeat first [rewrite Hcount1 | rewrite Hcount by reflexivity];
              lia).
    all: destruct (service (ctrl w)) eqn:Hsv; cbn.
    all: repeat split; try reflexivity; try discriminate;
              unfold status_fired;
              repeat first [rewrite Hcount1 | rewrite Hcount by reflexivity];
              lia.
Qed.

(** ** C2: the terminal notification *)


(** C2 (amended). In every reachable state in which a path is being
    indexed, on 'Done': the handler clears the indicator and the path
    being indexed and fires the status event, whether or not a reload is
    due.  If the path being indexed is the cached path (or nothing is
    cached), it has also started a load of that path with the bound
    session; once the worker answers it, the cache holds the answer, the
    status event fires again, and then the change event fires.  Otherwise
    nothing is loaded and no change event fires. *)
Theorem done_notification (w : World) :
  reachable w -> pathBeingIndexed (ctrl w) <> None ->
  (reload_after_done (ctrl w) = None ->
   step (L_notify NDone) w = Some (done_only w)) /\
  (forall p b,
     reload_after_done (ctrl w) = Some p ->
     exists sp,
       service (ctrl w) = Some sp /\
       let n := length (promises w) in
       let k := length (tasks w) in
       step (L_notify NDone) w = Some (done_reloading p sp w) /\
       exec [L_resume k; L_settle (n + 2) (Fulfilled (VBool b));
             L_resume (k + 1); L_resume k] (done_reloading p sp w)
       = Some (done_reloaded p b w)).
Proof.
  intros Hr Hidx.
  destruct (indexing_means_bound w Hr Hidx) as (Hreg & Hbar & sp & Hb).
  destruct (statusBar (ctrl w)) as [bar|] eqn:Eb; [clear Hbar|congruence].
  split.
  - intros Hn. unfold step. rewrite Hreg. unfold onProgress. unfold_ops.
    repeat (progress (cbn; store; rewrite ?Eb, ?reload_set_statusBar, ?Hn)).
    reflexivity.
  - intros p b Hp. destruct Hb as (Hsv & Hst & v & Hsp).
    exists sp. split; [exact Hsv|]. intros n k. subst n k. split.
    + unfold step. rewrite Hreg.
      unfold onProgress, eagerlyLoad, getService. unfold_ops.
      repeat (progress (cbn; store;
        rewrite ?Eb, ?reload_set_statusBar, ?Hp, ?Hsv)).
      reflexivity.
    + unfold done_reloading. cbn [exec]. unfold step at 1. unfold_ops.
      repeat (progress (cbn; store;
        rewrite ?Hst, ?Hsv, ?(lookup_before _ _ _ _ Hsp))).
      unfold done_reloaded. now rewrite app_nil_r.
Qed.

(** ** C9: indexing is cleared before the change event *)










(** * Further properties of the class *)

(** ** Invariants of the fields *)

(** X1. In every state the controller can reach, the progress indicator
    exists exactly while a path is being indexed (lines 244-250 set both,
    lines 126 and 138 clear both), the path being indexed is never the
    empty string (line 232 lets only a truthy path through), and a path
    is being indexed only once the service is started and the progress
    handler installed. *)
Theorem indicator_iff_indexing (w : World) :
  reachable w ->
  (statusBar (ctrl w) = None <-> pathBeingIndexed (ctrl w) = None) /\
  (forall p, pathBeingIndexed (ctrl w) = Some p -> p <> "") /\
  (pathBeingIndexed (ctrl w) <> None ->
   serviceStarted (ctrl w) = true /\ registered w = true).
Proof.
  intros Hr. pose proof (reachable_tidy w Hr) as (T1 & T2 & T3 & _).
  split; [exact T1|]. split.
  - intros p Hp. apply truthy_nonempty. now apply T3.
  - intros Hidx. pose proof (wf_indexing w (reachable_wf w Hr) Hidx) as Hst.
    split; [exact Hst|]. now rewrite T2.
Qed.

(** X2. In every reachable state, [serviceStarted] is true exactly when
    the memoized promise of [spawnAndBindService] is fulfilled (lines
    158-160 are one synchronous segment), the progress handler is
    installed exactly then (line 103), and a load result is cached only
    after that (line 287 runs after the service was awaited). *)
Theorem started_iff_service_fulfilled (w : World) :
  reachable w ->
  (serviceStarted (ctrl w) = true <->
   exists sp v, service (ctrl w) = Some sp /\
                promise w sp = Some (Settled (Fulfilled v))) /\
  registered w = serviceStarted (ctrl w) /\
  (lastRepo (ctrl w) <> None -> serviceStarted (ctrl w) = true).
Proof.
  intros Hr. pose proof (reachable_wf w Hr) as Hw.
  pose proof (reachable_tidy w Hr) as (_ & T2 & _).
  split; [split|split].
  - apply (wf_started w Hw).
  - intros (sp & v & Hsv & Hp).
    exact (proj2 (wf_service w Hw sp Hsv) v Hp).
  - exact T2.
  - apply (wf_lastRepo w Hw).
Qed.

(** ** Notifications outside an indexing job *)

(** X3. When the session is bound and no path is being indexed, every
    'embeddings/progress' notification (Progress, Error, Done or
    anything else) is dropped at line 104: the handler returns without
    touching a field, firing an event or logging. *)
Theorem idle_notification_is_dropped (w : World) (obj : notification) :
  reachable w -> serviceStarted (ctrl w) = true ->
  pathBeingIndexed (ctrl w) = None ->
  step (L_notify obj) w = Some w.
Proof.
  intros Hr Hst Hidx.
  pose proof (reachable_tidy w Hr) as (T1 & T2 & _).
  apply T1 in Hidx. unfold step. rewrite T2, Hst.
  unfold onProgress. unfold_ops. cbn. now rewrite Hidx.
Qed.

(** ** A failed spawn *)

(** Unfold the operations that a resumed segment brings in. *)
Ltac ops :=
  unfold eagerlyLoad, query, getService, async, request, finish, settle,
    park, new_promise, fire_status, fire_change, logDebug,
    captureException, emit, assign, this, workspaceFolder,
    registerNotification, bind, ret, run.

Lemma promise_cell w p s :
  promise w p = Some s ->
  exists o, promises w !! p = Some {| made_by := o; settled := s |}.
Proof.
  unfold promise. destruct (promises w !! p) as [[o s']|]; [|discriminate].
  cbn. intros [= <-]. now exists o.
Qed.

(** X4. The first [start] when the worker cannot be spawned: whichever
    way the failure is reported (the promise of [spawnBfg] rejects, which
    is captured on line 97, or the [reject] callback is called), the
    attempt is memoized and rejected with the error and [start] rejects
    with the same error (line 55 is outside any try); nothing is
    registered and nothing is sent. *)
Theorem start_rejects_when_spawn_fails (w : World) (e : error) :
  service (ctrl w) = None ->
  let n := length (promises w) in
  let k := length (tasks w) in
  exec [L_start; L_spawn_failed (n + 2) e; L_resume k; L_resume k] w
    = Some (start_failed e true w) /\
  exec [L_start; L_settle (n + 2) (Rejected e); L_resume k; L_resume k] w
    = Some (start_failed e false w).
Proof.
  intros Hsv n k. subst n k. split.
  - cbn [exec]. unfold step at 1.
    unfold start, getService, spawnAndBindService, spawnBfg. unfold_ops.
    repeat (progress (cbn; store; rewrite ?Hsv)).
    unfold start_failed. now rewrite app_nil_r.
  - cbn [exec]. unfold step at 1.
    unfold start, getService, spawnAndBindService, spawnBfg. unfold_ops.
    repeat (progress (cbn; store; rewrite ?Hsv)).
    unfold start_failed. now rewrite app_nil_r.
Qed.

(** X5. After a failed spawn the error reaches every caller that awaits
    the service outside a try: on dotcom [query] rejects with the spawn
    error without sending anything (line 299), and [start] rejects with
    it as well (line 55); [getContext] catches it and returns the empty
    list (lines 308-311). *)
Theorem failed_spawn_reaches_callers (w : World) (sp : pid) (e : error) :
  service (ctrl w) = Some sp ->
  promise w sp = Some (Settled (Rejected e)) ->
  let n := length (promises w) in
  let k := length (tasks w) in
  exec [L_start; L_resume k] w = Some (threw f_start e [EvLog "start"] w) /\
  (endpointIsDotcom (ctrl w) = true ->
   forall q,
     exec [L_query q; L_resume k] w = Some (threw f_query e [] w) /\
     forall m, exists w',
       exec [L_getContext q m; L_resume k; L_resume k] w = Some w' /\
       promise w' n = Some (Settled (Fulfilled (VArray []))) /\
       promise w' (n + 1) = Some (Settled (Rejected e)) /\
       ctrl w' = ctrl w /\ tasks w' = tasks w /\
       trace w' = trace w ++ [EvCapture e; EvLog "getContext failed"]).
Proof.
  intros Hsv Hp n k. subst n k.
  apply promise_cell in Hp as [o Hsp].
  split; [|intros Hd q; split; [|intros m]].
  - cbn [exec]. unfold step at 1. unfold start, getService. unfold_ops.
    repeat (progress (cbn; store;
      rewrite ?Hsv, ?(lookup_before _ _ _ _ Hsp))).
    unfold threw. now rewrite app_nil_r.
  - cbn [exec]. unfold step at 1. unfold query, getService. unfold_ops.
    repeat (progress (cbn; store;
      rewrite ?Hd, ?Hsv, ?(lookup_before _ _ _ _ Hsp))).
    unfold threw. now rewrite !app_nil_r.
  - eexists. split.
    + cbn [exec]. unfold step at 1.
      unfold getContext, query, getService. unfold_ops.
      repeat (progress (cbn; store;
        rewrite ?Hd, ?Hsv, ?(lookup_before _ _ _ _ Hsp))).
      reflexivity.
    + unfold promise. store. rewrite app_nil_r. repeat split.
Qed.

(** ** Binding the service *)

(** X6. When the spawner hands over the worker, the suspended
    [spawnAndBindService] runs lines 102-160 in one go: it installs the
    progress handler, sends the held token (if there is a non-empty one)
    with 'embeddings/set-token', only then marks the service started, and
    fires the change event once, so that a listener already sees
    [serviceStarted]; no other field changes and the memoized promise is
    fulfilled with the worker.  A token handed to [setAccessToken] before
    the worker was there is thus forwarded at this point. *)
Theorem bind_forwards_held_token (w : World) (i : nat) (t : task) (v : value) :
  reachable w ->
  tasks w !! i = Some t -> resumes t = spawnAndBindService_spawn ->
  promise w (awaits t) = Some (Settled (Fulfilled v)) ->
  exists w',
    step (L_resume i) w = Some w' /\
    ctrl w' = set_serviceStarted true (ctrl w) /\
    registered w' = true /\
    service (ctrl w') = Some (owner t) /\
    promise w' (owner t) = Some (Settled (Fulfilled v)) /\
    trace w' = trace w ++ bind_events (ctrl w) (length (promises w)).
Proof.
  intros Hr Ht Hk Hp.
  pose proof (reachable_wf w Hr) as Hw.
  pose proof (wf_tasks w Hw) as Hts. rewrite Forall_lookup in Hts.
  destruct (Hts i t Ht) as [_ Hfr]. unfold frame_ok in Hfr.
  rewrite Hk in Hfr. destruct Hfr as (Hsv & Hown & Hst).
  apply promise_cell in Hp as [o Hsp].
  apply promise_cell in Hown as [oo Hso].
  pose proof (lookup_lt_Some _ _ _ Hso) as Hlt.
  unfold step. rewrite Ht, Hsp, Hk. unfold resume, bind_events.
  unfold_ops.
  destruct (accessToken (ctrl w)) as [tok|] eqn:Etok;
    [destruct (truthy tok) eqn:Etr|];
    eexists; (split; [reflexivity|]);
    unfold promise;
    repeat (progress (cbn; store;
      rewrite ?Etok, ?Etr, ?Hso, ?(lookup_before _ _ _ _ Hso)));
    repeat split; try assumption.
  all: rewrite list_lookup_insert_eq; [reflexivity|];
    rewrite ?length_app; lia.
Qed.

(** X7. [start] on a bound session (lines 56-59): when the workspace
    has a first folder it loads that folder, whatever the dotcom flag is
    and without looking at the cache (one 'embeddings/load' request;
    once the worker answers, the cache holds the answer, the status
    event fires and [start] returns); when no workspace is open it only
    logs and returns; and when the workspace has an empty list of
    folders, reading [.uri] of its missing first folder raises a
    TypeError and [start] rejects with it, having sent nothing. *)
Theorem start_loads_workspace_folder (w : World) :
  reachable w -> serviceStarted (ctrl w) = true ->
  let n := length (promises w) in
  let k := length (tasks w) in
  (forall f b,
     workspace w = FirstFolder f ->
     exec [L_start; L_resume k; L_resume k;
           L_settle (n + 2) (Fulfilled (VBool b));
           L_resume (k + 1); L_resume k] w
     = Some (workspace_loaded f b w)) /\
  (workspace w = NoWorkspace ->
   exec [L_start; L_resume k] w
   = Some (returned f_start VUndefined [EvLog "start"] w)) /\
  (workspace w = NoFolders ->
   exec [L_start; L_resume k] w
   = Some (threw f_start TypeError [EvLog "start"] w)).
Proof.
  intros Hr Hst n k. subst n k.
  destruct (reachable_bound w Hr Hst) as (sp & Hsv & _ & v & Hsp).
  split; [|split].
  - intros f b Hws.
    cbn [exec]. unfold step at 1.
    unfold start, eagerlyLoad, getService. unfold_ops.
    repeat (progress (cbn; store; ops;
      rewrite ?Hws, ?Hst, ?Hsv, ?(lookup_before _ _ _ _ Hsp))).
    unfold workspace_loaded. now rewrite app_nil_r, Hws.
  - intros Hws.
    cbn [exec]. unfold step at 1.
    unfold start, eagerlyLoad, getService. unfold_ops.
    repeat (progress (cbn; store; ops;
      rewrite ?Hws, ?Hst, ?Hsv, ?(lookup_before _ _ _ _ Hsp))).
    unfold returned. now rewrite ?app_nil_r, ?Hws.
  - intros Hws.
    cbn [exec]. unfold step at 1.
    unfold start, eagerlyLoad, getService. unfold_ops.
    repeat (progress (cbn; store; ops;
      rewrite ?Hws, ?Hst, ?Hsv, ?(lookup_before _ _ _ _ Hsp))).
    unfold threw. now rewrite ?app_nil_r, ?Hws.
Qed.

(** ** Indexing *)

Lemma can_index_Some c p :
  can_index c = Some p ->
  endpointIsDotcom c = true /\ truthy p = true /\
  lastRepo c = Some {| path := p; loadResult := false |}.
Proof.
  unfold can_index. destruct (lastRepo c) as [[p0 b]|]; [|discriminate].
  cbn. destruct (endpointIsDotcom c); cbn; [|discriminate].
  destruct (truthy p0) eqn:E; cbn; [|discriminate].
  destruct b; cbn; [discriminate|].
  intros [= <-]. auto.
Qed.

Lemma index_round_trip (w : World) (p : string) (v : value) :
  reachable w -> can_index (ctrl w) = Some p ->
  exec [L_index; L_resume (length (tasks w));
        L_settle (length (promises w) + 1) (Fulfilled v);
        L_resume (length (tasks w))] w
    = Some (index_started p v w).
Proof.
  intros Hr Hc.
  pose proof (can_index_Some _ _ Hc) as (Hd & Htr & Hrepo).
  assert (Hst : serviceStarted (ctrl w) = true).
  { apply (wf_lastRepo w (reachable_wf w Hr)). now rewrite Hrepo. }
  destruct (reachable_bound w Hr Hst) as (sp & Hsv & _ & v0 & Hsp).
  cbn [exec]. unfold step at 1. unfold index, getService. unfold_ops.
  unfold index_started, index_params.
  destruct (statusBar (ctrl w)) as [bar|] eqn:Eb;
    repeat (progress (cbn; store; ops;
      rewrite ?Hc, ?Eb, ?Hst, ?Hsv, ?(lookup_before _ _ _ _ Hsp)));
    now rewrite app_nil_r.
Qed.

Lemma status_index_started (w : World) (p : string) (v : value) ws :
  can_index (ctrl w) = Some p ->
  status (ctrl (index_started p v w)) ws
    = Got [ {| name := p; providers := [local_embeddings indexing] |} ].
Proof.
  intros Hc. pose proof (can_index_Some _ _ Hc) as (Hd & Htr & Hrepo).
  unfold status, displayed_path, index_started. cbn.
  rewrite Hd, Hrepo. cbn. rewrite Htr.
  now rewrite String.eqb_refl.
Qed.

(** X8. [index] when the guard of line 232 lets it through (dotcom, a
    cached path whose load result is false): it sends one
    'embeddings/index' request for the cached path with the model
    'openai/text-embedding-ada-002' and dimension 1536; once the worker
    acknowledges, that path is the path being indexed, a new indicator
    replaces the old one (which is disposed if there was one), the
    status event fires once, and from then on the status getter reports
    'indexing' for the path. *)
Theorem index_starts_indexing (w : World) (p : string) :
  reachable w -> can_index (ctrl w) = Some p ->
  let n := length (promises w) in
  let k := length (tasks w) in
  forall v,
    exec [L_index; L_resume k; L_settle (n + 1) (Fulfilled v); L_resume k] w
      = Some (index_started p v w) /\
    forall ws,
      status (ctrl (index_started p v w)) ws
        = Got [ {| name := p; providers := [local_embeddings indexing] |} ].
Proof.
  intros Hr Hc n k v. subst n k. split.
  - now apply index_round_trip.
  - intros ws. now apply status_index_started.
Qed.

Lemma index_made fs :
  triple (Inv fs) index (fun p => Inv (Made p (FromAsync f_index) :: fs)).
Proof. unfold index, async. exec. Qed.

(** X9. [index] never raises: whatever happens after the call, the
    promise it returned is never rejected (both awaits of line 243 sit
    inside the try of lines 239-254).  In particular, when the worker
    rejects the 'embeddings/index' request the error is captured and
    logged, [index] returns normally, and no field of the controller
    changes: nothing is being indexed and no indicator is created. *)
Theorem index_never_raises (w : World) :
  reachable w ->
  (let (q, w1) := index w in
   forall ls w2, exec ls w1 = Some w2 ->
     forall e, promise w2 q <> Some (Settled (Rejected e))) /\
  (forall p e,
     can_index (ctrl w) = Some p ->
     let n := length (promises w) in
     let k := length (tasks w) in
     exec [L_index; L_resume k; L_settle (n + 1) (Rejected e); L_resume k] w
       = Some (index_failed p e w)).
Proof.
  intros Hr. pose proof (reachable_wf w Hr) as Hw. split.
  - pose proof (index_made [] w (proj2 (Inv_nil w) Hw)) as H1.
    destruct (index w) as [q w1]. cbn in H1.
    destruct H1 as [Hw1 Hfs]. apply Forall_cons in Hfs as [Hmade _].
    cbn in Hmade. intros ls w2 Hx e He.
    pose proof (exec_wf ls w1 w2 Hw1 Hx) as Hw2.
    pose proof (exec_later ls w1 w2 Hx) as (L1 & _).
    specialize (L1 q _ Hmade).
    pose proof (wf_caught w2 Hw2 q _ e L1 He). discriminate.
  - intros p e Hc n k. subst n k.
    pose proof (can_index_Some _ _ Hc) as (Hd & Htr & Hrepo).
    assert (Hst : serviceStarted (ctrl w) = true).
    { apply (wf_lastRepo w Hw). now rewrite Hrepo. }
    destruct (reachable_bound w Hr Hst) as (sp & Hsv & _ & v0 & Hsp).
    cbn [exec]. unfold step at 1. unfold index, getService. unfold_ops.
    unfold index_failed, index_params.
    repeat (progress (cbn; store; ops;
      rewrite ?Hc, ?Hst, ?Hsv, ?(lookup_before _ _ _ _ Hsp))).
    now rewrite app_nil_r.
Qed.

(** ** Queries *)

(** X10. [getContext] on dotcom with the session bound: one
    'embeddings/query' request carries the query; when the worker
    answers a result set, [getContext] returns exactly its results,
    whatever [_numResults] was (the parameter is not used); when the
    worker rejects the request, [query] rejects with that error and
    [getContext] captures it and returns the empty list.  No field of
    the controller changes either way. *)
Theorem getContext_round_trip (w : World) (q : string) (m : Z) :
  reachable w -> serviceStarted (ctrl w) = true ->
  endpointIsDotcom (ctrl w) = true ->
  let n := length (promises w) in
  let k := length (tasks w) in
  (forall results,
     exec [L_getContext q m; L_resume k;
           L_settle (n + 2) (Fulfilled (VResultSet results));
           L_resume (k + 1); L_resume k] w
     = Some (context_found q results w)) /\
  (forall e,
     exec [L_getContext q m; L_resume k;
           L_settle (n + 2) (Rejected e);
           L_resume (k + 1); L_resume k] w
     = Some (context_failed q e w)).
Proof.
  intros Hr Hst Hd n k. subst n k.
  destruct (reachable_bound w Hr Hst) as (sp & Hsv & _ & v & Hsp).
  split; [intros results|intros e].
  - cbn [exec]. unfold step at 1. unfold getContext, query, getService.
    unfold_ops. unfold context_found, context_answered.
    repeat (progress (cbn; store; ops;
      rewrite ?Hd, ?Hst, ?Hsv, ?(lookup_before _ _ _ _ Hsp))).
    now rewrite app_nil_r.
  - cbn [exec]. unfold step at 1. unfold getContext, query, getService.
    unfold_ops. unfold context_failed, context_answered.
    repeat (progress (cbn; store; ops;
      rewrite ?Hd, ?Hst, ?Hsv, ?(lookup_before _ _ _ _ Hsp))).
    now rewrite app_nil_r.
Qed.

(** ** What ends an indexing *)

Lemma busy_getService :
  triple (fun w => pathBeingIndexed (ctrl w) <> None) getService
         (fun _ w => pathBeingIndexed (ctrl w) <> None).
Proof.
  intros w H. unfold getService, spawnAndBindService, spawnBfg.
  unfold_ops. cbn. destruct (service (ctrl w)); exact H.
Qed.

Ltac busy_prim :=
  first [ apply busy_getService
        | let w := fresh "w" in
          let H := fresh "H" in
          intros w H; cbn; first [exact H | discriminate] ].

Lemma resume_busy k r own :
  triple (fun w => pathBeingIndexed (ctrl w) <> None)
         (o <- resume k r ;; finish own o)
         (fun _ w => pathBeingIndexed (ctrl w) <> None).
Proof. destruct k, r; unfold resume; walk busy_prim. Qed.

Lemma step_busy l w w' :
  l <> L_notify NDone -> pathBeingIndexed (ctrl w) <> None ->
  step l w = Some w' -> pathBeingIndexed (ctrl w') <> None.
Proof.
  intros Hl Hw. destruct l; cbn [step].
  - intros [= <-]. apply run_keep; [|exact Hw].
    unfold start, async. walk busy_prim.
  - intros [= <-]. apply run_keep; [|exact Hw].
    unfold setAccessToken, async. walk busy_prim.
  - intros [= <-]. apply run_keep; [|exact Hw].
    unfold index, async. walk busy_prim.
  - intros [= <-]. apply run_keep; [|exact Hw].
    unfold load, async. walk busy_prim.
  - intros [= <-]. apply run_keep; [|exact Hw].
    unfold query, async. walk busy_prim.
  - intros [= <-]. apply run_keep; [|exact Hw].
    unfold getContext, async. walk busy_prim.
  - intros [= <-]. apply run_keep; [|exact Hw]. busy_prim.
  - destruct (promises w !! p) as [[o [|]]|]; try discriminate.
    destruct (answers o r); [|discriminate].
    intros [= <-]. apply run_keep; [|exact Hw]. busy_prim.
  - destruct (promises w !! p) as [[o [|]]|]; try discriminate.
    destruct (is_spawn o); [|discriminate].
    intros [= <-]. apply run_keep; [|exact Hw]. walk busy_prim.
  - destruct (registered w); [|discriminate].
    intros [= <-]. apply run_keep; [|exact Hw].
    destruct obj; try congruence; unfold onProgress; walk busy_prim.
  - destruct (tasks w !! i) as [t|]; [|discriminate].
    destruct (promises w !! awaits t) as [[o [|r]]|]; try discriminate.
    intros [= <-]. apply run_keep; [|exact Hw].
    apply keep_bind; [busy_prim|]. intros ?u.
    apply resume_busy.
Qed.

(** X11. Only the 'Done' notification ends an indexing: while a path is
    being indexed, no call of a method, no answer of the worker, no
    resumed task and no other notification (Progress, Error, anything
    else) clears the path being indexed; line 138 is the only place
    that does.  In particular an Error notification leaves the indexing
    outstanding. *)
Theorem indexing_ends_only_on_done (w : World) (ls : list label) (w' : World) :
  pathBeingIndexed (ctrl w) <> None ->
  ~ In (L_notify NDone) ls ->
  exec ls w = Some w' ->
  pathBeingIndexed (ctrl w') <> None.
Proof.
  revert w. induction ls as [|l ls IH]; cbn; intros w Hw Hn.
  - now intros [= <-].
  - destruct (step l w) as [w1|] eqn:E; [|discriminate].
    apply IH; [|tauto]. apply (step_busy l w); auto.
Qed.

(** ** The credential, again *)

Lemma set_endpointIsDotcom_same c :
  set_endpointIsDotcom (endpointIsDotcom c) c = c.
Proof. now destruct c. Qed.

Lemma set_accessToken_same c : set_accessToken (accessToken c) c = c.
Proof. now destruct c. Qed.

Lemma eqb_same b : Bool.eqb b b = true.
Proof. now destruct b. Qed.

(** A call that finds the flag as it leaves it, and the token either
    the held one or one that leaves no token where none is held, only
    logs and returns. *)
Lemma setAccessToken_quiet w serverEndpoint token :
  endpointIsDotcom (ctrl w) = String.eqb serverEndpoint DOTCOM_URL ->
  same_token token (accessToken (ctrl w)) = true \/
  (token_or_undefined token = None /\ accessToken (ctrl w) = None) ->
  setAccessToken serverEndpoint token w =
    (length (promises w),
     returned f_setAccessToken VUndefined
       [EvLog (if String.eqb serverEndpoint DOTCOM_URL
               then "setAccessToken is dotcom"
               else "setAccessToken not dotcom")] w).
Proof.
  intros Hd Htok. unfold setAccessToken, returned. unfold_ops. cbn.
  rewrite <- Hd, eqb_same. cbn.
  rewrite set_endpointIsDotcom_same.
  destruct (same_token token (accessToken (ctrl w))) eqn:Hs; cbn.
  - now rewrite settle_last.
  - destruct Htok as [|[Hu Ha]]; [discriminate|].
    rewrite Hu, <- Ha, set_accessToken_same.
    destruct token as [t|]; cbn.
    + unfold token_or_undefined in Hu.
      destruct (truthy t); [discriminate|]. cbn.
      now rewrite settle_last.
    + now rewrite settle_last.
Qed.

Lemma same_token_refl t : same_token (Some t) (Some t) = true.
Proof. unfold same_token. apply String.eqb_refl. Qed.

Lemma setAccessToken_settles w serverEndpoint token :
  let w1 := run (setAccessToken serverEndpoint token) w in
  endpointIsDotcom (ctrl w1) = String.eqb serverEndpoint DOTCOM_URL /\
  (same_token token (accessToken (ctrl w1)) = true \/
   (token_or_undefined token = None /\ accessToken (ctrl w1) = None)).
Proof.
  unfold setAccessToken, getService, spawnAndBindService, spawnBfg.
  unfold_ops.
  assert (Hdone : forall P : Prop, true = true \/ P) by (intros; now left).
  destruct (Bool.eqb (serverEndpoint =? DOTCOM_URL)%string
                     (endpointIsDotcom (ctrl w))) eqn:Ef;
    destruct (serviceStarted (ctrl w)) eqn:Hst;
    destruct (same_token token (accessToken (ctrl w))) eqn:Hsame;
    repeat (progress (cbn; rewrite ?Ef, ?Hst, ?Hsame));
    try (split; [reflexivity|apply Hdone]).
  all: destruct token as [t|]; [destruct (truthy t) eqn:Ht|];
    repeat (progress (cbn; rewrite ?Hst, ?Ht));
    try (split; [reflexivity|right; split; reflexivity]);
    try (split; [reflexivity|left; apply same_token_refl]).
  all: destruct (service (ctrl w)) eqn:Hsv; cbn;
    (split; [reflexivity|left; apply same_token_refl]).
Qed.

(** X12. [setAccessToken] is idempotent: a second call with the same
    endpoint and token, right after the first, finds the flag and the
    token as the first call left them, so it only logs and returns
    (line 75, or lines 77-79 with nothing to send): no field changes, no
    event fires, nothing is sent to the worker and nothing is
    suspended. *)
Theorem setAccessToken_idempotent
        (w : World) (serverEndpoint : string) (token : option string) :
  let w1 := run (setAccessToken serverEndpoint token) w in
  setAccessToken serverEndpoint token w1 =
    (length (promises w1),
     returned f_setAccessToken VUndefined
       [EvLog (if String.eqb serverEndpoint DOTCOM_URL
               then "setAccessToken is dotcom"
               else "setAccessToken not dotcom")] w1).
Proof.
  intros w1.
  destruct (setAccessToken_settles w serverEndpoint token) as [Hd Htok].
  now apply setAccessToken_quiet.
Qed.

(** The held token is a non-empty string or absent. *)
Lemma token_or_undefined_truthy token t :
  token_or_undefined token = Some t -> truthy t = true.
Proof.
  destruct token as [t0|]; cbn; [|discriminate].
  destruct (truthy t0) eqn:E; [|discriminate]. now intros [= <-].
Qed.

Lemma real_token_getService :
  triple (fun w => forall t, accessToken (ctrl w) = Some t -> truthy t = true)
         getService
         (fun _ w => forall t, accessToken (ctrl w) = Some t -> truthy t = true).
Proof.
  intros w H. unfold getService, spawnAndBindService, spawnBfg.
  unfold_ops. cbn. destruct (service (ctrl w)); exact H.
Qed.

Ltac real_token_prim :=
  first [ apply real_token_getService
        | let w := fresh "w" in
          let H := fresh "H" in
          intros w H; cbn;
          first [exact H | apply token_or_undefined_truthy] ].

Lemma resume_real_token k r own :
  triple (fun w => forall t, accessToken (ctrl w) = Some t -> truthy t = true)
         (o <- resume k r ;; finish own o)
         (fun _ w => forall t, accessToken (ctrl w) = Some t -> truthy t = true).
Proof. destruct k, r; unfold resume; walk real_token_prim. Qed.

Lemma step_real_token l w w' :
  (forall t, accessToken (ctrl w) = Some t -> truthy t = true) ->
  step l w = Some w' ->
  forall t, accessToken (ctrl w') = Some t -> truthy t = true.
Proof.
  intros Hw. destruct l; cbn [step].
  - intros [= <-]. apply run_keep; [|exact Hw].
    unfold start, async. walk real_token_prim.
  - intros [= <-]. apply run_keep; [|exact Hw].
    unfold setAccessToken, async. walk real_token_prim.
  - intros [= <-]. apply run_keep; [|exact Hw].
    unfold index, async. walk real_token_prim.
  - intros [= <-]. apply run_keep; [|exact Hw].
    unfold load, async. walk real_token_prim.
  - intros [= <-]. apply run_keep; [|exact Hw].
    unfold query, async. walk real_token_prim.
  - intros [= <-]. apply run_keep; [|exact Hw].
    unfold getContext, async. walk real_token_prim.
  - intros [= <-]. apply run_keep; [|exact Hw]. real_token_prim.
  - destruct (promises w !! p) as [[o [|]]|]; try discriminate.
    destruct (answers o r); [|discriminate].
    intros [= <-]. apply run_keep; [|exact Hw]. real_token_prim.
  - destruct (promises w !! p) as [[o [|]]|]; try discriminate.
    destruct (is_spawn o); [|discriminate].
    intros [= <-]. apply run_keep; [|exact Hw]. walk real_token_prim.
  - destruct (registered w); [|discriminate].
    intros [= <-]. apply run_keep; [|exact Hw].
    unfold onProgress. walk real_token_prim.
  - destruct (tasks w !! i) as [t|]; [|discriminate].
    destruct (promises w !! awaits t) as [[o [|r]]|]; try discriminate.
    intros [= <-]. apply run_keep; [|exact Hw].
    apply keep_bind; [real_token_prim|]. intros ?u.
    apply resume_real_token.
Qed.

Lemma reachable_real_token w :
  reachable w -> forall t, accessToken (ctrl w) = Some t -> truthy t = true.
Proof.
  induction 1 as [|l w w' _ IH Hstep]; [discriminate|].
  now apply (step_real_token l w).
Qed.

(** X13. An empty-string token is treated like no token (lines 77 and
    79 test its truthiness): in every reachable state the call drops the
    held token, sends nothing to the worker even when the session is
    bound, suspends nothing and returns at once; the held token is
    therefore never the empty string. *)
Theorem empty_token_is_dropped (w : World) (serverEndpoint : string) :
  reachable w ->
  accessToken (ctrl w) <> Some "" /\
  let w' := run (setAccessToken serverEndpoint (Some "")) w in
  accessToken (ctrl w') = None /\
  tasks w' = tasks w /\
  trace w' = trace w ++ flag_events serverEndpoint (ctrl w) /\
  promise w' (length (promises w)) = Some (Settled (Fulfilled VUndefined)).
Proof.
  intros Hr.
  assert (Hne : accessToken (ctrl w) <> Some "").
  { intros H. now apply (reachable_real_token w Hr) in H. }
  split; [exact Hne|].
  apply same_token_false in Hne.
  assert (Ht : truthy "" = false) by reflexivity.
  unfold setAccessToken, flag_events, flag_changes, promise.
  unfold_ops.
  destruct (Bool.eqb (serverEndpoint =? DOTCOM_URL)%string
                     (endpointIsDotcom (ctrl w))) eqn:Ef;
    destruct (serviceStarted (ctrl w)) eqn:Hst;
    repeat (progress (cbn; store; rewrite ?Ef, ?Hst, ?Hne, ?Ht));
    repeat split; try reflexivity.
Qed.

(** ** The worker is only spoken to once it is bound *)

Lemma ws_weaken sv w : waits_for_service sv w -> waits_for_service None w.
Proof. intros [H _]. now split. Qed.

Lemma ws_getService_bind {B} sv (k : pid -> M B) R :
  (forall p, triple (waits_for_service (Some p)) (k p) R) ->
  triple (waits_for_service sv) (bind getService k) R.
Proof.
  intros H w [Hf _]. unfold bind.
  destruct (getService w) as [p w1] eqn:E. apply H.
  unfold getService, spawnAndBindService, spawnBfg in E.
  unfold_ops. cbn in E.
  destruct (service (ctrl w)) as [p0|] eqn:Hsv; cbn in E.
  - injection E as <- <-. split; [|exact Hsv]. now rewrite Hsv.
  - injection E as <- <-. split; [|reflexivity]. cbn.
    apply Forall_app. split; [|repeat constructor; cbn; intros ?u; discriminate].
    eapply Forall_impl; [exact Hf|]. cbn. intros t Ht Ha.
    specialize (Ht Ha). discriminate.
Qed.

Ltac ws_prim :=
  let w := fresh "w" in
  let Hf := fresh "Hf" in
  let Hs := fresh "Hs" in
  intros w [Hf Hs]; (split; [|exact Hs]); cbn;
  first
    [ exact Hf
    | apply Forall_delete; exact Hf
    | apply Forall_app; split; [exact Hf|];
      repeat constructor; cbn; intros ?u;
      first [discriminate | exact Hs] ].

Ltac walk_ws :=
  cbv zeta;
  repeat lazymatch goal with
  | |- triple _ (bind (bind _ _) _) _ => apply triple_assoc
  | |- triple _ (bind (ret _) _) _ => apply triple_ret_bind
  | |- triple _ (bind this _) _ => apply triple_this_any; intros ?c
  | |- triple _ (bind workspaceFolder _) _ =>
      apply triple_workspaceFolder_any; intros ?ws
  | |- triple _ (bind getService _) _ => apply ws_getService_bind; intros ?p
  | |- triple _ (bind (if ?c then _ else _) _) _ => destruct c eqn:?
  | |- triple _ (bind (match ?c with _ => _ end) _) _ => destruct c eqn:?
  | |- triple _ (if ?c then _ else _) _ => destruct c eqn:?
  | |- triple _ (match ?c with _ => _ end) _ => destruct c eqn:?
  | |- triple _ (bind (async _ _) _) _ => unfold async at 1
  | |- triple _ (bind (request _ _) _) _ => unfold request at 1
  | |- triple _ (bind (eagerlyLoad _) _) _ => unfold eagerlyLoad at 1
  | |- triple _ (bind (query _) _) _ => unfold query at 1
  | |- triple _ (bind (logDebug _) _) _ => unfold logDebug at 1
  | |- triple _ (bind (captureException _) _) _ =>
      unfold captureException at 1
  | |- triple _ (bind (finish _ (Return _)) _) _ => unfold finish at 1
  | |- triple _ (bind (finish _ (Throw _)) _) _ => unfold finish at 1
  | |- triple _ (bind (finish _ (Await _ _)) _) _ => unfold finish at 1
  | |- triple _ (bind _ _) _ =>
      apply keep_bind; [solve [ws_prim] | intros ?u]
  | |- triple _ (ret _) _ =>
      apply triple_ret; intros ?w ?H; eapply ws_weaken; eassumption
  | |- triple _ _ _ => apply triple_eta
  end.

Lemma resume_ws k r own :
  triple (waits_for_service None) (o <- resume k r ;; finish own o)
         (fun _ => waits_for_service None).
Proof. destruct k, r; unfold resume; walk_ws. Qed.

Lemma step_ws l w w' :
  waits_for_service None w -> step l w = Some w' -> waits_for_service None w'.
Proof.
  intros Hw. destruct l; cbn [step].
  - intros [= <-]. apply run_keep; [|exact Hw].
    unfold start, async. walk_ws.
  - intros [= <-]. apply run_keep; [|exact Hw].
    unfold setAccessToken, async. walk_ws.
  - intros [= <-]. apply run_keep; [|exact Hw].
    unfold index, async. walk_ws.
  - intros [= <-]. apply run_keep; [|exact Hw].
    unfold load, async. walk_ws.
  - intros [= <-]. apply run_keep; [|exact Hw].
    unfold query, async. walk_ws.
  - intros [= <-]. apply run_keep; [|exact Hw].
    unfold getContext, async. walk_ws.
  - intros [= <-]. apply run_keep; [|exact Hw]. ws_prim.
  - destruct (promises w !! p) as [[o [|]]|]; try discriminate.
    destruct (answers o r); [|discriminate].
    intros [= <-]. apply run_keep; [|exact Hw]. ws_prim.
  - destruct (promises w !! p) as [[o [|]]|]; try discriminate.
    destruct (is_spawn o); [|discriminate].
    intros [= <-]. apply run_keep; [|exact Hw]. walk_ws.
  - destruct (registered w); [|discriminate].
    intros [= <-]. apply run_keep; [|exact Hw].
    unfold onProgress. walk_ws.
  - destruct (tasks w !! i) as [t|]; [|discriminate].
    destruct (promises w !! awaits t) as [[o [|r]]|]; try discriminate.
    intros [= <-]. apply run_keep; [|exact Hw].
    apply keep_bind; [ws_prim|]. intros ?u.
    apply resume_ws.
Qed.

Lemma reachable_ws w : reachable w -> waits_for_service None w.
Proof.
  induction 1 as [|l w w' _ IH Hstep].
  - split; [constructor|exact Logic.I].
  - now apply (step_ws l w).
Qed.

Arguments contacted : simpl never.

Lemma contacted_snoc tr e :
  is_any_request e = false -> contacted (tr ++ [e]) = contacted tr.
Proof. intros H. unfold contacted. now rewrite filter_snoc_false. Qed.

Lemma silent_getService :
  triple (fun w => contacted (trace w) = 0) getService
         (fun _ w => contacted (trace w) = 0).
Proof.
  intros w H. unfold getService, spawnAndBindService, spawnBfg.
  unfold_ops. cbn. destruct (service (ctrl w)); cbn; [exact H|].
  now rewrite contacted_snoc.
Qed.

Ltac silent_prim :=
  first [ apply silent_getService
        | let w := fresh "w" in
          let H := fresh "H" in
          intros w H; cbn;
          first [exact H | rewrite contacted_snoc by reflexivity; exact H] ].

Lemma resume_silent k r own :
  sends k r = false ->
  triple (fun w => contacted (trace w) = 0)
         (o <- resume k r ;; finish own o)
         (fun _ w => contacted (trace w) = 0).
Proof.
  intros Hk. destruct k, r; try discriminate Hk;
    unfold resume; walk silent_prim.
Qed.

Lemma bind_starts i own v w :
  serviceStarted
    (ctrl (run (remove_task i ;;
                o <- resume spawnAndBindService_spawn (Fulfilled v) ;;
                finish own o) w)) = true.
Proof.
  unfold resume. unfold_ops. cbn.
  destruct (accessToken (ctrl w)) as [t|]; [destruct (truthy t)|];
    reflexivity.
Qed.

Lemma step_silent l w w' :
  wf w -> waits_for_service None w ->
  serviceStarted (ctrl w) = false -> contacted (trace w) = 0 ->
  step l w = Some w' ->
  serviceStarted (ctrl w') = false -> contacted (trace w') = 0.
Proof.
  intros Hwf [Hws _] Hst Hw. destruct l; cbn [step].
  - intros [= <-] _. apply run_keep; [|exact Hw].
    unfold start, async. walk silent_prim.
  - intros [= <-] _. apply run_keep; [|exact Hw].
    unfold setAccessToken, async. walk silent_prim.
  - intros [= <-] _. apply run_keep; [|exact Hw].
    unfold index, async. walk silent_prim.
  - intros [= <-] _. apply run_keep; [|exact Hw].
    unfold load, async. walk silent_prim.
  - intros [= <-] _. apply run_keep; [|exact Hw].
    unfold query, async. walk silent_prim.
  - intros [= <-] _. apply run_keep; [|exact Hw].
    unfold getContext, async. walk silent_prim.
  - intros [= <-] _. apply run_keep; [|exact Hw]. silent_prim.
  - destruct (promises w !! p) as [[o [|]]|]; try discriminate.
    destruct (answers o r); [|discriminate].
    intros [= <-] _. apply run_keep; [|exact Hw]. silent_prim.
  - destruct (promises w !! p) as [[o [|]]|]; try discriminate.
    destruct (is_spawn o); [|discriminate].
    intros [= <-] _. apply run_keep; [|exact Hw]. walk silent_prim.
  - destruct (registered w); [|discriminate].
    intros [= <-] _. apply run_keep; [|exact Hw].
    unfold onProgress. walk silent_prim.
  - destruct (tasks w !! i) as [t|] eqn:Et; [|discriminate].
    destruct (promises w !! awaits t) as [[o [|r]]|] eqn:Ep;
      try discriminate.
    intros [= <-] Hst'.
    destruct (sends (resumes t) r) eqn:Hs.
    + exfalso. rewrite Forall_lookup in Hws. specialize (Hws i t Et).
      destruct r as [v|e]; [|now destruct (resumes t)].
      destruct (frame_eq_dec (resumes t)) as [Hk|Hk].
      * rewrite Hk, bind_starts in Hst'. discriminate.
      * assert (Ha : asks_service (resumes t) = true).
        { destruct (resumes t); try discriminate Hs; try reflexivity.
          congruence. }
        specialize (Hws Ha).
        pose proof (proj2 (wf_service w Hwf _ Hws) v) as Hfull.
        unfold promise in Hfull. rewrite Ep in Hfull.
        specialize (Hfull eq_refl). congruence.
    + apply run_keep; [|exact Hw].
      apply keep_bind; [silent_prim|]. intros ?u.
      now apply resume_silent.
Qed.

Lemma reachable_silent w :
  reachable w -> serviceStarted (ctrl w) = false -> contacted (trace w) = 0.
Proof.
  induction 1 as [|l w w' Hr IH Hstep]; [reflexivity|].
  intros Hst'.
  assert (Hst : serviceStarted (ctrl w) = false).
  { destruct (serviceStarted (ctrl w)) eqn:E; [|reflexivity].
    pose proof (step_later l w w' Hstep) as (_ & _ & _ & L4 & _).
    rewrite (L4 E) in Hst'. discriminate. }
  apply (step_silent l w w'); auto.
  - now apply reachable_wf.
  - now apply reachable_ws.
Qed.

Lemma requests_le_contacted m tr : requests m tr <= contacted tr.
Proof.
  unfold requests, contacted.
  induction tr as [|e tr IH]; cbn; [lia|].
  destruct e; cbn; try exact IH.
  destruct m, m0; cbn; lia.
Qed.

(** X14. The worker is only spoken to once it is bound: in every
    reachable state in which the service is not started, no request of
    any method has been sent.  Every request is sent by a segment that
    awaited the memoized service first (lines 81, 243, 289, 299), or by
    the binding segment itself, which marks the service started in the
    same go (lines 156-158). *)
Theorem no_request_before_bound (w : World) :
  reachable w -> serviceStarted (ctrl w) = false ->
  contacted (trace w) = 0 /\ forall m, requests m (trace w) = 0.
Proof.
  intros Hr Hst. pose proof (reachable_silent w Hr Hst) as H.
  split; [exact H|]. intros m.
  pose proof (requests_le_contacted m (trace w)). lia.
Qed.

(** ** A failed spawn is final *)

(** X15. Once the memoized attempt to spawn and bind the worker has been
    rejected, it stays that way whatever runs next: [getService] keeps
    returning the rejected promise (lines 86-89 never reset the field),
    nothing is spawned again, the service is never marked started, the
    progress handler is never installed and no request is ever sent. *)
Theorem failed_spawn_is_final (w : World) (sp : pid) (e : error) :
  reachable w -> service (ctrl w) = Some sp ->
  promise w sp = Some (Settled (Rejected e)) ->
  forall ls w', exec ls w = Some w' ->
    getService w' = (sp, w') /\
    promise w' sp = Some (Settled (Rejected e)) /\
    spawns w' = 1 /\
    serviceStarted (ctrl w') = false /\
    registered w' = false /\
    contacted (trace w') = 0.
Proof.
  intros Hr Hsv Hp ls w' Hx.
  pose proof (exec_reachable ls w w' Hr Hx) as Hr'.
  pose proof (exec_later ls w w' Hx) as (_ & L2 & L3 & _).
  specialize (L2 sp _ Hp). specialize (L3 sp Hsv).
  pose proof (reachable_spawned_once w' Hr') as Hs.
  unfold spawned_once in Hs. rewrite L3 in Hs.
  pose proof (reachable_tidy w' Hr') as (_ & T2 & _).
  assert (Hst : serviceStarted (ctrl w') = false).
  { destruct (serviceStarted (ctrl w')) eqn:E; [|reflexivity].
    destruct (wf_started w' (reachable_wf w' Hr') E) as (sp' & v & A & B).
    congruence. }
  split; [|split; [exact L2|split; [exact Hs|split; [exact Hst|]]]].
  - unfold getService, bind, this, ret. now rewrite L3.
  - split; [now rewrite T2|]. now apply reachable_silent.
Qed.


(** ** The cache holds one path *)

Lemma load_round_trip (w : World) (p : string) (b : bool) :
  reachable w -> serviceStarted (ctrl w) = true ->
  endpointIsDotcom (ctrl w) = true -> p <> "" ->
  cached (ctrl w) p = None ->
  exec (load_run p b w) w = Some (loaded p b w).
Proof.
  intros Hr Hst Hd Hp Hc.
  destruct (reachable_bound w Hr Hst) as (sp & Hsv & _ & v & Hsp).
  apply truthy_nonempty in Hp.
  unfold load_run. cbn [exec]. unfold step at 1.
  unfold load, eagerlyLoad, getService. unfold_ops.
  repeat (progress (cbn; store;
    rewrite ?Hd, ?Hp, ?Hc, ?Hst, ?Hsv, ?(lookup_before _ _ _ _ Hsp))).
  unfold loaded. now rewrite app_nil_r.
Qed.

Lemma cached_other c p q b :
  p <> q ->
  cached (set_lastRepo (Some {| path := q; loadResult := b |}) c) p = None.
Proof.
  intros H. unfold cached. cbn.
  apply String.eqb_neq in H. now rewrite H.
Qed.

(** X16. The cache has a single slot: loading another path evicts the
    cached one.  After [load p] (answered [b1]) and [load q] for a
    different path, nothing is cached for [p] any more, so a further
    [load p] goes to the worker again and returns the new answer: three
    calls, three 'embeddings/load' requests. *)
Theorem load_evicts_previous_path
        (w : World) (p q : string) (b1 b2 b3 : bool) :
  reachable w -> serviceStarted (ctrl w) = true ->
  endpointIsDotcom (ctrl w) = true ->
  p <> "" -> q <> "" -> p <> q ->
  cached (ctrl w) p = None ->
  let w1 := loaded p b1 w in
  let w2 := loaded q b2 w1 in
  let w3 := loaded p b3 w2 in
  exec (load_run p b1 w) w = Some w1 /\
  exec (load_run q b2 w1) w1 = Some w2 /\
  cached (ctrl w2) p = None /\
  exec (load_run p b3 w2) w2 = Some w3 /\
  requests Load (trace w3) = requests Load (trace w) + 3.
Proof.
  intros Hr Hst Hd Hp Hq Hpq Hc w1 w2 w3.
  assert (H1 : exec (load_run p b1 w) w = Some w1)
    by now apply load_round_trip.
  pose proof (exec_reachable _ _ _ Hr H1) as Hr1.
  assert (H2 : exec (load_run q b2 w1) w1 = Some w2).
  { apply load_round_trip; auto. apply cached_other. congruence. }
  pose proof (exec_reachable _ _ _ Hr1 H2) as Hr2.
  assert (Hc2 : cached (ctrl w2) p = None) by now apply cached_other.
  assert (H3 : exec (load_run p b3 w2) w2 = Some w3)
    by now apply load_round_trip.
  repeat split; auto.
  unfold w3, w2, w1, loaded. cbn [trace].
  rewrite !requests_app. cbn. lia.
Qed.

(** ** From unconsented to ready *)

Lemma done_round_trip (w : World) (p : string) (b : bool) :
  reachable w -> pathBeingIndexed (ctrl w) <> None ->
  reload_after_done (ctrl w) = Some p ->
  exec (done_run b w) w = Some (done_reloaded p b w).
Proof.
  intros Hr Hidx Hp.
  destruct (indexing_means_bound w Hr Hidx)
    as (Hreg & Hbar & sp & Hsv & Hst & v & Hsp).
  destruct (statusBar (ctrl w)) as [bar|] eqn:Eb; [clear Hbar|congruence].
  unfold done_run. cbn [exec]. unfold step at 1. rewrite Hreg.
  unfold onProgress, eagerlyLoad, getService. unfold_ops.
  repeat (progress (cbn; store; ops;
    rewrite ?Eb, ?reload_set_statusBar, ?Hp, ?Hsv, ?Hst,
            ?(lookup_before _ _ _ _ Hsp))).
  unfold done_reloaded. now rewrite app_nil_r.
Qed.

(** X17. The life of a repository, from the source as a whole: on a
    bound session on dotcom, [load p] answered false leaves the status
    'unconsented'; [index] then passes its guard, and once the worker
    acknowledges, the status is 'indexing'; 'Done' then clears the
    indexing and reloads [p], and once the worker answers true the
    status is 'ready' and [index] has nothing left to do. *)
Theorem status_follows_indexing (w : World) (p : string) (v : value) :
  reachable w -> serviceStarted (ctrl w) = true ->
  endpointIsDotcom (ctrl w) = true -> p <> "" ->
  cached (ctrl w) p = None -> pathBeingIndexed (ctrl w) <> Some p ->
  let w1 := loaded p false w in
  let w2 := index_started p v w1 in
  let w3 := done_reloaded p true w2 in
  exec (load_run p false w) w = Some w1 /\
  (forall ws, status (ctrl w1) ws = reports p unconsented) /\
  exec (index_run v w1) w1 = Some w2 /\
  (forall ws, status (ctrl w2) ws = reports p indexing) /\
  exec (done_run true w2) w2 = Some w3 /\
  (forall ws, status (ctrl w3) ws = reports p ready) /\
  pathBeingIndexed (ctrl w3) = None /\
  can_index (ctrl w3) = None.
Proof.
  intros Hr Hst Hd Hp Hc Hidx w1 w2 w3.
  pose proof Hp as Htr. apply truthy_nonempty in Htr.
  assert (H1 : exec (load_run p false w) w = Some w1)
    by now apply load_round_trip.
  pose proof (exec_reachable _ _ _ Hr H1) as Hr1.
  assert (Hc1 : can_index (ctrl w1) = Some p).
  { unfold can_index, w1, loaded. cbn. now rewrite Hd, Htr. }
  assert (H2 : exec (index_run v w1) w1 = Some w2)
    by now apply index_round_trip.
  pose proof (exec_reachable _ _ _ Hr1 H2) as Hr2.
  assert (H3 : exec (done_run true w2) w2 = Some w3).
  { apply done_round_trip; [exact Hr2|discriminate|].
    unfold reload_after_done, w2, w1, index_started, loaded. cbn.
    now rewrite Htr, String.eqb_refl. }
  split; [exact H1|]. split.
  { intros ws. unfold status, reports, w1, loaded. cbn.
    rewrite Hd. cbn. unfold or_else. rewrite Htr.
    assert (E : option_string_eqb (pathBeingIndexed (ctrl w)) p = false).
    { destruct (pathBeingIndexed (ctrl w)) as [p0|]; [|reflexivity].
      cbn. apply String.eqb_neq. congruence. }
    now rewrite E. }
  split; [exact H2|]. split.
  { intros ws. now apply status_index_started. }
  split; [exact H3|]. split.
  { intros ws. unfold status, reports, w3, done_reloaded. cbn.
    rewrite Hd. cbn. unfold or_else. now rewrite Htr. }
  split; [reflexivity|].
  unfold can_index, w3, done_reloaded. cbn. now rewrite Hd, Htr.
Qed.

(** ** Overlapping loads *)

(** X18. Loads in flight are not shared: the cache is only written when
    the worker answers (lines 287-290), so a second [load p] made before
    the first was answered misses the cache (line 267) and sends its own
    'embeddings/load' request.  Each call returns the answer to its own
    request, and the cache ends with the answer that arrived last. *)
Theorem overlapping_loads_both_ask
        (w : World) (p : string) (b1 b2 : bool) :
  reachable w -> serviceStarted (ctrl w) = true ->
  endpointIsDotcom (ctrl w) = true -> p <> "" ->
  cached (ctrl w) p = None ->
  let n := length (promises w) in
  let w' := loaded_twice p b1 b2 w in
  exec (overlapping_loads p b1 b2 w) w = Some w' /\
  requests Load (trace w') = requests Load (trace w) + 2 /\
  promise w' n = Some (Settled (Fulfilled (VBool b1))) /\
  promise w' (n + 2) = Some (Settled (Fulfilled (VBool b2))) /\
  cached (ctrl w') p = Some b2.
Proof.
  intros Hr Hst Hd Hp Hc n w'. subst n w'.
  destruct (reachable_bound w Hr Hst) as (sp & Hsv & _ & v & Hsp).
  pose proof Hp as Htr. apply truthy_nonempty in Htr.
  split; [|split; [|split; [|split]]].
  - unfold overlapping_loads. cbn [exec]. unfold step at 1.
    unfold load, eagerlyLoad, getService. unfold_ops.
    repeat (progress (cbn; store; ops;
      rewrite ?Hd, ?Htr, ?Hc, ?Hst, ?Hsv, ?(lookup_before _ _ _ _ Hsp))).
    unfold loaded_twice. now rewrite app_nil_r.
  - unfold loaded_twice. cbn [trace]. rewrite requests_app. cbn. lia.
  - unfold promise, loaded_twice. now store.
  - unfold promise, loaded_twice. now store.
  - unfold cached, loaded_twice. cbn. now rewrite String.eqb_refl.
Qed.

(** ** Notifications other than 'Done' *)

Lemma set_statusBar_same c : set_statusBar (statusBar c) c = c.
Proof. now destruct c. Qed.

(** X19. While a path is being indexed, a notification other than
    'Done' touches nothing but the indicator: Progress shows the
    progress text and clears a warning, Error shows the warning (lines
    109-118), an object with neither key changes nothing, and anything
    else is logged and shown as an information message (lines 142-143).
    No status or change event fires, nothing is sent or suspended, and
    the path being indexed and the cache stay as they are, so the status
    keeps reporting what it reported before, also after an Error. *)
Theorem other_notifications_touch_only_the_indicator
        (w : World) (obj : notification) :
  reachable w -> pathBeingIndexed (ctrl w) <> None -> obj <> NDone ->
  exists bar,
    statusBar (ctrl w) = Some bar /\
    step (L_notify obj) w
      = Some (with_indicator (indicator_after obj bar)
                             (notification_log obj) w) /\
    forall ws,
      status (ctrl (with_indicator (indicator_after obj bar)
                                   (notification_log obj) w)) ws
      = status (ctrl w) ws.
Proof.
  intros Hr Hidx Hobj.
  destruct (indexing_means_bound w Hr Hidx) as (Hreg & Hbar & _).
  destruct (statusBar (ctrl w)) as [bar|] eqn:Eb; [clear Hbar|congruence].
  exists bar. split; [reflexivity|]. split; [|reflexivity].
  unfold step. rewrite Hreg. unfold onProgress, with_indicator.
  unfold_ops. cbn. rewrite Eb.
  destruct obj; try congruence; cbn; rewrite ?app_nil_r; try reflexivity.
  - rewrite <- Eb, set_statusBar_same. now destruct w.
  - rewrite <- Eb, set_statusBar_same, <- app_assoc. reflexivity.
Qed.

(** ** The events of a flag transition *)

(** What the first segment of [setAccessToken] adds to the trace. *)
Lemma setAccessToken_trace
      (w : World) (serverEndpoint : string) (token : option string) :
  reachable w ->
  let w' := run (setAccessToken serverEndpoint token) w in
  trace w' = trace w ++ flag_events serverEndpoint (ctrl w) /\
  endpointIsDotcom (ctrl w') = String.eqb serverEndpoint DOTCOM_URL.
Proof.
  intros Hr w'. subst w'.
  assert (Hsv : serviceStarted (ctrl w) = true -> service (ctrl w) <> None).
  { intros Hst.
    destruct (wf_started w (reachable_wf w Hr) Hst) as (sp & v & E & _).
    congruence. }
  unfold setAccessToken, getService, spawnAndBindService, spawnBfg,
    flag_events, flag_changes.
  unfold_ops.
  destruct (Bool.eqb (serverEndpoint =? DOTCOM_URL)%string
                     (endpointIsDotcom (ctrl w))) eqn:Ef;
    destruct (serviceStarted (ctrl w)) eqn:Hst;
    destruct (same_token token (accessToken (ctrl w))) eqn:Hsame;
    repeat (progress (cbn; rewrite ?Ef, ?Hst, ?Hsame)).
  all: try (destruct token as [t|]; [destruct (truthy t) eqn:Ht|];
            repeat (progress (cbn; rewrite ?Hst))).
  all: try (destruct (service (ctrl w)) eqn:E;
            [|exfalso; now apply Hsv]; cbn).
  all: rewrite <- ?app_assoc; cbn.
  all: split; reflexivity.
Qed.

(** X20. [setAccessToken] announces a flag transition before it makes
    it: the status event (and, when the service is started, the change
    event) fire on lines 68-70, the flag is assigned on line 73.  So in
    every reachable state the first segment of the call adds exactly the
    log line and these events to the trace, whatever the token is, and
    when the flag changes the controller handed to the listeners still
    has the old flag. *)
Theorem flag_transition_is_announced_first
        (w : World) (serverEndpoint : string) (token : option string) :
  reachable w ->
  let w' := run (setAccessToken serverEndpoint token) w in
  trace w' = trace w ++ flag_events serverEndpoint (ctrl w) /\
  endpointIsDotcom (ctrl w') = String.eqb serverEndpoint DOTCOM_URL /\
  (flag_changes serverEndpoint (ctrl w) = true ->
   In (EvStatusFired (ctrl w)) (flag_events serverEndpoint (ctrl w)) /\
   endpointIsDotcom (ctrl w) = negb (endpointIsDotcom (ctrl w'))).
Proof.
  intros Hr w'.
  destruct (setAccessToken_trace w serverEndpoint token Hr) as [Ht Hd].
  fold w' in Ht, Hd. split; [exact Ht|]. split; [exact Hd|].
  intros Hc. unfold flag_events. rewrite Hc. split; [cbn; auto|].
  rewrite Hd. unfold flag_changes in Hc.
  destruct (serverEndpoint =? DOTCOM_URL)%string,
    (endpointIsDotcom (ctrl w)); try discriminate; reflexivity.
Qed.

(** ** When the worker rejects a load *)

(** X21. [load] raises what the worker raises: when the
    'embeddings/load' request is rejected, [eagerlyLoad] and [load]
    reject with the same error (lines 283 and 289 are outside any try),
    the cache is not written, no status event fires, and the next
    [load] of that path asks the worker again. *)
Theorem load_rejects_with_the_worker (w : World) (p : string) (e : error) :
  reachable w -> serviceStarted (ctrl w) = true ->
  endpointIsDotcom (ctrl w) = true -> p <> "" ->
  cached (ctrl w) p = None ->
  let w1 := load_failed p e w in
  exec (failing_load_run p e w) w = Some w1 /\
  promise w1 (length (promises w)) = Some (Settled (Rejected e)) /\
  status_fired (trace w1) = status_fired (trace w) /\
  forall b, exec (load_run p b w1) w1 = Some (loaded p b w1).
Proof.
  intros Hr Hst Hd Hp Hc w1. subst w1.
  destruct (reachable_bound w Hr Hst) as (sp & Hsv & _ & v & Hsp).
  pose proof Hp as Htr. apply truthy_nonempty in Htr.
  assert (H1 : exec (failing_load_run p e w) w = Some (load_failed p e w)).
  { unfold failing_load_run. cbn [exec]. unfold step at 1.
    unfold load, eagerlyLoad, getService. unfold_ops.
    repeat (progress (cbn; store; ops;
      rewrite ?Hd, ?Htr, ?Hc, ?Hst, ?Hsv, ?(lookup_before _ _ _ _ Hsp))).
    unfold load_failed. now rewrite app_nil_r. }
  split; [exact H1|]. split; [|split].
  - unfold promise, load_failed. now store.
  - unfold load_failed. cbn [trace]. rewrite status_fired_app. cbn. lia.
  - intros b. apply load_round_trip; auto.
    exact (exec_reachable _ _ _ Hr H1).
Qed.

(** X22. When the reload that 'Done' starts is rejected by the worker,
    the detached closure of lines 131-135 ends with that rejection
    before it reaches line 134: no change event fires, the cache keeps
    what it had, and only the status event of the handler itself (line
    139) was fired. *)
Theorem failed_reload_fires_no_change (w : World) (p : string) (e : error) :
  reachable w -> pathBeingIndexed (ctrl w) <> None ->
  reload_after_done (ctrl w) = Some p ->
  let w1 := done_reload_failed p e w in
  exec (failing_done_run e w) w = Some w1 /\
  change_fired (trace w1) = change_fired (trace w) /\
  status_fired (trace w1) = status_fired (trace w) + 1 /\
  lastRepo (ctrl w1) = lastRepo (ctrl w) /\
  promise w1 (length (promises w)) = Some (Settled (Rejected e)).
Proof.
  intros Hr Hidx Hp w1. subst w1.
  destruct (indexing_means_bound w Hr Hidx)
    as (Hreg & Hbar & sp & Hsv & Hst & v & Hsp).
  destruct (statusBar (ctrl w)) as [bar|] eqn:Eb; [clear Hbar|congruence].
  split; [|split; [|split; [|split]]].
  - unfold failing_done_run. cbn [exec]. unfold step at 1. rewrite Hreg.
    unfold onProgress, eagerlyLoad, getService. unfold_ops.
    repeat (progress (cbn; store; ops;
      rewrite ?Eb, ?reload_set_statusBar, ?Hp, ?Hsv, ?Hst,
              ?(lookup_before _ _ _ _ Hsp))).
    unfold done_reload_failed. now rewrite app_nil_r.
  - unfold done_reload_failed, change_fired. cbn [trace].
    rewrite !List.filter_app, !length_app. cbn. lia.
  - unfold done_reload_failed. cbn [trace].
    rewrite !status_fired_app. cbn. lia.
  - reflexivity.
  - unfold promise, done_reload_failed. now store.
Qed.

(** ** The first query of a session *)

Lemma exec_step l ls w w1 :
  step l w = Some w1 -> exec (l :: ls) w = exec ls w1.
Proof. intros H. cbn [exec]. now rewrite H. Qed.

(** Run the first label of a run to an explicit world, rewriting with
    [rw] whenever the computation is stuck. *)
Ltac run_step rw :=
  erewrite exec_step;
  [| unfold step;
     unfold start, setAccessToken, index, load, getContext, onProgress,
       resume;
     ops;
     repeat (progress (cbn; store; ops; rw));
     reflexivity ].

(** X23. [query] on dotcom when no worker was asked for yet: it spawns
    the worker (line 87) and waits; once the spawner hands the worker
    over, the binding segment sends the held token, and only then is the
    query sent: 'embeddings/set-token' reaches the worker before
    'embeddings/query' (the order the comment of lines 154-155 asks
    for), and [query] returns what the worker answers. *)
Theorem token_precedes_first_query
        (w : World) (q t : string) (results : list EmbeddingsSearchResult) :
  service (ctrl w) = None -> endpointIsDotcom (ctrl w) = true ->
  accessToken (ctrl w) = Some t -> t <> "" ->
  exec (first_query_run q results w) w
    = Some (first_query_done q t results w).
Proof.
  intros Hsv Hd Htok Ht. apply truthy_nonempty in Ht.
  unfold first_query_run, spawnAndBindService, spawnBfg.
  do 6 run_step ltac:(rewrite ?Hd, ?Hsv, ?Htok, ?Ht).
  cbn [exec]. unfold first_query_done. now rewrite app_nil_r.
Qed.

(** ** Who hears the change event *)

Lemma rw_getService b :
  triple (reload_waits b) getService (fun _ => reload_waits b).
Proof.
  intros w [Hb Hf]. unfold getService, spawnAndBindService, spawnBfg.
  unfold_ops. cbn. destruct (service (ctrl w)); cbn; [now split|].
  split; [exact Hb|]. cbn.
  apply Forall_app. split; [exact Hf|].
  repeat constructor. cbn. discriminate.
Qed.

Ltac rw_prim :=
  first
    [ apply rw_getService
    | let w := fresh "w" in
      let Hb := fresh "Hb" in
      let Hf := fresh "Hf" in
      intros w [Hb Hf]; split; cbn;
      [ first [exact Hb | intros ?u; reflexivity]
      | first
          [ exact Hf
          | apply Forall_delete; exact Hf
          | apply Forall_app; split; [exact Hf|];
            repeat constructor; cbn; intros ?u;
            first [discriminate | apply Hb; reflexivity]
          | apply Forall_forall; intros; reflexivity ] ] ].

Lemma resume_rw b k r own :
  triple (reload_waits b) (o <- resume k r ;; finish own o)
         (fun _ => reload_waits b).
Proof. destruct k, r; unfold resume; walk rw_prim. Qed.

Lemma rw_relax b w : reload_waits b w -> reload_waits false w.
Proof. intros [_ H]. split; [discriminate|exact H]. Qed.

Lemma step_rw l w w' :
  tidy w -> reload_waits false w -> step l w = Some w' ->
  reload_waits false w'.
Proof.
  intros (_ & T2 & _) Hw. destruct l; cbn [step].
  - intros [= <-]. apply run_keep; [|exact Hw].
    unfold start, async. walk rw_prim.
  - intros [= <-]. apply run_keep; [|exact Hw].
    unfold setAccessToken, async. walk rw_prim.
  - intros [= <-]. apply run_keep; [|exact Hw].
    unfold index, async. walk rw_prim.
  - intros [= <-]. apply run_keep; [|exact Hw].
    unfold load, async. walk rw_prim.
  - intros [= <-]. apply run_keep; [|exact Hw].
    unfold query, async. walk rw_prim.
  - intros [= <-]. apply run_keep; [|exact Hw].
    unfold getContext, async. walk rw_prim.
  - intros [= <-]. apply run_keep; [|exact Hw]. rw_prim.
  - destruct (promises w !! p) as [[o [|]]|]; try discriminate.
    destruct (answers o r); [|discriminate].
    intros [= <-]. apply run_keep; [|exact Hw]. rw_prim.
  - destruct (promises w !! p) as [[o [|]]|]; try discriminate.
    destruct (is_spawn o); [|discriminate].
    intros [= <-]. apply run_keep; [|exact Hw]. walk rw_prim.
  - destruct (registered w) eqn:Hreg; [|discriminate].
    intros [= <-]. apply (rw_relax true).
    apply run_keep.
    + unfold onProgress. walk rw_prim.
    + split; [intros _; congruence|exact (proj2 Hw)].
  - destruct (tasks w !! i) as [t|]; [|discriminate].
    destruct (promises w !! awaits t) as [[o [|r]]|]; try discriminate.
    intros [= <-]. apply run_keep; [|exact Hw].
    apply keep_bind; [rw_prim|]. intros ?u.
    apply resume_rw.
Qed.

Lemma reachable_rw w : reachable w -> reload_waits false w.
Proof.
  induction 1 as [|l w w' Hr IH Hstep].
  - split; [discriminate|constructor].
  - apply (step_rw l w); auto. now apply reachable_tidy.
Qed.

Lemma heard_snoc w w' e :
  trace w' = trace w ++ [e] ->
  (forall c, e = EvChangeFired c -> serviceStarted c = true) ->
  heard w -> heard w'.
Proof.
  intros Ht He H c Hin. rewrite Ht in Hin.
  apply in_app_or in Hin as [Hin|[Hin|[]]]; [now apply H|now apply He].
Qed.

Lemma hears_getService b :
  triple (hears b) getService (fun _ => hears b).
Proof.
  intros w [Hb Hh]. unfold getService, spawnAndBindService, spawnBfg.
  unfold_ops. cbn. destruct (service (ctrl w)); cbn; [now split|].
  split; [exact Hb|].
  apply (heard_snoc w _ EvSpawnBfg); [reflexivity|discriminate|exact Hh].
Qed.

Ltac hears_prim :=
  first
    [ apply hears_getService
    | let w := fresh "w" in
      let Hb := fresh "Hb" in
      let Hh := fresh "Hh" in
      intros w [Hb Hh]; split;
      [ cbn; exact Hb
      | first
          [ exact Hh
          | eapply (heard_snoc w); [reflexivity| |exact Hh];
            let c := fresh "c" in
            let Hc := fresh "Hc" in
            intros c Hc;
            first [ discriminate Hc
                  | injection Hc as <-; cbn; apply Hb; reflexivity ] ] ] ].

Lemma resume_hears b k r own :
  sends k r = false \/ asks_service k = true ->
  (b = false -> is_done_load k = false) ->
  triple (hears b) (o <- resume k r ;; finish own o) (fun _ => hears b).
Proof.
  intros Hk Hd.
  destruct b, k, r;
    try (destruct Hk as [Hk|Hk]; discriminate Hk);
    try (specialize (Hd eq_refl); discriminate Hd);
    unfold resume; walk hears_prim.
Qed.

Lemma bind_heard i own v w :
  heard w ->
  heard (run (remove_task i ;;
              o <- resume spawnAndBindService_spawn (Fulfilled v) ;;
              finish own o) w).
Proof.
  intros H. unfold resume. unfold_ops. cbn.
  destruct (accessToken (ctrl w)) as [t|]; [destruct (truthy t)|];
    cbn; intros c Hin; rewrite <- ?app_assoc in Hin;
    apply in_app_or in Hin as [Hin|Hin]; try (now apply H);
    cbn in Hin; intuition (try discriminate);
    match goal with E : EvChangeFired _ = EvChangeFired _ |- _ =>
      injection E as <- end; reflexivity.
Qed.

Lemma hears_heard b w : hears b w -> heard w.
Proof. now intros [_ H]. Qed.

Lemma step_heard l w w' :
  reachable w -> heard w -> step l w = Some w' -> heard w'.
Proof.
  intros Hr Hh.
  pose proof (reachable_rw w Hr) as [_ Hrw].
  assert (Hw : hears (serviceStarted (ctrl w)) w) by now split.
  destruct l; cbn [step].
  - intros [= <-]. apply (hears_heard (serviceStarted (ctrl w))).
    apply run_keep; [|exact Hw]. unfold start, async. walk hears_prim.
  - intros [= <-].
    destruct (setAccessToken_trace w serverEndpoint token Hr) as [Ht _].
    intros c Hin. rewrite Ht in Hin.
    apply in_app_or in Hin as [Hin|Hin]; [now apply Hh|].
    unfold flag_events in Hin.
    destruct (flag_changes serverEndpoint (ctrl w));
      destruct (serviceStarted (ctrl w)) eqn:Hst;
      cbn in Hin; intuition (try discriminate).
    match goal with E : EvChangeFired _ = EvChangeFired _ |- _ =>
      injection E as <- end. exact Hst.
  - intros [= <-]. apply (hears_heard (serviceStarted (ctrl w))).
    apply run_keep; [|exact Hw]. unfold index, async. walk hears_prim.
  - intros [= <-]. apply (hears_heard (serviceStarted (ctrl w))).
    apply run_keep; [|exact Hw]. unfold load, async. walk hears_prim.
  - intros [= <-]. apply (hears_heard (serviceStarted (ctrl w))).
    apply run_keep; [|exact Hw]. unfold query, async. walk hears_prim.
  - intros [= <-]. apply (hears_heard (serviceStarted (ctrl w))).
    apply run_keep; [|exact Hw]. unfold getContext, async. walk hears_prim.
  - intros [= <-]. apply (hears_heard (serviceStarted (ctrl w))).
    apply run_keep; [|exact Hw]. hears_prim.
  - destruct (promises w !! p) as [[o [|]]|]; try discriminate.
    destruct (answers o r); [|discriminate].
    intros [= <-]. apply (hears_heard (serviceStarted (ctrl w))).
    apply run_keep; [|exact Hw]. hears_prim.
  - destruct (promises w !! p) as [[o [|]]|]; try discriminate.
    destruct (is_spawn o); [|discriminate].
    intros [= <-]. apply (hears_heard (serviceStarted (ctrl w))).
    apply run_keep; [|exact Hw]. walk hears_prim.
  - destruct (registered w); [|discriminate].
    intros [= <-]. apply (hears_heard (serviceStarted (ctrl w))).
    apply run_keep; [|exact Hw]. unfold onProgress. walk hears_prim.
  - destruct (tasks w !! i) as [t|] eqn:Et; [|discriminate].
    destruct (promises w !! awaits t) as [[o [|r]]|]; try discriminate.
    intros [= <-].
    destruct (frame_eq_dec (resumes t)) as [Hk|Hk].
    + rewrite Hk. destruct r as [v|e]; [now apply bind_heard|].
      apply (hears_heard (serviceStarted (ctrl w))).
      apply run_keep; [|exact Hw].
      apply keep_bind; [hears_prim|]. intros ?u.
      apply resume_hears; [now left|reflexivity].
    + apply (hears_heard (serviceStarted (ctrl w))).
      apply run_keep; [|exact Hw].
      apply keep_bind; [hears_prim|]. intros ?u.
      apply resume_hears.
      * destruct (resumes t), r; cbn; auto; congruence.
      * intros Hst. rewrite Forall_lookup in Hrw. specialize (Hrw i t Et).
        destruct (is_done_load (resumes t)); [|reflexivity].
        rewrite (Hrw eq_refl) in Hst. discriminate.
Qed.

Lemma reachable_heard w : reachable w -> heard w.
Proof.
  induction 1 as [|l w w' Hr IH Hstep]; [intros c []|].
  now apply (step_heard l w).
Qed.

(** X24. Whoever listens to the change event finds the service started:
    in every reachable state, every change event fired so far was fired
    with [serviceStarted] true.  The event fires on line 70 under that
    very test, on line 159 right after the flag was set, and on line 134
    only after a load through the started service came back. *)
Theorem change_events_see_started_service (w : World) (c : Controller) :
  reachable w -> In (EvChangeFired c) (trace w) -> serviceStarted c = true.
Proof. intros Hr. now apply reachable_heard. Qed.

(** ** Off dotcom *)

(** X25. [getContext] off dotcom: [query] answers an empty result set
    without awaiting anything (lines 296-298), and [getContext] returns
    the empty list as soon as it is resumed; no worker is spawned, no
    request is sent and no field changes, whether or not a session
    exists. *)
Theorem getContext_off_dotcom (w : World) (q : string) (m : Z) :
  endpointIsDotcom (ctrl w) = false ->
  let w' := context_off_dotcom w in
  exec [L_getContext q m; L_resume (length (tasks w))] w = Some w' /\
  promise w' (length (promises w)) = Some (Settled (Fulfilled (VArray []))) /\
  spawns w' = spawns w /\
  contacted (trace w') = contacted (trace w).
Proof.
  intros Hd w'. subst w'. split; [|split; [|split]].
  - cbn [exec]. unfold step at 1. unfold getContext, query. unfold_ops.
    repeat (progress (cbn; store; ops; rewrite ?Hd)).
    unfold context_off_dotcom. now rewrite app_nil_r.
  - unfold promise, context_off_dotcom. now store.
  - unfold spawns, context_off_dotcom. cbn [trace].
    now rewrite filter_snoc_false.
  - unfold context_off_dotcom. cbn [trace]. now rewrite contacted_snoc.
Qed.

End Verification.

(** * Witnesses and counterexamples on sourcegraph.com *)

Lemma reachable_after (ls : list label) (w : World) :
  exec (dotcom := sourcegraph) ls init = Some w ->
  reachable (dotcom := sourcegraph) w.
Proof.
  intros H. eapply exec_reachable; [apply reachable_init|exact H].
Defined.

Lemma booted_reachable : reachable (dotcom := sourcegraph) booted.
Proof. apply (reachable_after boot). reflexivity. Defined.

Lemma indexing_repo_reachable :
  reachable (dotcom := sourcegraph) indexing_repo.
Proof.
  apply (reachable_after (boot ++ load_repo false ++ index_repo)).
  reflexivity.
Defined.

Lemma getService_single_flight_witness :
  reachable (dotcom := sourcegraph) booted /\
  spawns booted <= 1 /\
  (forall p, service (ctrl booted) = Some p ->
     getService booted = (p, booted) /\
     forall ls w', exec (dotcom := sourcegraph) ls booted = Some w' ->
       getService w' = (p, w') /\ spawns w' = 1).
Proof.
  pose proof booted_reachable as H.
  split; [exact H|].
  destruct (getService_single_flight (dotcom := sourcegraph) booted H)
    as (H1 & _ & H3).
  split; [exact H1|exact H3].
Defined.

Lemma done_notification_witness :
  reachable (dotcom := sourcegraph) indexing_repo /\
  pathBeingIndexed (ctrl indexing_repo) <> None /\
  reload_after_done (ctrl indexing_repo) = Some "/repo" /\
  exists sp,
    service (ctrl indexing_repo) = Some sp /\
    step (dotcom := sourcegraph) (L_notify NDone) indexing_repo
      = Some (done_reloading "/repo" sp indexing_repo) /\
    exec (dotcom := sourcegraph)
         [L_resume 0; L_settle 12 (Fulfilled (VBool true));
          L_resume 1; L_resume 0]
         (done_reloading "/repo" sp indexing_repo)
      = Some (done_reloaded "/repo" true indexing_repo).
Proof.
  assert (H2 : pathBeingIndexed (ctrl indexing_repo) <> None) by discriminate.
  assert (H3 : reload_after_done (ctrl indexing_repo) = Some "/repo")
    by reflexivity.
  split; [exact indexing_repo_reachable|].
  split; [exact H2|]. split; [exact H3|].
  exact (proj2 (done_notification (dotcom := sourcegraph) indexing_repo
                  indexing_repo_reachable H2) "/repo" true H3).
Defined.

(** C2, counterexample: the service is bound but no indexing was started,
    so there is no progress indicator; 'Done' arrives and the handler
    returns at its first line: the world is unchanged, no status event
    was fired. *)
Lemma done_without_indicator_fires_nothing :
  exec (dotcom := sourcegraph) boot init = Some booted /\
  registered booted = true /\
  statusBar (ctrl booted) = None /\
  pathBeingIndexed (ctrl booted) = None /\
  step (dotcom := sourcegraph) (L_notify NDone) booted = Some booted /\
  status_fired (trace (run (onProgress NDone) booted))
    = status_fired (trace booted).
Proof. repeat split. Qed.



Lemma load_fails_closed_witness :
  reachable (dotcom := sourcegraph) signed_in /\
  endpointIsDotcom (ctrl signed_in) = true /\
  "/repo" <> "" /\
  serviceStarted (ctrl signed_in) = false /\
  load None signed_in
    = (length (promises signed_in), returned f_load (VBool false) [] signed_in) /\
  let (p, w1) := load (Some "/repo") signed_in in
  promise w1 p = Some (Settled (Fulfilled (VBool false))) /\
  spawns w1 = 1 /\
  forall ls w2, exec (dotcom := sourcegraph) ls w1 = Some w2 ->
    promise w2 p = Some (Settled (Fulfilled (VBool false))) /\
    forall e, promise w2 (p + 1) <> Some (Settled (Rejected e)).
Proof.
  assert (H0 : reachable (dotcom := sourcegraph) signed_in).
  { apply (reachable_after sign_in). reflexivity. }
  assert (H1 : endpointIsDotcom (ctrl signed_in) = true) by reflexivity.
  assert (H2 : "/repo" <> "") by discriminate.
  assert (H3 : serviceStarted (ctrl signed_in) = false) by reflexivity.
  repeat (split; [assumption|]).
  split.
  - apply (proj1 (load_fails_closed (dotcom := sourcegraph))).
    right. left. reflexivity.
  - pose proof (proj2 (load_fails_closed (dotcom := sourcegraph))
                      signed_in "/repo" H0 H1 H2 H3) as H.
    destruct (load (Some "/repo") signed_in) as [p w1].
    destruct H as (A & _ & B & _ & C).
    split; [exact A|]. split; [exact B|exact C].
Defined.



Lemma index_is_noop_unless_unindexed_witness :
  (exists repo, lastRepo (ctrl ready_repo) = Some repo /\
                loadResult repo = true) /\
  index ready_repo =
    (length (promises ready_repo),
     returned f_index VUndefined
       [EvLog "index: No repository to index/already indexed"] ready_repo) /\
  requests Index (trace (run index ready_repo))
    = requests Index (trace ready_repo).
Proof.
  assert (H : exists repo, lastRepo (ctrl ready_repo) = Some repo /\
                           loadResult repo = true).
  { eexists. split; reflexivity. }
  split; [exact H|].
  apply (index_is_noop_unless_unindexed ready_repo).
  right. right. exact H.
Defined.

Lemma setAccessToken_credential_witness :
  reachable (dotcom := sourcegraph) booted /\
  serviceStarted (ctrl booted) = true /\
  "xyz" <> "" /\ accessToken (ctrl booted) <> Some "xyz" /\
  exec (dotcom := sourcegraph)
       [L_setAccessToken sourcegraph (Some "xyz"); L_resume 0] booted
    = Some (token_forwarded (dotcom := sourcegraph) sourcegraph "xyz" booted).
Proof.
  assert (H0 : serviceStarted (ctrl booted) = true) by reflexivity.
  assert (H1 : "xyz" <> "") by discriminate.
  assert (H2 : accessToken (ctrl booted) <> Some "xyz") by discriminate.
  split; [exact booted_reachable|].
  repeat (split; [assumption|]).
  exact (proj1 (setAccessToken_credential (dotcom := sourcegraph)
                  booted sourcegraph) "xyz" booted_reachable H0 H1 H2).
Defined.

(** C7, counterexample: the session is bound and token "abc" is held
    (and was sent to the worker); the host signs out with a null token.
    The held token is dropped, but nothing is sent to the worker and
    nothing is left suspended that could send it later. *)
Lemma null_token_is_not_forwarded :
  exec (dotcom := sourcegraph) boot init = Some booted /\
  serviceStarted (ctrl booted) = true /\
  accessToken (ctrl booted) = Some "abc" /\
  exists w',
    step (dotcom := sourcegraph) (L_setAccessToken sourcegraph None) booted
      = Some w' /\
    accessToken (ctrl w') = None /\
    tasks w' = [] /\
    requests SetToken (trace w') = requests SetToken (trace booted).
Proof.
  split; [reflexivity|]. split; [reflexivity|].
  split; [reflexivity|]. eexists. repeat split.
Qed.




(** The same happens when the second request is only made after 'Done',
    while the reload is in flight, if the worker acknowledges it before
    it answers the reload. *)
Lemma change_event_after_late_reindex :
  exec (dotcom := sourcegraph)
       (boot ++ load_repo false ++ index_repo ++ reindex_during_reload) init
    = Some reloaded_while_indexing /\
  exists w seen,
    step (dotcom := sourcegraph) (L_resume 0) reloaded_while_indexing
      = Some w /\
    trace w = trace reloaded_while_indexing ++
              [EvLog "load after indexing done"; EvChangeFired seen] /\
    lastRepo seen = Some {| path := "/repo"; loadResult := true |} /\
    pathBeingIndexed seen = Some "/repo".
Proof.
  split; [reflexivity|]. eexists. eexists. repeat split.
Qed.

Lemma query_not_dotcom_witness :
  endpointIsDotcom (ctrl init) = false /\
  query "needle" init
    = (0, returned f_query (VResultSet []) [] init).
Proof.
  split; [reflexivity|].
  exact (query_not_dotcom "needle" init eq_refl).
Defined.

(** * Witnesses of the further properties *)

Lemma not_indexed_reachable : reachable (dotcom := sourcegraph) not_indexed.
Proof. apply (reachable_after (boot ++ load_repo false)). reflexivity. Defined.

Lemma signed_in_reachable : reachable (dotcom := sourcegraph) signed_in.
Proof. apply (reachable_after sign_in). reflexivity. Defined.

Lemma spawn_failed_reachable : reachable (dotcom := sourcegraph) spawn_failed.
Proof. apply (reachable_after failed_boot). reflexivity. Defined.

Lemma worker_there_reachable : reachable (dotcom := sourcegraph) worker_there.
Proof.
  apply (reachable_after (spawning_worker ++ [L_settle 3 (Fulfilled VService)])).
  reflexivity.
Defined.

Lemma in_workspace_reachable : reachable (dotcom := sourcegraph) in_workspace.
Proof.
  apply (reachable_after (boot ++ [L_workspace (FirstFolder "/ws")])). reflexivity.
Defined.

Lemma indicator_iff_indexing_witness :
  reachable (dotcom := sourcegraph) indexing_repo /\
  (statusBar (ctrl indexing_repo) = None <->
   pathBeingIndexed (ctrl indexing_repo) = None) /\
  (forall p, pathBeingIndexed (ctrl indexing_repo) = Some p -> p <> "").
Proof.
  split; [exact indexing_repo_reachable|].
  destruct (indicator_iff_indexing (dotcom := sourcegraph) indexing_repo
              indexing_repo_reachable) as (A & B & _).
  split; [exact A|exact B].
Defined.

Lemma started_iff_service_fulfilled_witness :
  reachable (dotcom := sourcegraph) booted /\
  (serviceStarted (ctrl booted) = true <->
   exists sp v, service (ctrl booted) = Some sp /\
                promise booted sp = Some (Settled (Fulfilled v))) /\
  registered booted = serviceStarted (ctrl booted).
Proof.
  split; [exact booted_reachable|].
  destruct (started_iff_service_fulfilled (dotcom := sourcegraph) booted
              booted_reachable) as (A & B & _).
  split; [exact A|exact B].
Defined.

Lemma idle_notification_is_dropped_witness :
  reachable (dotcom := sourcegraph) booted /\
  serviceStarted (ctrl booted) = true /\
  pathBeingIndexed (ctrl booted) = None /\
  step (dotcom := sourcegraph) (L_notify (NProgress 1 2)) booted = Some booted.
Proof.
  assert (H1 : serviceStarted (ctrl booted) = true) by reflexivity.
  assert (H2 : pathBeingIndexed (ctrl booted) = None) by reflexivity.
  split; [exact booted_reachable|]. split; [exact H1|]. split; [exact H2|].
  exact (idle_notification_is_dropped (dotcom := sourcegraph) booted
           (NProgress 1 2) booted_reachable H1 H2).
Defined.

Lemma start_rejects_when_spawn_fails_witness :
  service (ctrl signed_in) = None /\
  exec (dotcom := sourcegraph)
       [L_start; L_spawn_failed 3 spawn_failure; L_resume 0; L_resume 0]
       signed_in
    = Some (start_failed spawn_failure true signed_in).
Proof.
  assert (H : service (ctrl signed_in) = None) by reflexivity.
  split; [exact H|].
  exact (proj1 (start_rejects_when_spawn_fails (dotcom := sourcegraph)
                  signed_in spawn_failure H)).
Defined.

Lemma failed_spawn_reaches_callers_witness :
  service (ctrl spawn_failed) = Some 2 /\
  promise spawn_failed 2 = Some (Settled (Rejected spawn_failure)) /\
  endpointIsDotcom (ctrl spawn_failed) = true /\
  exec (dotcom := sourcegraph) [L_query "needle"; L_resume 0] spawn_failed
    = Some (threw f_query spawn_failure [] spawn_failed).
Proof.
  assert (H1 : service (ctrl spawn_failed) = Some 2) by reflexivity.
  assert (H2 : promise spawn_failed 2 = Some (Settled (Rejected spawn_failure)))
    by reflexivity.
  assert (H3 : endpointIsDotcom (ctrl spawn_failed) = true) by reflexivity.
  split; [exact H1|]. split; [exact H2|]. split; [exact H3|].
  exact (proj1 (proj2 (failed_spawn_reaches_callers (dotcom := sourcegraph)
                         spawn_failed 2 spawn_failure H1 H2) H3 "needle")).
Defined.

Lemma bind_forwards_held_token_witness :
  reachable (dotcom := sourcegraph) worker_there /\
  tasks worker_there !! 0
    = Some {| awaits := 3; resumes := spawnAndBindService_spawn; owner := 2 |} /\
  promise worker_there 3 = Some (Settled (Fulfilled VService)) /\
  exists w',
    step (dotcom := sourcegraph) (L_resume 0) worker_there = Some w' /\
    ctrl w' = set_serviceStarted true (ctrl worker_there) /\
    trace w' = trace worker_there ++
      [EvRegisterNotification; EvLog "spawnAndBindService service started";
       EvRequest SetToken (VString "abc") 4;
       EvChangeFired (set_serviceStarted true (ctrl worker_there))].
Proof.
  assert (H1 : tasks worker_there !! 0
    = Some {| awaits := 3; resumes := spawnAndBindService_spawn; owner := 2 |})
    by reflexivity.
  assert (H2 : promise worker_there 3 = Some (Settled (Fulfilled VService)))
    by reflexivity.
  split; [exact worker_there_reachable|]. split; [exact H1|].
  split; [exact H2|].
  destruct (bind_forwards_held_token (dotcom := sourcegraph) worker_there 0 _
              VService worker_there_reachable H1 eq_refl H2)
    as (w' & A & B & _ & _ & _ & C).
  exists w'. split; [exact A|]. split; [exact B|exact C].
Defined.

Lemma without_folders_reachable :
  reachable (dotcom := sourcegraph) without_folders.
Proof.
  apply (reachable_after (boot ++ [L_workspace NoFolders])). reflexivity.
Defined.

Lemma start_loads_workspace_folder_witness :
  reachable (dotcom := sourcegraph) in_workspace /\
  serviceStarted (ctrl in_workspace) = true /\
  workspace in_workspace = FirstFolder "/ws" /\
  exec (dotcom := sourcegraph)
       [L_start; L_resume 0; L_resume 0;
        L_settle 7 (Fulfilled (VBool true)); L_resume 1; L_resume 0]
       in_workspace
    = Some (workspace_loaded "/ws" true in_workspace) /\
  reachable (dotcom := sourcegraph) without_folders /\
  serviceStarted (ctrl without_folders) = true /\
  workspace without_folders = NoFolders /\
  exec (dotcom := sourcegraph) [L_start; L_resume 0] without_folders
    = Some (threw f_start TypeError [EvLog "start"] without_folders).
Proof.
  assert (H1 : serviceStarted (ctrl in_workspace) = true) by reflexivity.
  assert (H2 : workspace in_workspace = FirstFolder "/ws") by reflexivity.
  assert (H3 : serviceStarted (ctrl without_folders) = true) by reflexivity.
  assert (H4 : workspace without_folders = NoFolders) by reflexivity.
  split; [exact in_workspace_reachable|]. split; [exact H1|].
  split; [exact H2|]. split.
  - exact (proj1 (start_loads_workspace_folder (dotcom := sourcegraph)
                    in_workspace in_workspace_reachable H1) "/ws" true H2).
  - split; [exact without_folders_reachable|]. split; [exact H3|].
    split; [exact H4|].
    exact (proj2 (proj2 (start_loads_workspace_folder (dotcom := sourcegraph)
                           without_folders without_folders_reachable H3)) H4).
Defined.

Lemma index_starts_indexing_witness :
  reachable (dotcom := sourcegraph) not_indexed /\
  can_index (ctrl not_indexed) = Some "/repo" /\
  exec (dotcom := sourcegraph)
       [L_index; L_resume 0; L_settle 9 (Fulfilled VUndefined); L_resume 0]
       not_indexed
    = Some (index_started "/repo" VUndefined not_indexed) /\
  status (ctrl (index_started "/repo" VUndefined not_indexed)) NoWorkspace
    = Got [ {| name := "/repo"; providers := [local_embeddings indexing] |} ].
Proof.
  assert (H : can_index (ctrl not_indexed) = Some "/repo") by reflexivity.
  split; [exact not_indexed_reachable|]. split; [exact H|].
  destruct (index_starts_indexing (dotcom := sourcegraph) not_indexed "/repo"
              not_indexed_reachable H VUndefined) as [A B].
  split; [exact A|exact (B NoWorkspace)].
Defined.

Lemma index_never_raises_witness :
  reachable (dotcom := sourcegraph) not_indexed /\
  can_index (ctrl not_indexed) = Some "/repo" /\
  exec (dotcom := sourcegraph)
       [L_index; L_resume 0; L_settle 9 (Rejected (Error "quota")); L_resume 0]
       not_indexed
    = Some (index_failed "/repo" (Error "quota") not_indexed).
Proof.
  assert (H : can_index (ctrl not_indexed) = Some "/repo") by reflexivity.
  split; [exact not_indexed_reachable|]. split; [exact H|].
  exact (proj2 (index_never_raises (dotcom := sourcegraph) not_indexed
                  not_indexed_reachable) "/repo" (Error "quota") H).
Defined.

Lemma getContext_round_trip_witness :
  reachable (dotcom := sourcegraph) booted /\
  serviceStarted (ctrl booted) = true /\
  endpointIsDotcom (ctrl booted) = true /\
  exec (dotcom := sourcegraph)
       [L_getContext "needle" 5; L_resume 0;
        L_settle 7 (Fulfilled (VResultSet ["a.ts"; "b.ts"]));
        L_resume 1; L_resume 0] booted
    = Some (context_found "needle" ["a.ts"; "b.ts"] booted).
Proof.
  assert (H1 : serviceStarted (ctrl booted) = true) by reflexivity.
  assert (H2 : endpointIsDotcom (ctrl booted) = true) by reflexivity.
  split; [exact booted_reachable|]. split; [exact H1|]. split; [exact H2|].
  exact (proj1 (getContext_round_trip (dotcom := sourcegraph) booted
                  "needle" 5 booted_reachable H1 H2) ["a.ts"; "b.ts"]).
Defined.

Lemma indexing_ends_only_on_done_witness :
  pathBeingIndexed (ctrl indexing_repo) <> None /\
  ~ In (L_notify NDone) [L_notify (NError "disk full"); L_index] /\
  forall w',
    exec (dotcom := sourcegraph)
         [L_notify (NError "disk full"); L_index] indexing_repo = Some w' ->
    pathBeingIndexed (ctrl w') <> None.
Proof.
  assert (H1 : pathBeingIndexed (ctrl indexing_repo) <> None) by discriminate.
  assert (H2 : ~ In (L_notify NDone) [L_notify (NError "disk full"); L_index]).
  { intros [H|[H|[]]]; discriminate H. }
  split; [exact H1|]. split; [exact H2|].
  intros w'.
  exact (indexing_ends_only_on_done (dotcom := sourcegraph) indexing_repo
           _ w' H1 H2).
Defined.

Lemma empty_token_is_dropped_witness :
  reachable (dotcom := sourcegraph) booted /\
  accessToken (ctrl booted) = Some "abc" /\
  accessToken
    (ctrl (run (setAccessToken (dotcom := sourcegraph) sourcegraph (Some ""))
               booted)) = None /\
  tasks (run (setAccessToken (dotcom := sourcegraph) sourcegraph (Some ""))
             booted) = tasks booted.
Proof.
  split; [exact booted_reachable|]. split; [reflexivity|].
  destruct (empty_token_is_dropped (dotcom := sourcegraph) booted sourcegraph
              booted_reachable) as (_ & A & B & _).
  split; [exact A|exact B].
Defined.

Lemma no_request_before_bound_witness :
  reachable (dotcom := sourcegraph) worker_there /\
  serviceStarted (ctrl worker_there) = false /\
  contacted (trace worker_there) = 0.
Proof.
  assert (H : serviceStarted (ctrl worker_there) = false) by reflexivity.
  split; [exact worker_there_reachable|]. split; [exact H|].
  exact (proj1 (no_request_before_bound (dotcom := sourcegraph) worker_there
                  worker_there_reachable H)).
Defined.

Lemma failed_spawn_is_final_witness :
  reachable (dotcom := sourcegraph) spawn_failed /\
  service (ctrl spawn_failed) = Some 2 /\
  promise spawn_failed 2 = Some (Settled (Rejected spawn_failure)) /\
  forall ls w',
    exec (dotcom := sourcegraph) ls spawn_failed = Some w' ->
    serviceStarted (ctrl w') = false /\ spawns w' = 1 /\
    contacted (trace w') = 0.
Proof.
  assert (H1 : service (ctrl spawn_failed) = Some 2) by reflexivity.
  assert (H2 : promise spawn_failed 2 = Some (Settled (Rejected spawn_failure)))
    by reflexivity.
  split; [exact spawn_failed_reachable|]. split; [exact H1|].
  split; [exact H2|]. intros ls w' Hx.
  destruct (failed_spawn_is_final (dotcom := sourcegraph) spawn_failed 2
              spawn_failure spawn_failed_reachable H1 H2 ls w' Hx)
    as (_ & _ & A & B & _ & C).
  split; [exact B|]. split; [exact A|exact C].
Defined.

Lemma load_evicts_previous_path_witness :
  reachable (dotcom := sourcegraph) booted /\
  serviceStarted (ctrl booted) = true /\
  endpointIsDotcom (ctrl booted) = true /\
  "/a" <> "" /\ "/b" <> "" /\ "/a" <> "/b" /\
  cached (ctrl booted) "/a" = None /\
  cached (ctrl (loaded "/b" false (loaded "/a" true booted))) "/a" = None /\
  requests Load
    (trace (loaded "/a" true (loaded "/b" false (loaded "/a" true booted))))
    = requests Load (trace booted) + 3.
Proof.
  assert (H1 : serviceStarted (ctrl booted) = true) by reflexivity.
  assert (H2 : endpointIsDotcom (ctrl booted) = true) by reflexivity.
  assert (H3 : "/a" <> "") by discriminate.
  assert (H4 : "/b" <> "") by discriminate.
  assert (H5 : "/a" <> "/b") by discriminate.
  assert (H6 : cached (ctrl booted) "/a" = None) by reflexivity.
  split; [exact booted_reachable|].
  do 6 (split; [assumption|]).
  destruct (load_evicts_previous_path (dotcom := sourcegraph) booted
              "/a" "/b" true false true booted_reachable H1 H2 H3 H4 H5 H6)
    as (_ & _ & A & _ & B).
  split; [exact A|exact B].
Defined.

Lemma status_follows_indexing_witness :
  reachable (dotcom := sourcegraph) booted /\
  serviceStarted (ctrl booted) = true /\
  endpointIsDotcom (ctrl booted) = true /\
  "/repo" <> "" /\
  cached (ctrl booted) "/repo" = None /\
  pathBeingIndexed (ctrl booted) <> Some "/repo" /\
  status (ctrl (loaded "/repo" false booted)) NoWorkspace
    = reports "/repo" unconsented /\
  status (ctrl (index_started "/repo" VUndefined (loaded "/repo" false booted)))
         NoWorkspace
    = reports "/repo" indexing /\
  status (ctrl (done_reloaded "/repo" true
                  (index_started "/repo" VUndefined
                     (loaded "/repo" false booted)))) NoWorkspace
    = reports "/repo" ready.
Proof.
  assert (H1 : serviceStarted (ctrl booted) = true) by reflexivity.
  assert (H2 : endpointIsDotcom (ctrl booted) = true) by reflexivity.
  assert (H3 : "/repo" <> "") by discriminate.
  assert (H4 : cached (ctrl booted) "/repo" = None) by reflexivity.
  assert (H5 : pathBeingIndexed (ctrl booted) <> Some "/repo") by discriminate.
  split; [exact booted_reachable|].
  do 5 (split; [assumption|]).
  destruct (status_follows_indexing (dotcom := sourcegraph) booted "/repo"
              VUndefined booted_reachable H1 H2 H3 H4 H5)
    as (_ & A & _ & B & _ & C & _).
  split; [exact (A NoWorkspace)|].
  split; [exact (B NoWorkspace)|exact (C NoWorkspace)].
Defined.

Lemma overlapping_loads_both_ask_witness :
  reachable (dotcom := sourcegraph) booted /\
  serviceStarted (ctrl booted) = true /\
  endpointIsDotcom (ctrl booted) = true /\
  "/repo" <> "" /\
  cached (ctrl booted) "/repo" = None /\
  exec (dotcom := sourcegraph)
       [L_load (Some "/repo"); L_load (Some "/repo"); L_resume 0; L_resume 1;
        L_settle 9 (Fulfilled (VBool true)); L_resume 2; L_resume 0;
        L_settle 10 (Fulfilled (VBool false)); L_resume 1; L_resume 0]
       booted
    = Some (loaded_twice "/repo" true false booted) /\
  requests Load (trace (loaded_twice "/repo" true false booted))
    = requests Load (trace booted) + 2.
Proof.
  assert (H1 : serviceStarted (ctrl booted) = true) by reflexivity.
  assert (H2 : endpointIsDotcom (ctrl booted) = true) by reflexivity.
  assert (H3 : "/repo" <> "") by discriminate.
  assert (H4 : cached (ctrl booted) "/repo" = None) by reflexivity.
  split; [exact booted_reachable|].
  do 4 (split; [assumption|]).
  destruct (overlapping_loads_both_ask (dotcom := sourcegraph) booted "/repo"
              true false booted_reachable H1 H2 H3 H4) as (A & B & _).
  split; [exact A|exact B].
Defined.

Lemma other_notifications_touch_only_the_indicator_witness :
  reachable (dotcom := sourcegraph) indexing_repo /\
  pathBeingIndexed (ctrl indexing_repo) <> None /\
  NError "disk full" <> NDone /\
  exists bar,
    statusBar (ctrl indexing_repo) = Some bar /\
    step (dotcom := sourcegraph) (L_notify (NError "disk full")) indexing_repo
      = Some (with_indicator
                {| text := BarWarning; warningBackground := true;
                   visible := true |} [] indexing_repo).
Proof.
  assert (H1 : pathBeingIndexed (ctrl indexing_repo) <> None) by discriminate.
  assert (H2 : NError "disk full" <> NDone) by discriminate.
  split; [exact indexing_repo_reachable|]. split; [exact H1|].
  split; [exact H2|].
  destruct (other_notifications_touch_only_the_indicator
              (dotcom := sourcegraph) indexing_repo (NError "disk full")
              indexing_repo_reachable H1 H2) as (bar & A & B & _).
  exists bar. split; [exact A|exact B].
Defined.

Lemma flag_transition_is_announced_first_witness :
  reachable (dotcom := sourcegraph) booted /\
  flag_changes (dotcom := sourcegraph) "https://example.com/" (ctrl booted)
    = true /\
  In (EvStatusFired (ctrl booted))
     (flag_events (dotcom := sourcegraph) "https://example.com/" (ctrl booted)) /\
  endpointIsDotcom (ctrl booted) = true /\
  endpointIsDotcom
    (ctrl (run (setAccessToken (dotcom := sourcegraph)
                  "https://example.com/" (Some "abc")) booted)) = false.
Proof.
  assert (H : flag_changes (dotcom := sourcegraph) "https://example.com/"
                (ctrl booted) = true) by reflexivity.
  split; [exact booted_reachable|]. split; [exact H|].
  destruct (flag_transition_is_announced_first (dotcom := sourcegraph) booted
              "https://example.com/" (Some "abc") booted_reachable)
    as (_ & B & C).
  destruct (C H) as [C1 _].
  split; [exact C1|]. split; [reflexivity|exact B].
Defined.

Lemma load_rejects_with_the_worker_witness :
  reachable (dotcom := sourcegraph) booted /\
  serviceStarted (ctrl booted) = true /\
  endpointIsDotcom (ctrl booted) = true /\
  "/repo" <> "" /\
  cached (ctrl booted) "/repo" = None /\
  exec (dotcom := sourcegraph)
       [L_load (Some "/repo"); L_resume 0;
        L_settle 7 (Rejected (Error "no index")); L_resume 1; L_resume 0]
       booted
    = Some (load_failed "/repo" (Error "no index") booted) /\
  promise (load_failed "/repo" (Error "no index") booted) 5
    = Some (Settled (Rejected (Error "no index"))).
Proof.
  assert (H1 : serviceStarted (ctrl booted) = true) by reflexivity.
  assert (H2 : endpointIsDotcom (ctrl booted) = true) by reflexivity.
  assert (H3 : "/repo" <> "") by discriminate.
  assert (H4 : cached (ctrl booted) "/repo" = None) by reflexivity.
  split; [exact booted_reachable|].
  do 4 (split; [assumption|]).
  destruct (load_rejects_with_the_worker (dotcom := sourcegraph) booted
              "/repo" (Error "no index") booted_reachable H1 H2 H3 H4)
    as (A & B & _).
  split; [exact A|exact B].
Defined.

Lemma failed_reload_fires_no_change_witness :
  reachable (dotcom := sourcegraph) indexing_repo /\
  pathBeingIndexed (ctrl indexing_repo) <> None /\
  reload_after_done (ctrl indexing_repo) = Some "/repo" /\
  exec (dotcom := sourcegraph)
       [L_notify NDone; L_resume 0;
        L_settle 12 (Rejected (Error "gone")); L_resume 1; L_resume 0]
       indexing_repo
    = Some (done_reload_failed "/repo" (Error "gone") indexing_repo) /\
  change_fired (trace (done_reload_failed "/repo" (Error "gone") indexing_repo))
    = change_fired (trace indexing_repo).
Proof.
  assert (H1 : pathBeingIndexed (ctrl indexing_repo) <> None) by discriminate.
  assert (H2 : reload_after_done (ctrl indexing_repo) = Some "/repo")
    by reflexivity.
  split; [exact indexing_repo_reachable|].
  do 2 (split; [assumption|]).
  destruct (failed_reload_fires_no_change (dotcom := sourcegraph)
              indexing_repo "/repo" (Error "gone")
              indexing_repo_reachable H1 H2) as (A & B & _).
  split; [exact A|exact B].
Defined.

Lemma token_precedes_first_query_witness :
  service (ctrl signed_in) = None /\
  endpointIsDotcom (ctrl signed_in) = true /\
  accessToken (ctrl signed_in) = Some "abc" /\
  "abc" <> "" /\
  exec (dotcom := sourcegraph)
       [L_query "needle"; L_settle 3 (Fulfilled VService);
        L_resume 0; L_resume 0;
        L_settle 5 (Fulfilled (VResultSet ["a.ts"])); L_resume 0]
       signed_in
    = Some (first_query_done "needle" "abc" ["a.ts"] signed_in).
Proof.
  assert (H1 : service (ctrl signed_in) = None) by reflexivity.
  assert (H2 : endpointIsDotcom (ctrl signed_in) = true) by reflexivity.
  assert (H3 : accessToken (ctrl signed_in) = Some "abc") by reflexivity.
  assert (H4 : "abc" <> "") by discriminate.
  do 4 (split; [assumption|]).
  exact (token_precedes_first_query (dotcom := sourcegraph) signed_in
           "needle" "abc" ["a.ts"] H1 H2 H3 H4).
Defined.

Lemma change_events_see_started_service_witness :
  reachable (dotcom := sourcegraph) booted /\
  In (EvChangeFired (ctrl booted)) (trace booted) /\
  serviceStarted (ctrl booted) = true.
Proof.
  assert (H : In (EvChangeFired (ctrl booted)) (trace booted)).
  { do 7 right. left. reflexivity. }
  split; [exact booted_reachable|]. split; [exact H|].
  exact (change_events_see_started_service (dotcom := sourcegraph) booted
           (ctrl booted) booted_reachable H).
Defined.

Lemma getContext_off_dotcom_witness :
  endpointIsDotcom (ctrl init) = false /\
  exec (dotcom := sourcegraph) [L_getContext "needle" 5; L_resume 0] init
    = Some (context_off_dotcom init) /\
  spawns (context_off_dotcom init) = spawns init.
Proof.
  assert (H : endpointIsDotcom (ctrl init) = false) by reflexivity.
  split; [exact H|].
  destruct (getContext_off_dotcom (dotcom := sourcegraph) init "needle" 5 H)
    as (A & _ & B & _).
  split; [exact A|exact B].
Defined.
